(** * Xamarin icon generator ([scripts/xamarin.py])

    A shallow embedding of the icon pipeline: colour resolution, the
    complementary colour, the brightness test, the workspace reset, the copy
    of the [svg/] tree, the recolouring by [sed] and the two raster exporters.

    Python strings are sequences of 8-bit characters ([list ascii]); the file
    system is a finite map from absolute path names to nodes; the functions
    that touch it are state transformers that either return or raise. Console
    output ([echo], [secho], the progress bar) is not part of the model. *)

From Stdlib Require Import ZArith Ascii String List Lia Bool.
From stdpp Require Import base option list gmap strings.

Abbreviation text := (list ascii).

Coercion list_ascii_of_string : string >-> list.

(** ** Python string operations *)

Definition LF : ascii := ascii_of_nat 10.
Definition DQ : ascii := ascii_of_nat 34.
Definition BACKSLASH : ascii := ascii_of_nat 92.

(** [s.startswith(p)] *)
Fixpoint starts_with (p s : text) : bool :=
  match p, s with
  | [], _ => true
  | _ :: _, [] => false
  | a :: p', b :: s' => Ascii.eqb a b && starts_with p' s'
  end.

(** [s.endswith(p)] *)
Definition ends_with (p s : text) : bool := starts_with (rev p) (rev s).

(** [p in s] *)
Fixpoint contains (p s : text) : bool :=
  match s with
  | [] => starts_with p []
  | _ :: s' => starts_with p s || contains p s'
  end.

(** The scan behind [s.replace(old, new)] for a non-empty [old], and behind
    [sed]'s [s/old/new/g] for a literal [old]: left to right, every match is
    replaced and the scan resumes after it. [skip] counts the characters of
    the current match that are still to be dropped. *)
Fixpoint gsub_go (old new : text) (skip : nat) (s : text) : text :=
  match s with
  | [] => []
  | c :: s' =>
      match skip with
      | S k => gsub_go old new k s'
      | O =>
          if starts_with old s
          then new ++ gsub_go old new (length old - 1) s'
          else c :: gsub_go old new 0 s'
      end
  end.

Definition gsub (old new s : text) : text := gsub_go old new 0 s.

(** [s.replace(old, new)]; with an empty [old] Python puts [new] before
    every character and at the end. *)
Definition py_replace (old new s : text) : text :=
  match old with
  | [] => new ++ concat (List.map (fun c => c :: new) s)
  | _ :: _ => gsub old new s
  end.

(** [str.isspace] on one character below 128. *)
Definition py_isspace (c : ascii) : bool :=
  let n := nat_of_ascii c in
  ((9 <=? n) && (n <=? 13)) || ((28 <=? n) && (n <=? 32)).

Fixpoint lstrip (s : text) : text :=
  match s with
  | [] => []
  | c :: s' => if py_isspace c then lstrip s' else s
  end.

Definition rstrip (s : text) : text := rev (lstrip (rev s)).

(** [s.strip()] *)
Definition py_strip (s : text) : text := rstrip (lstrip s).

(** [s[1:]], [s[:2]], [s[2:4]], [s[4:]] are [drop] and [take]. *)
Definition slice (i j : nat) (s : text) : text := take (j - i) (drop i s).

(** [sep.join(parts)] *)
Fixpoint str_join (sep : text) (parts : list text) : text :=
  match parts with
  | [] => []
  | [x] => x
  | x :: rest => x ++ sep ++ str_join sep rest
  end.

(** The lines of a command's output, each with its line terminator, as the
    iteration over a finished command yields them. [cur] is the current line,
    reversed. *)
Fixpoint lines_go (cur s : text) : list text :=
  match s with
  | [] => match cur with [] => [] | _ :: _ => [rev cur] end
  | c :: s' =>
      if Ascii.eqb c LF then rev (c :: cur) :: lines_go [] s'
      else lines_go (c :: cur) s'
  end.

Definition lines (s : text) : list text := lines_go [] s.

(** ** [os.path] *)

(** [os.path.basename(p)]: what follows the last slash. *)
Fixpoint basename (p : text) : text :=
  match p with
  | [] => []
  | c :: r =>
      if contains "/" r then basename r
      else if Ascii.eqb c "/" then r else p
  end.

(** [os.path.join(a, b)] *)
Definition join (a b : text) : text :=
  if starts_with "/" b then b
  else if bool_decide (a = []) || ends_with "/" a then a ++ b
  else a ++ "/" ++ b.

(** ** [int(s, 16)] *)

(** C's [isspace] in the C locale, which [int] uses on ASCII input. *)
Definition c_isspace (c : ascii) : bool :=
  let n := nat_of_ascii c in
  ((9 <=? n) && (n <=? 13)) || (n =? 32).

(** The value of a hexadecimal digit, [None] for any other character. *)
Definition digit_value (c : ascii) : option Z :=
  let n := Z.of_nat (nat_of_ascii c) in
  if ((48 <=? n) && (n <=? 57))%Z then Some (n - 48)%Z
  else if ((97 <=? n) && (n <=? 102))%Z then Some (n - 87)%Z
  else if ((65 <=? n) && (n <=? 70))%Z then Some (n - 55)%Z
  else None.

Fixpoint lskip_c (s : text) : text :=
  match s with
  | [] => []
  | c :: s' => if c_isspace c then lskip_c s' else s
  end.

(** The digit loop: digits and single underscores between them. It yields the
    value, the number of digits and the unread rest; a doubled or a trailing
    underscore is an error. *)
Fixpoint scan_digits (prev_us : bool) (acc : Z) (count : nat) (s : text)
  : option (Z * nat * text) :=
  match s with
  | [] => if prev_us then None else Some (acc, count, [])
  | c :: s' =>
      if Ascii.eqb c "_" then
        if prev_us then None else scan_digits true acc count s'
      else
        match digit_value c with
        | Some d => scan_digits false (16 * acc + d)%Z (S count) s'
        | None => if prev_us then None else Some (acc, count, s)
        end
  end.

Definition skip_sign (s : text) : bool * text :=
  match s with
  | c :: r =>
      if Ascii.eqb c "+" then (false, r)
      else if Ascii.eqb c "-" then (true, r)
      else (false, s)
  | [] => (false, s)
  end.

(** An optional [0x] or [0X], after which one underscore is allowed. *)
Definition skip_0x (s : text) : text :=
  match s with
  | z :: x :: r =>
      if Ascii.eqb z "0" && (Ascii.eqb x "x" || Ascii.eqb x "X") then
        match r with
        | u :: r' => if Ascii.eqb u "_" then r' else r
        | [] => r
        end
      else s
  | _ => s
  end.

(** [int(s, 16)]: [None] stands for [ValueError]. Blanks around, a sign, an
    optional prefix, then at least one digit. *)
Definition py_int16 (s : text) : option Z :=
  let '(neg, s2) := skip_sign (lskip_c s) in
  let s3 := skip_0x s2 in
  if starts_with "_" s3 then None
  else
    match scan_digits false 0 0 s3 with
    | Some (v, S _, rest) =>
        match lskip_c rest with
        | [] => Some (if neg then (- v)%Z else v)
        | _ :: _ => None
        end
    | _ => None
    end.

(** ** ["#%06X" % n] *)

Definition hex_digit_upper (d : Z) : ascii :=
  if (d <? 10)%Z then ascii_of_nat (Z.to_nat (48 + d))
  else ascii_of_nat (Z.to_nat (55 + d)).

Fixpoint hex_upper_go (fuel : nat) (n : Z) (acc : text) : text :=
  match fuel with
  | O => acc
  | S f =>
      let acc' := hex_digit_upper (n mod 16) :: acc in
      if (n / 16 =? 0)%Z then acc' else hex_upper_go f (n / 16) acc'
  end.

(** Upper-case hexadecimal digits of a natural number. *)
Definition hex_upper (n : Z) : text :=
  hex_upper_go (S (Z.to_nat (Z.log2 n))) n [].

(** ["%06X" % n]: sign, then zeros up to six characters in all. *)
Definition format_06X (n : Z) : text :=
  let digits := hex_upper (Z.abs n) in
  let sign : text := if (n <? 0)%Z then "-" else [] in
  sign ++ replicate (6 - length sign - length digits) ("0"%char) ++ digits.

(** ** Exceptions *)

(** The function of the script in which an exception is raised. *)
Inductive origin :=
  | In_parse_color
  | In_get_complementary_color
  | In_color_too_bright
  | In_copy_svg_to_xamarin
  | In_replace_color_on_svgs
  | In_create_ios_images
  | In_create_android_images.

Inductive error :=
  | GenerationError (msg : text)
  | ValueError (literal : text)      (* invalid literal for int() with base 16 *)
  | ErrorReturnCode (tool : text)    (* an external command exited non-zero *)
  | SedScriptNotModelled.            (* see [sed_rhs] *)

Inductive result (A : Type) :=
  | Ok (a : A)
  | Raise (o : origin) (e : error).
Arguments Ok {A} a.
Arguments Raise {A} o e.

Definition rbind {A B} (r : result A) (k : A -> result B) : result B :=
  match r with
  | Ok a => k a
  | Raise o e => Raise o e
  end.

(** ** The file system *)

Inductive node :=
  | Dir
  | File (data : text).

(** [p] is [d] or lies below it. *)
Definition under (d p : text) : bool :=
  bool_decide (p = d) || starts_with (d ++ "/") p.

Definition paths (fs : gmap text node) : list text := (map_to_list fs).*1.

(** [os.path.exists(p)]: a directory exists as soon as something lies
    below it. *)
Definition path_exists (p : text) (fs : gmap text node) : bool :=
  bool_decide (Exists (fun k => under p k) (paths fs)).

(** [os.makedirs(p)] *)
Definition makedirs (p : text) (fs : gmap text node) : gmap text node :=
  <[p := Dir]> fs.

(** [rm -rf p] *)
Definition rm_rf (p : text) (fs : gmap text node) : gmap text node :=
  filter (fun kv => ¬ under p kv.1) fs.

(** [cp -r src dst]: the tree at [src] is written at [dst/basename(src)] when
    [dst] exists, at [dst] otherwise; present entries are overwritten. The
    command fails when [src] does not exist. *)
Definition cp_target (src dst : text) (fs : gmap text node) : text :=
  if path_exists dst fs then join dst (basename src) else dst.

Definition cp_r (src dst : text) (fs : gmap text node)
  : option (gmap text node) :=
  if path_exists src fs then
    let target := cp_target src dst fs in
    let copied :=
      (fun kv : text * node => (target ++ drop (length src) kv.1, kv.2))
        <$> filter (fun kv : text * node => under src kv.1) (map_to_list fs) in
    Some (list_to_map copied ∪ fs)
  else None.

(** [-name "*.svg"]: the pattern is matched against the base name, and the
    star also matches a leading dot. *)
Definition svg_glob (p : text) : bool := ends_with ".svg" (basename p).

(** [find dir -name "*.svg"]: the matching paths at and below [dir], of any
    node type, in the order of the map; [None] when [dir] does not exist. *)
Definition find_svg (dir : text) (fs : gmap text node) : option (list text) :=
  if path_exists dir fs
  then Some (filter (fun k => under dir k && svg_glob k) (paths fs))
  else None.

(** The right-hand side of [s/old/rhs/g] as [sed] reads it: an ampersand
    stands for the matched text. A slash, a backslash or a line feed ends or
    escapes the right-hand side; scripts with one of them are outside the
    model. *)
Definition sed_special (c : ascii) : bool :=
  Ascii.eqb c "/" || Ascii.eqb c BACKSLASH || Ascii.eqb c LF.

Definition sed_rhs (old rhs : text) : option text :=
  if existsb sed_special rhs then None
  else Some (concat (List.map (fun c => if Ascii.eqb c "&" then old else [c]) rhs)).

(** [sed -i 's/old/rhs/g' p...]: the files are edited in turn; [sed] stops at
    the first path that is not a regular file. *)
Fixpoint sed_inplace (old new : text) (ps : list text) (fs : gmap text node)
  : bool * gmap text node :=
  match ps with
  | [] => (true, fs)
  | p :: ps' =>
      match fs !! p with
      | Some (File c) => sed_inplace old new ps' (<[p := File (gsub old new c)]> fs)
      | _ => (false, fs)
      end
  end.

(** ** Vocabulary of the statements *)

Definition hex_step (acc : Z) (c : ascii) : Z :=
  (16 * acc + default 0 (digit_value c))%Z.

(** The value of a string of hexadecimal digits, most significant first. *)
Definition hexval (ds : text) : Z := fold_left hex_step ds 0%Z.

(** [k] upper-case hexadecimal digits of [n], leading zeros included. *)
Fixpoint hex_fixed (k : nat) (n : Z) : text :=
  match k with
  | O => []
  | S k' => hex_fixed k' (n / 16) ++ [hex_digit_upper (n mod 16)]
  end.

Definition is_hex_digit (c : ascii) : bool :=
  match digit_value c with Some _ => true | None => false end.

(** [c.upper()] on one character below 128. *)
Definition ascii_upper (c : ascii) : ascii :=
  let n := nat_of_ascii c in
  if (97 <=? n) && (n <=? 122) then ascii_of_nat (n - 32) else c.

(** The brightness test with the weights 299, 587 and 114 on the first, the
    second and the third byte, in that order. *)
Definition luma_in_order (b0 b1 b2 : Z) : bool :=
  (155000 <? b0 * 299 + b1 * 587 + b2 * 114)%Z.

(** A text that [sed] reads literally on the right of [s/old/.../g]. *)
Definition sed_literal (rhs : text) : bool :=
  negb (existsb (fun c => sed_special c || Ascii.eqb c "&") rhs).

(** A file edited by [f]; a directory is left alone. *)
Definition edit_file (f : text -> text) (n : node) : node :=
  match n with
  | Dir => Dir
  | File c => File (f c)
  end.

(** No proper border: no proper non-empty prefix of [p] is also a suffix of
    it, so two occurrences of [p] never overlap. *)
Definition unbordered (p : text) : bool :=
  forallb (fun k => negb (bool_decide (take k p = drop (length p - k) p)))
          (seq 1 (length p - 1)).

(** [p] and [r] differ at some position that both have: [p] is not a prefix
    of [r] followed by anything. *)
Definition clash (p r : text) : bool :=
  negb (starts_with p r) && negb (starts_with r p).

(** Putting [new] into a text cannot complete an occurrence of [p]: every
    non-empty suffix of [p] clashes with [new], and [p] clashes with every
    non-empty suffix of [new]. *)
Definition inert (p new : text) : bool :=
  forallb (fun k => clash (drop k p) new) (seq 0 (length p))
  && forallb (fun j => clash p (drop j new)) (seq 0 (length new)).

(** No occurrence of [p] lies across the end of a text that is followed by
    [k]. *)
Definition no_span (p k : text) : bool :=
  forallb (fun n => negb (starts_with (drop n p) k)) (seq 1 (length p - 1)).

(** Below [dir] the one path that [find -name "*.svg"] matches is the
    regular file [icon], with the text [svg]. *)
Definition only_svg (dir icon svg : text) (fs : gmap text node) : Prop :=
  fs !! icon = Some (File svg)
  /\ forall p, is_Some (fs !! p) -> under dir p = true -> svg_glob p = true ->
               p = icon.

(** A root directory given as an absolute path, without a line feed and
    without [svg/filled] in it. *)
Definition clean_root (r : text) : bool :=
  starts_with "/" r
  && forallb (fun c => negb (Ascii.eqb c LF)) r
  && negb (contains "svg/filled" r).

(** [a] with the separator that [join] puts after it. *)
Definition with_sep (a : text) : text :=
  if bool_decide (a = []) || ends_with "/" a then a else a ++ "/".

(** ** Commands *)

(** Commands on the file system: the state is threaded, and it is kept when
    an exception is raised. *)
Definition cmd (A : Type) : Type := gmap text node -> result A * gmap text node.

Definition ret {A} (a : A) : cmd A := fun fs => (Ok a, fs).

Definition bind {A B} (m : cmd A) (k : A -> cmd B) : cmd B :=
  fun fs =>
    match m fs with
    | (Ok a, fs') => k a fs'
    | (Raise o e, fs') => (Raise o e, fs')
    end.

Definition lift {A} (r : result A) : cmd A := fun fs => (r, fs).

Notation "x <- m ;; k" := (bind m (fun x => k))
  (at level 100, m at next level, right associativity).
Notation "m ;;; k" := (bind m (fun _ => k))
  (at level 100, right associativity).

Fixpoint for_each {A} (l : list A) (body : A -> cmd unit) : cmd unit :=
  match l with
  | [] => ret tt
  | x :: l' => body x ;;; for_each l' body
  end.

(** ** The script *)

Section Script.

(** [get_root_directory()]: the directory above the script's. *)
Variable root : text.

(** [matplotlib.colors.cnames], a dictionary from colour names to
    [#RRGGBB] strings, in insertion order. *)
Variable cnames : list (text * text).

(** The rasterizer: [inkscape -w w -h h svg -o png] on the text of an SVG
    file gives the bytes of the PNG file, or fails. *)
Variable rasterize : Z -> Z -> text -> option text.

Definition cnames_get (color : text) : option text :=
  snd <$> List.find (fun kv => bool_decide (kv.1 = color)) cnames.

Definition invalid_color_message (color : text) : text :=
  "Invalid color: " ++ color ++ ", not found on matplotlib.colors.cnames"
  ++ ", available colors: " ++ str_join ", " (cnames.*1).

Definition parse_color (color : text) : result text :=
  if starts_with "#" color then Ok color
  else
    match cnames_get color with
    | None => Raise In_parse_color (GenerationError (invalid_color_message color))
    | Some hex => Ok hex
    end.

Definition int16 (o : origin) (s : text) : result Z :=
  match py_int16 s with
  | Some n => Ok n
  | None => Raise o (ValueError s)
  end.

Definition get_complementary_color (color : text) : result text :=
  let color := drop 1 color in
  rbind (int16 In_get_complementary_color color) (fun color_int =>
  let comp_color := Z.lxor 16777215 color_int in
  Ok ("#" ++ format_06X comp_color)).

(** [brightness > 155] with [brightness] the quotient by 1000 as a float:
    the division is correctly rounded and 155 is a float, so the test is the
    comparison of the integer numerator with 155000. *)
Definition color_too_bright (color : text) : result bool :=
  rbind (parse_color color) (fun color_hex =>
  let color_hex := drop 1 color_hex in
  rbind (int16 In_color_too_bright (take 2 color_hex)) (fun c_r =>
  rbind (int16 In_color_too_bright (slice 2 4 color_hex)) (fun c_b =>
  rbind (int16 In_color_too_bright (drop 4 color_hex)) (fun c_g =>
  let brightness_1000 := (c_r * 299 + c_g * 587 + c_b * 114)%Z in
  Ok (155000 <? brightness_1000)%Z)))).

Definition xamarin_path : text := join root "xamarin".

Definition get_xamarin_directory (create : bool) : cmd text :=
  fun fs =>
    if create && negb (path_exists xamarin_path fs)
    then (Ok xamarin_path, makedirs xamarin_path fs)
    else (Ok xamarin_path, fs).

(** [if not os.path.exists(d): os.makedirs(d)] *)
Definition ensure_dir (d : text) : cmd unit :=
  fun fs => (Ok tt, if path_exists d fs then fs else makedirs d fs).

Definition copy_svg_to_xamarin : cmd unit :=
  let svg := join root "svg" in
  xamarin <- get_xamarin_directory true ;;
  fun fs =>
    match cp_r svg xamarin fs with
    | Some fs' => (Ok tt, fs')
    | None => (Raise In_copy_svg_to_xamarin (ErrorReturnCode "cp"), fs)
    end.

(** [find dir -name "*.svg" -exec sed -i s/old/rhs/g {} +] *)
Definition find_exec_sed (o : origin) (dir old rhs : text) : cmd unit :=
  fun fs =>
    match sed_rhs old rhs with
    | None => (Raise o SedScriptNotModelled, fs)
    | Some new =>
        match find_svg dir fs with
        | None => (Raise o (ErrorReturnCode "find"), fs)
        | Some ps =>
            match sed_inplace old new ps fs with
            | (true, fs') => (Ok tt, fs')
            | (false, fs') => (Raise o (ErrorReturnCode "find"), fs')
            end
        end
    end.

Definition fill_black : text := "fill=" ++ DQ :: "black" ++ [DQ].
Definition stroke_black : text := "stroke=" ++ DQ :: "black" ++ [DQ].

Definition replace_color_on_svgs (fill_color_hex stroke_color_hex : text)
  : cmd unit :=
  xamarin <- get_xamarin_directory true ;;
  let svg_dir := join xamarin "svg" in
  find_exec_sed In_replace_color_on_svgs svg_dir
    fill_black ("fill=" ++ DQ :: fill_color_hex ++ [DQ]) ;;;
  find_exec_sed In_replace_color_on_svgs svg_dir
    stroke_black ("stroke=" ++ DQ :: stroke_color_hex ++ [DQ]).

(** [find(svg, "-name", "*.svg")] and the list comprehension over its lines. *)
Definition found_files (o : origin) (svg : text) : cmd (list text) :=
  fun fs =>
    match find_svg svg fs with
    | None => (Raise o (ErrorReturnCode "find"), fs)
    | Some ps =>
        let out := concat (List.map (fun p => p ++ [LF]) ps) in
        (Ok (List.map py_strip
               (List.filter (fun found => negb (bool_decide (found = [])))
                  (lines out))), fs)
    end.

Definition inkscape (o : origin) (w h : Z) (svg_file png : text) : cmd unit :=
  fun fs =>
    match fs !! svg_file with
    | Some (File svg) =>
        match rasterize w h svg with
        | Some data => (Ok tt, <[png := File data]> fs)
        | None => (Raise o (ErrorReturnCode "inkscape"), fs)
        end
    | _ => (Raise o (ErrorReturnCode "inkscape"), fs)
    end.

(** [filename] without every [.svg], then with every hyphen turned into an
    underscore (the two [replace] calls). *)
Definition no_ext_filename (filename : text) : text :=
  py_replace "-" "_" (py_replace ".svg" [] filename).

Definition ios_name (svg_file : text) : text :=
  let filename := basename svg_file in
  let no_ext_filename := no_ext_filename filename in
  if contains "svg/filled" svg_file
  then "filled_" ++ no_ext_filename
  else no_ext_filename.

Definition ios_body (ios svg_file : text) : cmd unit :=
  let no_ext_filename := ios_name svg_file in
  let png := join ios (no_ext_filename ++ ".png") in
  let png_2x := join ios (no_ext_filename ++ "@2x.png") in
  let png_3x := join ios (no_ext_filename ++ "@3x.png") in
  inkscape In_create_ios_images 24 24 svg_file png ;;;
  inkscape In_create_ios_images 48 48 svg_file png_2x ;;;
  inkscape In_create_ios_images 72 72 svg_file png_3x.

Definition create_ios_images : cmd unit :=
  xamarin <- get_xamarin_directory true ;;
  let svg := join xamarin "svg" in
  let ios := join xamarin "ios" in
  ensure_dir ios ;;;
  found_files <- found_files In_create_ios_images svg ;;
  for_each found_files (ios_body ios).

Definition android_name (svg_file : text) : text :=
  let filename := basename svg_file in
  no_ext_filename filename.

Definition android_body (drawable hdpi xhdpi xxhdpi xxxhdpi svg_file : text)
  : cmd unit :=
  let no_ext_filename := android_name svg_file in
  let drawable_png := join drawable (no_ext_filename ++ ".png") in
  let hdpi_png := join hdpi (no_ext_filename ++ ".png") in
  let xhdpi_png := join xhdpi (no_ext_filename ++ ".png") in
  let xxhdpi_png := join xxhdpi (no_ext_filename ++ ".png") in
  let xxxhdpi_png := join xxxhdpi (no_ext_filename ++ ".png") in
  inkscape In_create_android_images 60 60 svg_file drawable_png ;;;
  inkscape In_create_android_images 48 48 svg_file hdpi_png ;;;
  inkscape In_create_android_images 64 64 svg_file xhdpi_png ;;;
  inkscape In_create_android_images 96 96 svg_file xxhdpi_png ;;;
  inkscape In_create_android_images 128 128 svg_file xxxhdpi_png.

Definition create_android_images : cmd unit :=
  xamarin <- get_xamarin_directory true ;;
  let svg := join xamarin "svg" in
  let android := join xamarin "android" in
  ensure_dir android ;;;
  let drawable := join android "drawable" in
  let hdpi := join android "drawable-hdpi" in
  let xhdpi := join android "drawable-xhdpi" in
  let xxhdpi := join android "drawable-xxhdpi" in
  let xxxhdpi := join android "drawable-xxxhdpi" in
  for_each [drawable; hdpi; xhdpi; xxhdpi; xxxhdpi] ensure_dir ;;;
  found_files <- found_files In_create_android_images svg ;;
  for_each found_files (android_body drawable hdpi xhdpi xxhdpi xxxhdpi).

Definition cleanup : cmd unit :=
  xamarin <- get_xamarin_directory false ;;
  fun fs => (Ok tt, if path_exists xamarin fs then rm_rf xamarin fs else fs).

Definition generate_images (fill_color stroke_color : text) : cmd unit :=
  fill_color_hex <- lift (parse_color fill_color) ;;
  stroke_color_hex <- lift (parse_color stroke_color) ;;
  too_bright <- lift (color_too_bright fill_color) ;;
  comp_color <- lift (get_complementary_color fill_color_hex) ;;
  cleanup ;;;
  copy_svg_to_xamarin ;;;
  replace_color_on_svgs fill_color_hex stroke_color_hex ;;;
  create_ios_images ;;;
  create_android_images.

(** [main], with its defaults for the two options. *)
Definition main (fill_color stroke_color : option text) : cmd unit :=
  generate_images (default ("black" : text) fill_color)
                  (default ("black" : text) stroke_color).

(** The text of a file after the two [sed] passes. *)
Definition recolored (fill_color_hex stroke_color_hex svg : text) : text :=
  gsub stroke_black ("stroke=" ++ DQ :: stroke_color_hex ++ [DQ])
    (gsub fill_black ("fill=" ++ DQ :: fill_color_hex ++ [DQ]) svg).

(** A command leaves every path outside the workspace as it was. *)
Definition keeps_outside {A} (m : cmd A) : Prop :=
  forall fs p, under xamarin_path p = false -> (m fs).2 !! p = fs !! p.

(** The workspace holds nothing but its own directory and the [svg/] tree. *)
Definition bare_workspace (fs : gmap text node) : Prop :=
  fs !! xamarin_path = Some Dir
  /\ forall p, under xamarin_path p = true ->
               under (xamarin_path ++ "/svg") p = false ->
               p <> xamarin_path -> fs !! p = None.

(** The colours pass the first four statements of [generate_images]. *)
Definition colours_accepted (fill_color stroke_color : text) : Prop :=
  exists fill_color_hex stroke_color_hex too_bright comp_color,
    parse_color fill_color = Ok fill_color_hex
    /\ parse_color stroke_color = Ok stroke_color_hex
    /\ color_too_bright fill_color = Ok too_bright
    /\ get_complementary_color fill_color_hex = Ok comp_color.

(** A colour name that is neither a hexadecimal code nor in the table. *)
Definition unknown_name (color : text) : Prop :=
  starts_with "#" color = false /\ cnames_get color = None.

End Script.

(** ** Vocabulary of the further statements *)

(** A command removes no path: what was there is still there afterwards,
    whether the command returns or raises. *)
Definition never_deletes {A} (m : cmd A) : Prop :=
  ∀ fs p, is_Some (fs !! p) → is_Some ((m fs).2 !! p).

(** A command writes nowhere but at [d] and below, whether it returns or
    raises. *)
Definition writes_only {A} (d : text) (m : cmd A) : Prop :=
  ∀ fs p, under d p = false → (m fs).2 !! p = fs !! p.

(** [c] with a hyphen turned into an underscore. *)
Definition hyphen_to_underscore (c : ascii) : ascii :=
  if Ascii.eqb c "-" then "_"%char else c.

(** The files that [create_ios_images] writes for one icon: the width (which
    is also the height) and the path of each. *)
Definition ios_outputs (ios svg_file : text) : list (Z * text) :=
  let no_ext_filename := ios_name svg_file in
  [(24%Z, join ios (no_ext_filename ++ ".png"));
   (48%Z, join ios (no_ext_filename ++ "@2x.png"));
   (72%Z, join ios (no_ext_filename ++ "@3x.png"))].

(** The files that [create_android_images] writes for one icon. *)
Definition android_outputs (android svg_file : text) : list (Z * text) :=
  let no_ext_filename := android_name svg_file in
  [(60%Z, join (join android "drawable") (no_ext_filename ++ ".png"));
   (48%Z, join (join android "drawable-hdpi") (no_ext_filename ++ ".png"));
   (64%Z, join (join android "drawable-xhdpi") (no_ext_filename ++ ".png"));
   (96%Z, join (join android "drawable-xxhdpi") (no_ext_filename ++ ".png"));
   (128%Z, join (join android "drawable-xxxhdpi") (no_ext_filename ++ ".png"))].

(** The loop of an exporter: for every icon found, one [inkscape] call per
    output. *)
Definition rasterize_all (rasterize : Z → Z → text → option text)
    (o : origin) (outputs : text → list (Z * text)) (found : list text)
  : cmd unit :=
  for_each found (λ svg_file,
    for_each (outputs svg_file) (λ wp,
      inkscape rasterize o wp.1 wp.1 svg_file wp.2)).

(** [p] is an icon of the tree at [dir]: a path at or below [dir] that
    [find -name "*.svg"] reports. *)
Definition icon_at (dir : text) (fs : gmap text node) (p : text) : Prop :=
  is_Some (fs !! p) ∧ under dir p = true ∧ svg_glob p = true.

(** The six directories of the Android export. *)
Definition android_dirs (root : text) : list text :=
  [xamarin_path root ++ "/android";
   xamarin_path root ++ "/android/drawable";
   xamarin_path root ++ "/android/drawable-hdpi";
   xamarin_path root ++ "/android/drawable-xhdpi";
   xamarin_path root ++ "/android/drawable-xxhdpi";
   xamarin_path root ++ "/android/drawable-xxxhdpi"].

(** ** Sample data *)

Module Sample.

Definition root : text := "/home/dev/Bitcoin-Icons".

(** A few entries of the colour table. *)
Definition cnames : list (text * text) :=
  [("black" : text, "#000000" : text);
   ("red" : text, "#FF0000" : text);
   ("white" : text, "#FFFFFF" : text);
   ("yellow" : text, "#FFFF00" : text)].

(** A rasterizer that accepts every file and records the size it was asked
    for. *)
Definition rasterize (w h : Z) (svg : text) : option text :=
  Some ("PNG " ++ format_06X w ++ "x" ++ format_06X h ++ " " ++ svg).

Definition icon : text := "<path fill=" ++ DQ :: "black" ++ DQ :: "/>".

(** One icon in the source tree, and the output of an earlier run. *)
Definition one_icon : gmap text node :=
  list_to_map
    [("/home/dev/Bitcoin-Icons/svg" : text, Dir);
     ("/home/dev/Bitcoin-Icons/svg/icon-one.svg" : text, File icon);
     ("/home/dev/Bitcoin-Icons/xamarin" : text, Dir);
     ("/home/dev/Bitcoin-Icons/xamarin/ios/stale.png" : text, File "old")].

(** The same icon name in [filled/] and in [outline/]. *)
Definition two_stars : gmap text node :=
  list_to_map
    [("/home/dev/Bitcoin-Icons/svg/filled/star.svg" : text, File icon);
     ("/home/dev/Bitcoin-Icons/svg/outline/star.svg" : text, File icon)].

(** A workspace after the copy: one icon and a file that is not an icon. *)
Definition workspace : gmap text node :=
  list_to_map
    [("/home/dev/Bitcoin-Icons/xamarin" : text, Dir);
     ("/home/dev/Bitcoin-Icons/xamarin/svg/icon-one.svg" : text, File icon);
     ("/home/dev/Bitcoin-Icons/xamarin/svg/notes.txt" : text, File icon)].

(** What an earlier run left, in a tree without [svg/]. *)
Definition stale_only : gmap text node :=
  list_to_map
    [("/home/dev/Bitcoin-Icons/xamarin/ios/stale.png" : text, File "old")].

(** A rasterizer without the largest iOS size. *)
Definition no_72 (w h : Z) (svg : text) : option text :=
  if (w =? 72)%Z then None else rasterize w h svg.

End Sample.

(** * Properties *)

(** ** Strings *)

Lemma ascii_eqb_true a b : Ascii.eqb a b = true ↔ a = b.
Proof. apply Ascii.eqb_eq. Qed.

Lemma starts_with_spec p s : starts_with p s = true ↔ ∃ k, s = p ++ k.
Proof.
  revert s. induction p as [|a p IH]; intros s; simpl.
  - split; [eauto|done].
  - destruct s as [|b s].
    + split; [done|]. intros [k Hk]. discriminate.
    + rewrite andb_true_iff, ascii_eqb_true, IH. split.
      * intros [-> [k ->]]. eauto.
      * intros [k Hk]. injection Hk as -> ->. eauto.
Qed.

Lemma starts_with_app p k : starts_with p (p ++ k) = true.
Proof. apply starts_with_spec. eauto. Qed.

Lemma starts_with_app_same a b c :
  starts_with (a ++ b) (a ++ c) = starts_with b c.
Proof.
  induction a as [|x a IH]; simpl; [done|].
  by rewrite Ascii.eqb_refl.
Qed.

Lemma starts_with_false p s :
  starts_with p s = false ↔ ¬ ∃ k, s = p ++ k.
Proof. rewrite <- starts_with_spec. by destruct (starts_with p s). Qed.

Lemma contains_spec p s : contains p s = true ↔ ∃ a b, s = a ++ p ++ b.
Proof.
  induction s as [|c s IH]; simpl.
  - rewrite starts_with_spec. split.
    + intros [k Hk]. symmetry in Hk. apply app_eq_nil in Hk as [-> ->].
      by exists [], [].
    + intros (a & b & H). symmetry in H.
      apply app_eq_nil in H as [-> H]. apply app_eq_nil in H as [-> ->].
      by exists [].
  - rewrite orb_true_iff, starts_with_spec, IH. split.
    + intros [[k ->]|(a & b & ->)]; [by exists [], k|by exists (c :: a), b].
    + intros ([|x a] & b & H); simpl in H.
      * left. eauto.
      * right. injection H as -> ->. eauto.
Qed.

Lemma contains_char c s : contains [c] s = true ↔ c ∈ s.
Proof.
  rewrite contains_spec. split.
  - intros (a & b & ->). set_solver.
  - intros (a & b & ->)%list_elem_of_split. by exists a, b.
Qed.

Lemma contains_char_false c s : contains [c] s = false ↔ c ∉ s.
Proof. rewrite <- contains_char. by destruct (contains [c] s). Qed.

(** *** The substitution scan *)

Lemma gsub_go_skip old new l s :
  gsub_go old new (length l) (l ++ s) = gsub_go old new 0 s.
Proof. induction l as [|x l IH]; simpl; done. Qed.

Lemma gsub_match old new b :
  old ≠ [] → gsub old new (old ++ b) = new ++ gsub old new b.
Proof.
  intros Hne. destruct old as [|c old]; [done|].
  unfold gsub. change ((c :: old) ++ b) with (c :: (old ++ b)).
  cbn [gsub_go]. change (c :: old ++ b) with ((c :: old) ++ b).
  rewrite starts_with_app. cbn [length]. rewrite Nat.sub_1_r. cbn [Nat.pred].
  by rewrite gsub_go_skip.
Qed.

Lemma gsub_nomatch old new c s :
  starts_with old (c :: s) = false →
  gsub old new (c :: s) = c :: gsub old new s.
Proof. intros H. unfold gsub. cbn [gsub_go]. by rewrite H. Qed.

Lemma contains_cons_false p c s :
  contains p (c :: s) = false →
  starts_with p (c :: s) = false ∧ contains p s = false.
Proof. simpl. by intros ?%orb_false_iff. Qed.

Lemma gsub_no_occurrence old new s :
  contains old s = false → gsub old new s = s.
Proof.
  induction s as [|c s IH]; [done|].
  intros [H1 H2]%contains_cons_false.
  rewrite gsub_nomatch; [|done]. by rewrite IH.
Qed.

Lemma unbordered_spec p k :
  unbordered p = true → 1 ≤ k < length p →
  take k p ≠ drop (length p - k) p.
Proof.
  unfold unbordered. rewrite forallb_forall. intros H Hk.
  specialize (H k). rewrite negb_true_iff, bool_decide_eq_false in H.
  apply H. apply in_seq. lia.
Qed.

Lemma starts_with_app_unbordered old a b :
  unbordered old = true → a ≠ [] →
  starts_with old (a ++ old ++ b) = starts_with old a.
Proof.
  intros Hu Ha.
  destruct (starts_with old a) eqn:E.
  - apply starts_with_spec in E as [k ->]. rewrite <- app_assoc.
    apply starts_with_app.
  - apply starts_with_false. intros [k Hk].
    apply app_eq_inv in Hk as [(r & -> & Hr)|(r & -> & Hr)].
    + by rewrite starts_with_app in E.
    + (* old = a ++ r, and r is a border *)
      destruct r as [|x r].
      { rewrite app_nil_r in E. rewrite <- (app_nil_r a) in E at 2.
        by rewrite starts_with_app in E. }
      apply (unbordered_spec _ (length (x :: r))) in Hu.
      * apply Hu.
        rewrite length_app.
        replace (length a + length (x :: r) - length (x :: r)) with (length a) by lia.
        rewrite drop_app_length.
        rewrite <- app_assoc in Hr.
        assert (take (length (x :: r)) ((x :: r) ++ k) = x :: r) as Hk
          by (by rewrite take_app_length).
        rewrite <- Hr in Hk. etrans; [|exact Hk].
        rewrite (app_assoc a). symmetry. apply take_app_le.
        rewrite length_app. simpl. lia.
      * rewrite length_app. destruct a; [done|]. simpl. lia.
Qed.

Lemma gsub_occurrence old new a b :
  old ≠ [] → unbordered old = true →
  gsub old new (a ++ old ++ b) = gsub old new a ++ new ++ gsub old new b.
Proof.
  intros Hne Hu.
  remember (length a) as n eqn:Hn. revert a Hn.
  induction n as [n IH] using lt_wf_ind. intros a ->.
  destruct a as [|c a]; [by apply (gsub_match old new b)|].
  destruct (starts_with old (c :: a)) eqn:E.
  - apply starts_with_spec in E as [k E]. rewrite E.
    rewrite <- app_assoc, !gsub_match by done.
    rewrite (IH (length k)); [by rewrite app_assoc|..|done].
    rewrite E, length_app. destruct old; [done|]. simpl. lia.
  - rewrite (gsub_nomatch _ _ _ _ E).
    change ((c :: a) ++ old ++ b) with (c :: (a ++ old ++ b)).
    rewrite gsub_nomatch.
    + rewrite (IH (length a)); [done|simpl; lia|done].
    + change (c :: (a ++ old ++ b)) with ((c :: a) ++ old ++ b).
      by rewrite starts_with_app_unbordered.
Qed.

Lemma elem_of_gsub_go c old new skip s :
  c ∈ gsub_go old new skip s → c ∈ s ∨ c ∈ new.
Proof.
  revert skip. induction s as [|x s IH]; intros skip; simpl; [set_solver|].
  destruct skip as [|k].
  - destruct (starts_with old (x :: s)).
    + rewrite elem_of_app. intros [?|H]; [by right|].
      destruct (IH _ H); set_solver.
    + rewrite elem_of_cons. intros [->|H]; [set_solver|].
      destruct (IH _ H); set_solver.
  - intros H. destruct (IH _ H); set_solver.
Qed.

(** Replacing single characters is a map. *)
Lemma gsub_char a b s :
  gsub [a] [b] s = (λ c, if Ascii.eqb c a then b else c) <$> s.
Proof.
  induction s as [|c s IH]; [done|].
  unfold gsub in *. cbn [gsub_go starts_with length]. simpl.
  rewrite (Ascii.eqb_sym c a).
  destruct (Ascii.eqb a c); simpl; by rewrite IH.
Qed.

(** *** Matches that a replacement cannot create *)

Lemma clash_app p r x : clash p r = true → starts_with p (r ++ x) = false.
Proof.
  unfold clash. rewrite andb_true_iff, !negb_true_iff.
  intros [H1 H2]. apply starts_with_false. intros [k Hk].
  apply app_eq_inv in Hk as [(j & -> & _)|(j & -> & _)].
  - by rewrite starts_with_app in H1.
  - by rewrite starts_with_app in H2.
Qed.

Lemma inert_suffix p new k :
  inert p new = true → k < length p → clash (drop k p) new = true.
Proof.
  unfold inert. rewrite andb_true_iff, !forallb_forall. intros [H _] Hk.
  apply H, in_seq. lia.
Qed.

Lemma inert_inside p new j :
  inert p new = true → j < length new → clash p (drop j new) = true.
Proof.
  unfold inert. rewrite andb_true_iff, !forallb_forall. intros [_ H] Hj.
  apply H, in_seq. lia.
Qed.

(** A suffix of [p] that starts the output started the input. *)
Lemma gsub_starts_with_inv old new q s :
  (∀ k, k < length q → clash (drop k q) new = true) →
  starts_with q (gsub old new s) = true → starts_with q s = true.
Proof.
  revert q. induction s as [|c s IH]; intros q Hq; [done|].
  destruct q as [|a q]; [done|].
  unfold gsub. cbn [gsub_go].
  destruct (starts_with old (c :: s)).
  - rewrite clash_app; [done|]. apply (Hq 0). simpl. lia.
  - cbn [starts_with]. rewrite !andb_true_iff. intros [? H]. split; [done|].
    apply IH; [|done]. intros k Hk. apply (Hq (S k)). simpl. lia.
Qed.

Lemma contains_app_inert p new x :
  (∀ j, j < length new → clash p (drop j new) = true) →
  contains p (new ++ x) = contains p x.
Proof.
  induction new as [|c new IH]; intros H; [done|].
  cbn [app contains]. rewrite IH.
  - change (c :: new ++ x) with ((c :: new) ++ x).
    rewrite clash_app; [done|]. apply (H 0). simpl. lia.
  - intros j Hj. apply (H (S j)). simpl. lia.
Qed.

(** After the scan no occurrence of the pattern is left. *)
Lemma gsub_go_no_occurrence old new skip s :
  inert old new = true → old ≠ [] →
  contains old (gsub_go old new skip s) = false.
Proof.
  intros Hi Hne. revert skip.
  induction s as [|c s IH]; intros skip.
  - simpl. by destruct old.
  - cbn [gsub_go]. destruct skip as [|k]; [|apply IH].
    destruct (starts_with old (c :: s)) eqn:E.
    + rewrite contains_app_inert; [apply IH|].
      intros j Hj. by apply inert_inside.
    + cbn [contains]. rewrite IH, orb_false_r.
      destruct (starts_with old (c :: gsub_go old new 0 s)) eqn:E'; [|done].
      rewrite <- E. symmetry.
      apply (gsub_starts_with_inv old new); [intros k Hk; by apply inert_suffix|].
      by rewrite gsub_nomatch.
Qed.

(** The scan for one pattern creates no occurrence of another. *)
Lemma gsub_go_preserves_no_occurrence p old new skip s :
  inert p new = true → p ≠ [] →
  contains p s = false → contains p (gsub_go old new skip s) = false.
Proof.
  intros Hi Hne. revert skip.
  induction s as [|c s IH]; intros skip Hs; [done|].
  apply contains_cons_false in Hs as [Hs1 Hs2].
  cbn [gsub_go]. destruct skip as [|k]; [|by apply IH].
  destruct (starts_with old (c :: s)) eqn:E.
  - rewrite contains_app_inert; [by apply IH|].
    intros j Hj. by apply inert_inside.
  - cbn [contains]. rewrite IH, orb_false_r by done.
    destruct (starts_with p (c :: gsub_go old new 0 s)) eqn:E'; [|done].
    rewrite <- Hs1. symmetry.
    apply (gsub_starts_with_inv old new); [intros k Hk; by apply inert_suffix|].
    by rewrite gsub_nomatch.
Qed.

(** *** Occurrences across a concatenation *)

Lemma starts_with_app_inv p s k :
  starts_with p (s ++ k) = true →
  starts_with p s = true ∨
  (length s < length p ∧ starts_with (drop (length s) p) k = true).
Proof.
  revert p. induction s as [|c s IH]; intros p H.
  - destruct p; [by left|]. right. simpl. split; [lia|done].
  - destruct p as [|a p]; [by left|]. cbn in H.
    apply andb_true_iff in H as [Hac H].
    destruct (IH _ H) as [?|[? ?]].
    + left. cbn. by rewrite Hac.
    + right. simpl. split; [lia|done].
Qed.

Lemma contains_app_no_span p r k :
  p ≠ [] → no_span p k = true → contains p k = false →
  contains p (r ++ k) = contains p r.
Proof.
  intros Hne Hspan Hk. induction r as [|c r IH]; [simpl; rewrite Hk; by destruct p|].
  cbn [app contains]. rewrite IH.
  destruct (contains p r); [by rewrite !orb_true_r|]. rewrite !orb_false_r.
  destruct (starts_with p (c :: r)) eqn:E.
  - apply starts_with_spec in E as [j E]. rewrite app_comm_cons, E, <- app_assoc.
    apply starts_with_app.
  - apply starts_with_false. intros [j Hj].
    assert (starts_with p ((c :: r) ++ k) = true) as H
      by (apply starts_with_spec; eauto).
    apply starts_with_app_inv in H as [H|[Hlen H]]; [congruence|].
    unfold no_span in Hspan. rewrite forallb_forall in Hspan.
    specialize (Hspan (length (c :: r))). rewrite H in Hspan.
    discriminate Hspan. apply in_seq. simpl in *. lia.
Qed.

(** *** Paths *)

Lemma basename_no_slash p : "/"%char ∉ basename p.
Proof.
  induction p as [|c p IH]; [set_solver|]. cbn [basename].
  destruct (contains "/" p) eqn:E; [done|].
  apply (contains_char_false "/") in E.
  destruct (Ascii.eqb c "/") eqn:Ec; [done|].
  apply Ascii.eqb_neq in Ec. intros [?|?]%elem_of_cons; done.
Qed.

Lemma basename_app d f :
  "/"%char ∉ f → basename (d ++ "/" ++ f) = f.
Proof.
  intros Hf. induction d as [|c d IH].
  - apply (contains_char_false "/") in Hf.
    cbn [app basename list_ascii_of_string]. by rewrite Hf, Ascii.eqb_refl.
  - cbn [app basename list_ascii_of_string] in *. rewrite IH.
    replace (contains ["/"%char] (d ++ "/"%char :: f)) with true; [done|].
    symmetry. apply contains_spec. by exists d, f.
Qed.

Lemma join_with_sep a b :
  starts_with "/" b = false → join a b = with_sep a ++ b.
Proof.
  intros Hb. unfold join, with_sep. rewrite Hb.
  destruct (bool_decide (a = []) || ends_with "/" a); [done|].
  by rewrite <- app_assoc.
Qed.

(** *** Lines and blanks *)

Lemma lines_go_line cur s :
  LF ∉ s → lines_go cur (s ++ [LF]) = [rev cur ++ s ++ [LF]].
Proof.
  revert cur. induction s as [|c s IH]; intros cur Hs.
  - simpl. done.
  - cbn [app lines_go].
    destruct (Ascii.eqb c LF) eqn:E.
    { apply Ascii.eqb_eq in E. set_solver. }
    rewrite IH by set_solver. simpl. by rewrite <- app_assoc.
Qed.

Lemma lstrip_id c s : py_isspace c = false → lstrip (c :: s) = c :: s.
Proof. intros H. simpl. by rewrite H. Qed.

Lemma py_strip_line c s d :
  py_isspace c = false → py_isspace d = false →
  py_strip (c :: s ++ [d; LF]) = c :: s ++ [d].
Proof.
  intros Hc Hd. unfold py_strip, rstrip. rewrite lstrip_id by done.
  change (c :: s ++ [d; LF]) with ((c :: s) ++ [d; LF]).
  rewrite rev_app_distr. simpl rev at 1. cbn [app lstrip].
  change (py_isspace LF) with true. cbn iota. rewrite Hd.
  change (d :: rev (c :: s)) with (rev ((c :: s) ++ [d])) at 1 || idtac.
  rewrite <- (rev_involutive (c :: s ++ [d])). f_equal.
  change (c :: s ++ [d]) with ((c :: s) ++ [d]). by rewrite rev_app_distr.
Qed.

(** ** Hexadecimal numerals *)

Lemma digit_value_facts c d :
  digit_value c = Some d →
  (0 ≤ d < 16)%Z ∧ c_isspace c = false ∧ Ascii.eqb c "+" = false
  ∧ Ascii.eqb c "-" = false ∧ Ascii.eqb c "_" = false
  ∧ Ascii.eqb c "x" = false ∧ Ascii.eqb c "X" = false
  ∧ hex_digit_upper d = ascii_upper c.
Proof.
  destruct c as [[] [] [] [] [] [] [] []]; intros H; vm_compute in H;
    try discriminate H; injection H as <-; vm_compute;
    repeat split; try reflexivity; intros; discriminate.
Qed.

Lemma digit_value_upper d :
  (0 ≤ d < 16)%Z → digit_value (hex_digit_upper d) = Some d.
Proof.
  intros H.
  assert (d ∈ [0;1;2;3;4;5;6;7;8;9;10;11;12;13;14;15]%Z) as Hd.
  { rewrite !elem_of_cons. lia. }
  repeat (apply elem_of_cons in Hd as [->|Hd]; [reflexivity|]).
  by apply elem_of_nil in Hd.
Qed.

Lemma is_hex_digit_value c :
  is_hex_digit c = true → ∃ d, digit_value c = Some d.
Proof. unfold is_hex_digit. destruct (digit_value c); [eauto|done]. Qed.

Lemma scan_digits_hex ds acc count :
  forallb is_hex_digit ds = true →
  scan_digits false acc count ds
  = Some (fold_left hex_step ds acc, count + length ds, []).
Proof.
  revert acc count. induction ds as [|c ds IH]; intros acc count H.
  - simpl. by rewrite Nat.add_0_r.
  - cbn [forallb] in H. apply andb_true_iff in H as [Hc H].
    apply is_hex_digit_value in Hc as [d Hd].
    destruct (digit_value_facts _ _ Hd) as (_ & _ & _ & _ & Hus & _).
    assert (hex_step acc c = (16 * acc + d)%Z) as Hs
      by (unfold hex_step; by rewrite Hd).
    cbn [scan_digits fold_left length]. rewrite Hus, Hd, IH, Hs by done.
    by rewrite Nat.add_succ_r.
Qed.

Lemma py_int16_hex ds :
  ds ≠ [] → forallb is_hex_digit ds = true → py_int16 ds = Some (hexval ds).
Proof.
  intros Hne H. destruct ds as [|c0 ds]; [done|].
  pose proof H as H'. cbn [forallb] in H'.
  apply andb_true_iff in H' as [Hc0 Hds].
  apply is_hex_digit_value in Hc0 as [d0 Hd0].
  destruct (digit_value_facts _ _ Hd0) as (_ & Hsp & Hplus & Hminus & Hus & _).
  unfold py_int16. cbn [lskip_c]. rewrite Hsp.
  cbn [skip_sign]. rewrite Hplus, Hminus.
  assert (skip_0x (c0 :: ds) = c0 :: ds) as ->.
  { destruct ds as [|c1 ds]; [done|]. cbn [skip_0x].
    cbn [forallb] in Hds. apply andb_true_iff in Hds as [Hc1 _].
    apply is_hex_digit_value in Hc1 as [d1 Hd1].
    destruct (digit_value_facts _ _ Hd1) as (_ & _ & _ & _ & _ & -> & -> & _).
    by rewrite andb_false_r. }
  cbn [starts_with list_ascii_of_string]. rewrite Ascii.eqb_sym, Hus. cbn [andb].
  rewrite scan_digits_hex by done. cbn [length Nat.add lskip_c]. done.
Qed.

Lemma hexval_snoc ds c :
  hexval (ds ++ [c]) = (16 * hexval ds + default 0 (digit_value c))%Z.
Proof. unfold hexval. by rewrite fold_left_app. Qed.

Lemma hexval_bound ds :
  forallb is_hex_digit ds = true → (0 ≤ hexval ds < 16 ^ Z.of_nat (length ds))%Z.
Proof.
  induction ds as [|c ds IH] using rev_ind; intros H; [done|].
  rewrite forallb_app in H. apply andb_true_iff in H as [Hds Hc].
  cbn in Hc. rewrite andb_true_r in Hc.
  apply is_hex_digit_value in Hc as [d Hd].
  destruct (digit_value_facts _ _ Hd) as (Hr & _).
  rewrite hexval_snoc, Hd, length_app. change (default 0%Z (Some d)) with d.
  replace (length ds + length [c]) with (S (length ds)) by (simpl; lia).
  rewrite Nat2Z.inj_succ, Z.pow_succ_r by lia. specialize (IH Hds). lia.
Qed.

Lemma hex_fixed_hexval ds :
  forallb is_hex_digit ds = true →
  hex_fixed (length ds) (hexval ds) = ascii_upper <$> ds.
Proof.
  induction ds as [|c ds IH] using rev_ind; intros H; [done|].
  rewrite forallb_app in H. apply andb_true_iff in H as [Hds Hc].
  cbn in Hc. rewrite andb_true_r in Hc.
  apply is_hex_digit_value in Hc as [d Hd].
  destruct (digit_value_facts _ _ Hd) as (Hr & _ & _ & _ & _ & _ & _ & Hup).
  rewrite hexval_snoc, Hd, length_app, Nat.add_1_r.
  change (default 0%Z (Some d)) with d. cbn [hex_fixed].
  replace ((16 * hexval ds + d) / 16)%Z with (hexval ds)
    by (apply Z.div_unique with d; lia).
  replace ((16 * hexval ds + d) mod 16)%Z with d
    by (apply Z.mod_unique with (hexval ds); lia).
  by rewrite IH, fmap_app, Hup.
Qed.

Lemma hex_fixed_length k n : length (hex_fixed k n) = k.
Proof.
  revert n. induction k as [|k IH]; intros n; [done|].
  cbn [hex_fixed]. rewrite length_app, IH. simpl. lia.
Qed.

Lemma hex_fixed_zero k : hex_fixed k 0 = replicate k "0"%char.
Proof.
  induction k as [|k IH]; [done|].
  cbn [hex_fixed]. change (0 / 16)%Z with 0%Z. rewrite IH.
  change [hex_digit_upper (0 mod 16)] with (replicate 1 "0"%char).
  rewrite <- replicate_add. by rewrite Nat.add_1_r.
Qed.

Lemma hex_fixed_is_hex k n :
  (0 ≤ n)%Z → forallb is_hex_digit (hex_fixed k n) = true.
Proof.
  revert n. induction k as [|k IH]; intros n Hn; [done|].
  cbn [hex_fixed]. rewrite forallb_app, IH by (apply Z.div_pos; lia).
  cbn. unfold is_hex_digit. rewrite digit_value_upper; [done|].
  apply Z.mod_pos_bound. lia.
Qed.

Lemma hexval_hex_fixed k n :
  (0 ≤ n < 16 ^ Z.of_nat k)%Z → hexval (hex_fixed k n) = n.
Proof.
  revert n. induction k as [|k IH]; intros n Hn.
  - simpl in Hn. cbn. lia.
  - cbn [hex_fixed]. rewrite hexval_snoc, digit_value_upper
      by (apply Z.mod_pos_bound; lia).
    rewrite IH.
    + change (default 0%Z (Some (n mod 16)%Z)) with (n mod 16)%Z.
      rewrite (Z.div_mod n 16) at 3 by lia. lia.
    + replace (Z.of_nat (S k)) with (Z.succ (Z.of_nat k)) in Hn by lia.
      rewrite Z.pow_succ_r in Hn by lia.
      split; [apply Z.div_pos; lia|]. apply Z.div_lt_upper_bound; lia.
Qed.

(** With enough fuel the digit loop gives the fixed-width digits without
    their leading zeros. *)
Lemma hex_upper_go_fixed k fuel n acc :
  (0 ≤ n < 16 ^ Z.of_nat (S k))%Z → (n < 16 ^ Z.of_nat (S fuel))%Z →
  ∃ j, j ≤ k
       ∧ hex_upper_go (S fuel) n acc = drop j (hex_fixed (S k) n) ++ acc
       ∧ take j (hex_fixed (S k) n) = replicate j "0"%char.
Proof.
  revert fuel n acc. induction k as [|k IH]; intros fuel n acc Hn Hfuel.
  - exists 0. split; [done|]. cbn [hex_upper_go hex_fixed].
    change (16 ^ Z.of_nat 1)%Z with 16%Z in Hn.
    rewrite (Z.div_small n 16) by lia. done.
  - rewrite Nat2Z.inj_succ, Z.pow_succ_r in Hn by lia.
    rewrite Nat2Z.inj_succ, Z.pow_succ_r in Hfuel by lia.
    cbn [hex_upper_go]. destruct (n / 16 =? 0)%Z eqn:E.
    + apply Z.eqb_eq in E. exists (S k). split; [done|].
      change (hex_fixed (S (S k)) n)
        with (hex_fixed (S k) (n / 16) ++ [hex_digit_upper (n mod 16)]).
      rewrite E, hex_fixed_zero.
      rewrite drop_app_length', take_app_length' by (by rewrite length_replicate).
      done.
    + apply Z.eqb_neq in E.
      assert (0 < n / 16)%Z as Hpos.
      { pose proof (Z.div_pos n 16). lia. }
      assert (n / 16 < 16 ^ Z.of_nat fuel)%Z as Hf'
        by (apply Z.div_lt_upper_bound; lia).
      destruct fuel as [|fuel]; [simpl in Hf'; lia|].
      destruct (IH fuel (n / 16)%Z (hex_digit_upper (n mod 16) :: acc))
        as (j & Hj & Hgo & Hz).
      * split; [lia|]. apply Z.div_lt_upper_bound; lia.
      * done.
      * exists j. split; [lia|]. rewrite Hgo.
        change (hex_fixed (S (S k)) n)
          with (hex_fixed (S k) (n / 16) ++ [hex_digit_upper (n mod 16)]).
        rewrite drop_app_le, take_app_le by (rewrite hex_fixed_length; lia).
        by rewrite <- app_assoc.
Qed.

Lemma hex_upper_fuel n :
  (0 ≤ n)%Z → (n < 16 ^ Z.of_nat (S (Z.to_nat (Z.log2 n))))%Z.
Proof.
  intros Hn. destruct (decide (n = 0%Z)) as [->|Hne]; [done|].
  pose proof (Z.log2_nonneg n).
  destruct (Z.log2_spec n) as [_ Hlt]; [lia|].
  eapply Z.lt_le_trans; [exact Hlt|].
  replace (Z.of_nat (S (Z.to_nat (Z.log2 n)))) with (Z.succ (Z.log2 n)) by lia.
  apply Z.pow_le_mono_l. lia.
Qed.

Lemma format_06X_fixed n :
  (0 ≤ n < 16 ^ 6)%Z → format_06X n = hex_fixed 6 n.
Proof.
  intros Hn. unfold format_06X, hex_upper.
  rewrite Z.abs_eq by lia.
  destruct (hex_upper_go_fixed 5 (Z.to_nat (Z.log2 n)) n [])
    as (j & Hj & -> & Hz); [done|apply hex_upper_fuel; lia|].
  replace (n <? 0)%Z with false by (symmetry; apply Z.ltb_ge; lia).
  rewrite app_nil_r, length_drop, hex_fixed_length. cbn [app length].
  replace (6 - 0 - (6 - j)) with j by lia.
  by rewrite <- Hz, take_drop.
Qed.

(** ** The complementary colour *)

Lemma lxor_ffffff_range v :
  (0 ≤ v < 16 ^ 6)%Z → (0 ≤ Z.lxor 16777215 v < 16 ^ 6)%Z.
Proof.
  intros Hv. split; [apply Z.lxor_nonneg; lia|].
  destruct (decide (Z.lxor 16777215 v = 0%Z)) as [->|Hne]; [done|].
  assert (0 ≤ Z.lxor 16777215 v)%Z by (apply Z.lxor_nonneg; lia).
  change (16 ^ 6)%Z with (2 ^ 24)%Z. apply Z.log2_lt_pow2; [lia|].
  eapply Z.le_lt_trans; [apply Z.log2_lxor; lia|].
  apply Z.max_lub_lt; [done|].
  destruct (decide (v = 0%Z)) as [->|?]; [done|].
  apply Z.log2_lt_pow2; [lia|]. change (2 ^ 24)%Z with (16 ^ 6)%Z. lia.
Qed.

Lemma lxor_ffffff_involutive v : Z.lxor 16777215 (Z.lxor 16777215 v) = v.
Proof. by rewrite <- Z.lxor_assoc, Z.lxor_nilpotent, Z.lxor_0_l. Qed.

Lemma get_complementary_color_hex ds :
  length ds = 6 → forallb is_hex_digit ds = true →
  get_complementary_color ("#"%char :: ds)
  = Ok ("#"%char :: hex_fixed 6 (Z.lxor 16777215 (hexval ds))).
Proof.
  intros Hlen Hds. unfold get_complementary_color, int16. cbn [drop].
  rewrite py_int16_hex; [|by destruct ds|done]. cbn [rbind].
  pose proof (hexval_bound ds Hds) as Hb. rewrite Hlen in Hb.
  rewrite format_06X_fixed by (by apply lxor_ffffff_range). done.
Qed.

(** ** The file system *)

Lemma under_spec d p :
  under d p = true ↔ p = d ∨ ∃ r, p = d ++ "/" ++ r.
Proof.
  unfold under. rewrite orb_true_iff, bool_decide_eq_true, starts_with_spec.
  split; (intros [?|[r Hr]]; [by left|right; exists r]).
  - by rewrite Hr, <- app_assoc.
  - by rewrite Hr, <- app_assoc.
Qed.

Lemma under_refl d : under d d = true.
Proof. apply under_spec. by left. Qed.

Lemma under_below d r : under d (d ++ "/" ++ r) = true.
Proof. apply under_spec. right. by exists r. Qed.

Lemma under_trans d e p :
  under d e = true → under e p = true → under d p = true.
Proof.
  rewrite !under_spec. intros [->|[r ->]] [->|[r' ->]]; eauto.
  right. exists (r ++ "/" ++ r'). by rewrite <- !app_assoc.
Qed.

(** What lies at or below [d] is [d] followed by nothing or by a slash. *)
Lemma under_rest d p :
  under d p = true →
  p = d ++ drop (length d) p
  ∧ (drop (length d) p = [] ∨ starts_with "/" (drop (length d) p) = true).
Proof.
  intros [->|[r ->]]%under_spec.
  - rewrite drop_all, app_nil_r. auto.
  - rewrite drop_app_length. split; [done|]. right. apply starts_with_app.
Qed.

Lemma under_app_rest d rest :
  rest = [] ∨ starts_with "/" rest = true → under d (d ++ rest) = true.
Proof.
  intros [->|[r ->]%starts_with_spec].
  - rewrite app_nil_r. apply under_refl.
  - apply under_below.
Qed.

Lemma elem_of_paths (fs : gmap text node) (p : text) : p ∈ paths fs ↔ is_Some (fs !! p).
Proof.
  unfold paths. rewrite list_elem_of_fmap. split.
  - intros ([k n] & -> & H%elem_of_map_to_list). eauto.
  - intros [n H]. exists (p, n). split; [done|]. by apply elem_of_map_to_list.
Qed.

Lemma NoDup_paths (fs : gmap text node) : NoDup (paths fs).
Proof. apply NoDup_fst_map_to_list. Qed.

Lemma path_exists_spec (p : text) (fs : gmap text node) :
  path_exists p fs = true ↔ ∃ k, is_Some (fs !! k) ∧ under p k = true.
Proof.
  unfold path_exists. rewrite bool_decide_eq_true, Exists_exists.
  split; intros (k & H1 & H2); exists k.
  - by rewrite <- elem_of_paths, <- Is_true_true.
  - by rewrite elem_of_paths, Is_true_true.
Qed.

Lemma path_exists_false (p : text) (fs : gmap text node) :
  path_exists p fs = false ↔ ∀ k, under p k = true → fs !! k = None.
Proof.
  rewrite <- not_true_iff_false, path_exists_spec. split.
  - intros H k Hk. destruct (fs !! k) eqn:E; [|done].
    destruct H. exists k. eauto.
  - intros H (k & [n Hn] & Hk). rewrite (H k Hk) in Hn. done.
Qed.

Lemma path_exists_lookup (p : text) (fs : gmap text node) (n : node) :
  fs !! p = Some n → path_exists p fs = true.
Proof. intros H. apply path_exists_spec. exists p. eauto using under_refl. Qed.

Lemma path_exists_above (d e : text) (fs : gmap text node) :
  under d e = true → path_exists e fs = true → path_exists d fs = true.
Proof.
  rewrite !path_exists_spec. intros Hde (k & Hk & Hek).
  exists k. eauto using under_trans.
Qed.

Lemma rm_rf_lookup (d : text) (fs : gmap text node) (p : text) :
  rm_rf d fs !! p = if under d p then None else fs !! p.
Proof.
  unfold rm_rf. destruct (under d p) eqn:E.
  - apply map_lookup_filter_None. right. intros n _ H. apply H. simpl.
    by rewrite E.
  - destruct (fs !! p) as [n|] eqn:En.
    + apply map_lookup_filter_Some. split; [done|]. simpl. rewrite E.
      by intros [].
    + apply map_lookup_filter_None. by left.
Qed.

Lemma rm_rf_agree (d : text) (fs1 fs2 : gmap text node) :
  (∀ p, under d p = false → fs1 !! p = fs2 !! p) → rm_rf d fs1 = rm_rf d fs2.
Proof.
  intros H. apply map_eq. intros p. rewrite !rm_rf_lookup.
  destruct (under d p) eqn:E; [done|by apply H].
Qed.

Lemma rm_rf_absent (d : text) (fs : gmap text node) :
  path_exists d fs = false → rm_rf d fs = fs.
Proof.
  intros H. apply map_eq. intros p. rewrite rm_rf_lookup.
  destruct (under d p) eqn:E; [|done].
  symmetry. by apply (proj1 (path_exists_false d fs)).
Qed.

Lemma rm_rf_not_exists (d : text) (fs : gmap text node) :
  path_exists d (rm_rf d fs) = false.
Proof.
  apply path_exists_false. intros k Hk. by rewrite rm_rf_lookup, Hk.
Qed.

(** *** [cp -r] *)

Lemma cp_r_lookup (src dst : text) (fs fs' : gmap text node) (q : text) :
  cp_r src dst fs = Some fs' →
  fs' !! q =
    match (if under (cp_target src dst fs) q
           then fs !! (src ++ drop (length (cp_target src dst fs)) q)
           else None) with
    | Some n => Some n
    | None => fs !! q
    end.
Proof.
  unfold cp_r. destruct (path_exists src fs); [|done]. intros [= <-].
  set (target := cp_target src dst fs).
  set (f := fun kv : text * node => (target ++ drop (length src) kv.1, kv.2)).
  set (l := filter (fun kv : text * node => under src kv.1) (map_to_list fs)).
  assert (Hl : ∀ k n, (k, n) ∈ l ↔ fs !! k = Some n ∧ under src k = true).
  { intros k n. unfold l. rewrite list_elem_of_filter, elem_of_map_to_list.
    simpl. rewrite Is_true_true. tauto. }
  assert (Hnd : NoDup (f <$> l).*1).
  { rewrite <- list_fmap_compose. apply NoDup_fmap_2_strong.
    - intros [k1 n1] [k2 n2] H1 H2 Hf. simpl in Hf.
      apply Hl in H1 as [H1 U1], H2 as [H2 U2].
      apply app_inv_head in Hf.
      apply under_rest in U1 as [E1 _], U2 as [E2 _].
      assert (k1 = k2) as -> by (rewrite E1, E2; by f_equal).
      congruence.
    - unfold l. apply NoDup_filter, NoDup_map_to_list. }
  assert (Hin : ∀ n, (q, n) ∈ f <$> l ↔
            under target q = true
            ∧ fs !! (src ++ drop (length target) q) = Some n).
  { intros n. rewrite list_elem_of_fmap. split.
    - intros ([k n'] & [= -> ->] & [Hk Hu]%Hl).
      apply under_rest in Hu as [E Hr].
      rewrite drop_app_length, <- E. split; [|done].
      by apply under_app_rest.
    - intros [Hu Hn]. exists (src ++ drop (length target) q, n). split.
      + unfold f. simpl. rewrite drop_app_length.
        f_equal. by apply under_rest.
      + apply Hl. split; [done|]. apply under_app_rest.
        by apply under_rest in Hu as [_ ?]. }
  destruct (under target q) eqn:Hu.
  - destruct (fs !! (src ++ drop (length target) q)) as [n|] eqn:Hn.
    + apply lookup_union_Some_raw. left.
      apply elem_of_list_to_map; [done|]. by apply Hin.
    + apply lookup_union_r, not_elem_of_list_to_map.
      intros ([k n'] & Hk & H)%list_elem_of_fmap. simpl in Hk. subst k.
      apply Hin in H as [_ H]. congruence.
  - apply lookup_union_r, not_elem_of_list_to_map.
    intros ([k n] & Hk & H)%list_elem_of_fmap. simpl in Hk. subst k.
    apply Hin in H as [H _]. congruence.
Qed.

(** *** [find] *)

Lemma find_svg_spec (dir : text) (fs : gmap text node) (ps : list text) :
  find_svg dir fs = Some ps →
  NoDup ps
  ∧ ∀ p, p ∈ ps ↔
         is_Some (fs !! p) ∧ under dir p = true ∧ svg_glob p = true.
Proof.
  unfold find_svg. destruct (path_exists dir fs); [|done]. intros [= <-].
  split; [apply NoDup_filter, NoDup_paths|].
  intros p. rewrite list_elem_of_filter, elem_of_paths.
  rewrite Is_true_true, andb_true_iff. tauto.
Qed.

Lemma find_svg_exists (dir : text) (fs : gmap text node) :
  path_exists dir fs = true → ∃ ps, find_svg dir fs = Some ps.
Proof. intros H. unfold find_svg. rewrite H. eauto. Qed.

Lemma NoDup_only {A} (l : list A) x :
  NoDup l → (∀ y, y ∈ l ↔ y = x) → l = [x].
Proof.
  intros Hnd H. destruct l as [|a l].
  - specialize (H x). rewrite elem_of_nil in H. tauto.
  - assert (a = x) as -> by (apply H; left).
    destruct l as [|b l]; [done|].
    assert (b = x) as -> by (apply H; right; left).
    apply NoDup_cons in Hnd as [Hnd _]. destruct Hnd. left.
Qed.

(** *** [sed -i] *)

Lemma sed_inplace_spec (old new : text) (ps : list text) (fs : gmap text node) :
  NoDup ps → (∀ p, p ∈ ps → ∃ c, fs !! p = Some (File c)) →
  ∃ fs', sed_inplace old new ps fs = (true, fs')
         ∧ (∀ p c, p ∈ ps → fs !! p = Some (File c) →
                   fs' !! p = Some (File (gsub old new c)))
         ∧ (∀ p, p ∉ ps → fs' !! p = fs !! p).
Proof.
  revert fs. induction ps as [|p ps IH]; intros fs Hnd Hfile.
  - exists fs. split; [done|]. split; [|done]. intros p c H.
    by apply elem_of_nil in H.
  - apply NoDup_cons in Hnd as [Hp Hnd].
    destruct (Hfile p) as [c Hc]; [left|].
    cbn [sed_inplace]. rewrite Hc.
    destruct (IH (<[p := File (gsub old new c)]> fs) Hnd)
      as (fs' & -> & Hin & Hout).
    { intros p' Hp'. rewrite lookup_insert_ne by set_solver.
      apply Hfile. by right. }
    exists fs'. split; [done|]. split.
    + intros p' c' [->|Hp']%elem_of_cons Hc'.
      * rewrite Hout, lookup_insert_eq by done. congruence.
      * apply Hin; [done|]. rewrite lookup_insert_ne by set_solver. done.
    + intros p' Hp'. rewrite Hout by set_solver.
      apply lookup_insert_ne. set_solver.
Qed.

(** [sed] writes only to the paths it is given, whatever happens. *)
Lemma sed_inplace_frame (old new : text) (ps : list text) (fs : gmap text node) (q : text) :
  q ∉ ps → (sed_inplace old new ps fs).2 !! q = fs !! q.
Proof.
  revert fs. induction ps as [|p ps IH]; intros fs Hq; [done|].
  cbn [sed_inplace]. destruct (fs !! p) as [[|c]|] eqn:E; try done.
  rewrite IH by set_solver. apply lookup_insert_ne. set_solver.
Qed.

#[global] Arguments xamarin_path : simpl never.
#[global] Arguments join : simpl never.
#[global] Arguments under : simpl never.
#[global] Arguments path_exists : simpl never.
#[global] Arguments basename : simpl never.
#[global] Arguments rm_rf : simpl never.
#[global] Arguments makedirs : simpl never.

(** ** Paths *)

Lemma ends_with_app c a l :
  l ≠ [] → ends_with [c] (a ++ l) = ends_with [c] l.
Proof.
  intros Hl. unfold ends_with. rewrite rev_app_distr.
  destruct (rev l) as [|x r] eqn:E.
  - apply (f_equal (@rev _)) in E. rewrite rev_involutive in E. done.
  - done.
Qed.

Lemma join_app a l b :
  l ≠ [] → ends_with "/" l = false → starts_with "/" b = false →
  join (a ++ l) b = a ++ l ++ "/" ++ b.
Proof.
  intros Hl He Hb. rewrite join_with_sep by done. unfold with_sep.
  change (list_ascii_of_string "/") with ["/"%char] in *.
  rewrite ends_with_app, He by done.
  replace (bool_decide (a ++ l = [])) with false.
  - cbn [orb]. by rewrite <- !app_assoc.
  - symmetry. apply bool_decide_eq_false. by intros [_ ?]%app_eq_nil.
Qed.

Lemma starts_with_slash_name n ext :
  "/"%char ∉ n → starts_with "/" ext = false → starts_with "/" (n ++ ext) = false.
Proof.
  intros Hn Hext. destruct n as [|c n]; [exact Hext|].
  change (starts_with "/" ((c :: n) ++ ext)) with (Ascii.eqb "/" c && true).
  destruct (Ascii.eqb_spec "/" c) as [<-|?]; [|done].
  destruct Hn. left.
Qed.

Lemma no_ext_filename_no_slash f : "/"%char ∉ f → "/"%char ∉ no_ext_filename f.
Proof.
  intros Hf H. unfold no_ext_filename, py_replace in H. cbn in H.
  apply elem_of_gsub_go in H as [H|H].
  - apply elem_of_gsub_go in H as [H|H]; [done|]. by apply elem_of_nil in H.
  - apply elem_of_cons in H as [H|H]; [done|]. by apply elem_of_nil in H.
Qed.

Lemma with_sep_cases a : with_sep a = a ∨ with_sep a = a ++ "/".
Proof.
  unfold with_sep. destruct (bool_decide (a = []) || ends_with "/" a); auto.
Qed.

Lemma contains_from_root p root k :
  p ≠ [] →
  no_span p k = true → contains p k = false →
  no_span p ("/" ++ k) = true → contains p ("/" ++ k) = false →
  contains p (with_sep root ++ k) = contains p root.
Proof.
  intros Hp H1 H2 H3 H4. destruct (with_sep_cases root) as [->| ->].
  - by apply contains_app_no_span.
  - rewrite <- app_assoc. by apply contains_app_no_span.
Qed.

Lemma under_pp X a b : under (X ++ a) (X ++ b) = under a b.
Proof.
  unfold under. rewrite <- app_assoc, starts_with_app_same. f_equal.
  apply bool_decide_ext. split; [apply app_inv_head|congruence].
Qed.

Lemma under_xp X b : under X (X ++ b) = under [] b.
Proof. rewrite <- (app_nil_r X) at 1. apply under_pp. Qed.

Lemma under_px X a : under (X ++ a) X = under a [].
Proof. rewrite <- (app_nil_r X) at 2. apply under_pp. Qed.

Lemma under_comparable a b k :
  under a k = true → under b k = true →
  under a b = true ∨ under b a = true.
Proof.
  intros [Ha Hra]%under_rest [Hb Hrb]%under_rest.
  set (ra := drop (length a) k) in *. set (rb := drop (length b) k) in *.
  rewrite Ha in Hb. apply app_eq_inv in Hb as [(j & -> & Hj)|(j & -> & Hj)].
  - right. apply under_app_rest. rewrite Hj in Hrb.
    destruct j as [|x j]; [by left|]. right.
    destruct Hrb as [?|Hrb]; [done|]. cbn in Hrb |- *.
    by apply andb_true_iff in Hrb as [-> _].
  - left. apply under_app_rest. rewrite Hj in Hra.
    destruct j as [|x j]; [by left|]. right.
    destruct Hra as [?|Hra]; [done|]. cbn in Hra |- *.
    by apply andb_true_iff in Hra as [-> _].
Qed.

Lemma under_apart a b k :
  under a b = false → under b a = false → under a k = true →
  under b k = false.
Proof.
  intros H1 H2 Ha. apply not_true_iff_false. intros Hb.
  destruct (under_comparable a b k Ha Hb); congruence.
Qed.

Lemma basename_below d r : basename (d ++ "/" ++ r) = basename ("/" ++ r).
Proof.
  induction d as [|c d IH]; [done|].
  cbn [app]. rewrite <- IH. unfold basename at 1. fold basename.
  replace (contains "/" (d ++ "/" ++ r)) with true; [done|].
  symmetry. apply contains_spec. by exists d, r.
Qed.

Lemma basename_id f : "/"%char ∉ f → basename f = f.
Proof.
  intros Hf. destruct f as [|c f]; [done|].
  unfold basename. fold basename.
  replace (contains "/" f) with false.
  - destruct (Ascii.eqb_spec c "/") as [->|?]; [|done]. destruct Hf. left.
  - symmetry. apply (contains_char_false "/"). intros ?. apply Hf. by right.
Qed.

Lemma ends_with_spec p s : ends_with p s = true → ∃ k, s = k ++ p.
Proof.
  unfold ends_with. intros [k Hk]%starts_with_spec. exists (rev k).
  apply (f_equal (@rev _)) in Hk.
  by rewrite rev_involutive, rev_app_distr, rev_involutive in Hk.
Qed.

Lemma basename_with_sep a f :
  "/"%char ∉ f → basename (with_sep a ++ f) = f.
Proof.
  intros Hf. unfold with_sep.
  destruct (bool_decide (a = [])) eqn:Ea.
  - apply bool_decide_eq_true in Ea as ->. by apply basename_id.
  - cbn [orb]. destruct (ends_with "/" a) eqn:Ee.
    + apply ends_with_spec in Ee as [k ->]. rewrite <- app_assoc.
      by apply basename_app.
    + rewrite <- app_assoc. by apply basename_app.
Qed.

Lemma py_strip_path s t d :
  starts_with "/" s = true → py_isspace d = false →
  py_strip (s ++ t ++ [d] ++ [LF]) = s ++ t ++ [d].
Proof.
  intros [k ->]%starts_with_spec Hd.
  change (("/" ++ k) ++ t ++ [d] ++ [LF])
    with ("/"%char :: (k ++ t ++ [d; LF])).
  rewrite app_assoc. rewrite py_strip_line by done.
  by rewrite <- app_assoc.
Qed.

Lemma only_svg_insert (dir icon svg : text) (fs : gmap text node)
    (k : text) (n : node) :
  k ≠ icon → under dir k = false → only_svg dir icon svg fs →
  only_svg dir icon svg (<[k := n]> fs).
Proof.
  intros Hne Hk [Hicon Honly]. split.
  - by rewrite lookup_insert_ne.
  - intros p Hp Hup Hg. apply Honly; [|done|done].
    rewrite lookup_insert_ne in Hp; [done|]. intros ->. congruence.
Qed.

Lemma starts_with_app_l p s t :
  starts_with p s = true → starts_with p (s ++ t) = true.
Proof.
  intros [k ->]%starts_with_spec. rewrite <- app_assoc. apply starts_with_app.
Qed.

Lemma elem_of_with_sep c a : c ∈ with_sep a → c ∈ a ∨ c = "/"%char.
Proof.
  destruct (with_sep_cases a) as [->| ->]; [by left|].
  rewrite elem_of_app. intros [?|H]; [by left|right].
  by apply list_elem_of_singleton in H.
Qed.

(** ** Messages *)

Lemma contains_middle x a b : contains x (a ++ x ++ b) = true.
Proof. apply contains_spec. eauto. Qed.

Lemma contains_str_join sep names name :
  name ∈ names → contains name (str_join sep names) = true.
Proof.
  induction names as [|x names IH]; intros H.
  - by apply elem_of_nil in H.
  - apply contains_spec. cbn [str_join].
    apply elem_of_cons in H as [->|H].
    + destruct names as [|y names].
      * exists [], []. by rewrite app_nil_r.
      * by exists [], (sep ++ str_join sep (y :: names)).
    + destruct names as [|y names]; [by apply elem_of_nil in H|].
      apply IH, contains_spec in H as (a & b & ->).
      exists (x ++ sep ++ a), b. by rewrite <- !app_assoc.
Qed.

(** ** Recolouring *)

Lemma sed_rhs_literal old rhs :
  sed_literal rhs = true → sed_rhs old rhs = Some rhs.
Proof.
  unfold sed_literal, sed_rhs. rewrite negb_true_iff. intros H.
  assert (existsb sed_special rhs = false
          ∧ concat (List.map (λ c, if Ascii.eqb c "&" then old else [c]) rhs)
            = rhs) as [-> ->]; [|done].
  induction rhs as [|c rhs IH]; [done|].
  cbn [existsb] in H. apply orb_false_iff in H as [Hc H].
  apply orb_false_iff in Hc as [Hc1 Hc2]. destruct (IH H) as [IH1 IH2].
  cbn [existsb List.map concat]. rewrite Hc1, Hc2, IH1, IH2. done.
Qed.

Lemma sed_literal_attribute (name hex : text) :
  sed_literal name = true → sed_literal hex = true →
  sed_literal (name ++ DQ :: hex ++ [DQ]) = true.
Proof.
  unfold sed_literal. rewrite !negb_true_iff. intros Hn Hh.
  rewrite existsb_app, Hn. cbn [existsb orb].
  rewrite existsb_app, Hh. reflexivity.
Qed.

Lemma find_exec_sed_spec (o : origin) (dir old rhs : text) (fs : gmap text node) :
  sed_literal rhs = true → path_exists dir fs = true →
  (∀ p, is_Some (fs !! p) → under dir p = true → svg_glob p = true →
        ∃ c, fs !! p = Some (File c)) →
  ∃ fs', find_exec_sed o dir old rhs fs = (Ok tt, fs')
         ∧ ∀ p, fs' !! p =
                if under dir p && svg_glob p
                then edit_file (gsub old rhs) <$> fs !! p
                else fs !! p.
Proof.
  intros Hlit Hdir Hfiles. unfold find_exec_sed.
  rewrite (sed_rhs_literal _ _ Hlit).
  destruct (find_svg_exists _ _ Hdir) as [ps Hps]. rewrite Hps.
  destruct (find_svg_spec _ _ _ Hps) as [Hnd Hin].
  destruct (sed_inplace_spec old rhs ps fs Hnd) as (fs' & -> & Hed & Hout).
  { intros p (Hp & Hu & Hg)%Hin. by apply Hfiles. }
  exists fs'. split; [done|]. intros p.
  destruct (under dir p && svg_glob p) eqn:E.
  - apply andb_true_iff in E as [Hu Hg].
    destruct (fs !! p) as [n|] eqn:En.
    + destruct (Hfiles p) as [c Hc]; [eauto|done|done|].
      rewrite Hc in En. injection En as <-. cbn.
      apply Hed; [|done]. apply Hin. rewrite Hc. eauto.
    + cbn. rewrite Hout, En; [done|]. intros (Hp & _)%Hin.
      rewrite En in Hp. by destruct Hp.
  - apply Hout. intros (_ & Hu & Hg)%Hin. by rewrite Hu, Hg in E.
Qed.

(** A character that the pattern does not have splits the scan. *)
Lemma gsub_separator old new x u v :
  old ≠ [] → x ∉ old →
  gsub old new (u ++ x :: v) = gsub old new u ++ x :: gsub old new v.
Proof.
  intros Hne Hx.
  assert (∀ w, starts_with old (w ++ x :: v) = starts_with old w) as Hsw.
  { intros w. destruct (starts_with old w) eqn:E.
    - apply starts_with_spec in E as [k ->]. rewrite <- app_assoc.
      apply starts_with_app.
    - apply not_true_iff_false. intros H.
      apply starts_with_app_inv in H as [H|[Hlen H]]; [congruence|].
      apply starts_with_spec in H as [k Hk].
      destruct (drop (length w) old) as [|y r] eqn:Ed.
      { apply (f_equal length) in Ed. rewrite length_drop in Ed.
        simpl in Ed. lia. }
      injection Hk as -> _. apply Hx.
      apply (subseteq_drop (length w) old). rewrite Ed. left. }
  remember (length u) as n eqn:Hn. revert u Hn.
  induction n as [n IH] using lt_wf_ind. intros u ->.
  destruct u as [|c u].
  - cbn [app]. rewrite gsub_nomatch; [done|].
    specialize (Hsw []). cbn [app] in Hsw. rewrite Hsw. by destruct old.
  - destruct (starts_with old (c :: u)) eqn:E.
    + apply starts_with_spec in E as [k E]. rewrite E.
      rewrite <- app_assoc, !gsub_match by done.
      rewrite (IH (length k)); [by rewrite app_assoc| |done].
      rewrite E, length_app. destruct old; [done|]. simpl. lia.
    + rewrite (gsub_nomatch _ _ _ _ E).
      change ((c :: u) ++ x :: v) with (c :: (u ++ x :: v)).
      rewrite gsub_nomatch.
      * rewrite (IH (length u)); [done|simpl; lia|done].
      * change (c :: (u ++ x :: v)) with ((c :: u) ++ x :: v).
        by rewrite Hsw.
Qed.

(** The instance of C5 in the specification: a text that holds the two
    black attributes side by side holds the two coloured ones afterwards,
    and no black one. *)
Lemma recolored_112233_445566 (a b : text) :
  let svg := a ++ fill_black ++ " " ++ stroke_black ++ b in
  let out := recolored "#112233" "#445566" svg in
  contains ("fill=" ++ DQ :: "#112233" ++ DQ :: " stroke="
            ++ DQ :: "#445566" ++ [DQ]) out = true
  ∧ contains fill_black out = false
  ∧ contains stroke_black out = false.
Proof.
  cbv zeta. unfold recolored. split; [|split].
  - rewrite (gsub_occurrence fill_black) by done.
    change (gsub fill_black ("fill=" ++ DQ :: "#112233" ++ [DQ])
              (" " ++ stroke_black ++ b))
      with (" " ++ stroke_black
            ++ gsub fill_black ("fill=" ++ DQ :: "#112233" ++ [DQ]) b).
    set (a' := gsub fill_black _ a). set (b' := gsub fill_black _ b).
    replace (a' ++ ("fill=" ++ DQ :: "#112233" ++ [DQ])
             ++ " " ++ stroke_black ++ b')
      with ((a' ++ ("fill=" ++ DQ :: "#112233" ++ [DQ]) ++ " ")
            ++ stroke_black ++ b')
      by (by rewrite <- !app_assoc).
    rewrite (gsub_occurrence stroke_black) by done.
    change (a' ++ ("fill=" ++ DQ :: "#112233" ++ [DQ]) ++ " ")
      with (a' ++ "f"%char :: ("ill=" ++ DQ :: "#112233" ++ DQ :: " ")).
    rewrite gsub_separator; [|done|].
    + apply contains_spec.
      exists (gsub stroke_black ("stroke=" ++ DQ :: "#445566" ++ [DQ]) a'),
             (gsub stroke_black ("stroke=" ++ DQ :: "#445566" ++ [DQ]) b').
      rewrite <- !app_assoc. reflexivity.
    + intros H. cbn in H.
      repeat (apply elem_of_cons in H as [H|H]; [discriminate H|]).
      by apply elem_of_nil in H.
  - apply gsub_go_preserves_no_occurrence; [done|done|].
    by apply gsub_go_no_occurrence.
  - by apply gsub_go_no_occurrence.
Qed.

(** ** Tactics *)

(** Two paths below the same directory differ when what follows it differs. *)
Ltac path_ne := let H := fresh in intros H%app_inv_head; discriminate H.

(** Membership in a list given in full. *)
Ltac here := first [by left | right; here].

(** A lookup through a pile of insertions, for a path [p] below a directory
    ([Hu]) that exists ([Hp]): either [p] is one of the keys, or the key is
    not below that directory. *)
Ltac walk_inserts Hu Hp :=
  repeat lazymatch type of Hp with
    | is_Some (<[?k := _]> _ !! ?p) =>
        destruct (decide (k = p)) as [<-|?];
        [first [here
               |exfalso; rewrite under_pp in Hu; vm_compute in Hu;
                discriminate Hu]
        |rewrite lookup_insert_ne in Hp by done]
    end.

(** ** The script *)

Section Properties.
Variable root : text.
Variable cnames : list (text * text).
Variable rasterize : Z → Z → text → option text.

Local Notation "'X'" := (xamarin_path root).
Local Notation "'R'" := (with_sep root).
Local Notation "'keeps'" := (keeps_outside root).

(** *** Colours *)

Lemma parse_color_hash color :
  starts_with "#" color = true → parse_color cnames color = Ok color.
Proof. intros H. unfold parse_color. by rewrite H. Qed.

Lemma color_too_bright_hash color :
  starts_with "#" color = true →
  (∃ b, color_too_bright cnames color = Ok b)
  ∨ (∃ lit, color_too_bright cnames color
            = Raise In_color_too_bright (ValueError lit)).
Proof.
  intros H. unfold color_too_bright, int16. rewrite parse_color_hash by done.
  cbn [rbind].
  destruct (py_int16 (take 2 (drop 1 color))); [|by eauto].
  destruct (py_int16 (slice 2 4 (drop 1 color))); [|by eauto].
  destruct (py_int16 (drop 4 (drop 1 color))); [|by eauto].
  left. eauto.
Qed.

(** Six hexadecimal digits: the weights 299, 587 and 114 go to the first,
    the third and the second byte. *)
Lemma color_too_bright_hex r1 r2 g1 g2 b1 b2 :
  forallb is_hex_digit [r1; r2; g1; g2; b1; b2] = true →
  color_too_bright cnames ("#"%char :: [r1; r2; g1; g2; b1; b2])
  = Ok (luma_in_order (hexval [r1; r2]) (hexval [b1; b2]) (hexval [g1; g2])).
Proof.
  intros H. cbn [forallb] in H. repeat (apply andb_true_iff in H as [? H]).
  unfold color_too_bright, int16. rewrite parse_color_hash by done.
  cbn [rbind drop take slice Nat.sub].
  rewrite !py_int16_hex; try done; cbn [forallb]; repeat (apply andb_true_iff; split); done.
Qed.

(** C3, at the failing input: for [#FFFF00] the bytes are 255, 255 and 0; the
    test with the weights in the order 299, 587, 114 holds, and
    [color_too_bright] answers [False]. *)
Theorem color_too_bright_yellow :
  color_too_bright cnames "#FFFF00" = Ok false
  ∧ luma_in_order (hexval "FF") (hexval "FF") (hexval "00") = true.
Proof. split; reflexivity. Qed.

(** C4, as amended: for a hash sign and six hexadecimal digits the
    complement of the complement is the colour with its letters in upper
    case; it is the colour itself when the colour has no lower-case
    letter. *)
Theorem complement_twice_upper ds :
  length ds = 6 → forallb is_hex_digit ds = true →
  rbind (get_complementary_color ("#"%char :: ds)) get_complementary_color
  = Ok ("#"%char :: (ascii_upper <$> ds))
  ∧ ((ascii_upper <$> ds) = ds →
     rbind (get_complementary_color ("#"%char :: ds)) get_complementary_color
     = Ok ("#"%char :: ds)).
Proof.
  intros Hlen Hds.
  assert (rbind (get_complementary_color ("#"%char :: ds)) get_complementary_color
          = Ok ("#"%char :: (ascii_upper <$> ds))) as Hmain.
  { rewrite get_complementary_color_hex by done. cbn [rbind].
    pose proof (hexval_bound ds Hds) as Hb. rewrite Hlen in Hb.
    pose proof (lxor_ffffff_range _ Hb) as Hx.
    rewrite get_complementary_color_hex.
    - rewrite hexval_hex_fixed by done.
      by rewrite lxor_ffffff_involutive, <- Hlen, hex_fixed_hexval.
    - apply hex_fixed_length.
    - apply hex_fixed_is_hex. lia. }
  split; [done|]. intros Hup. by rewrite Hmain, Hup.
Qed.

(** *** What a run leaves alone *)

Lemma xamarin_path_eq : X = with_sep root ++ "xamarin".
Proof. unfold xamarin_path. by rewrite join_with_sep. Qed.

Lemma join_xamarin b :
  starts_with "/" b = false → join X b = X ++ "/" ++ b.
Proof.
  intros Hb. rewrite xamarin_path_eq, join_app by done.
  by rewrite <- !app_assoc.
Qed.

Lemma keeps_lift {A} (r : result A) : keeps (lift r).
Proof. done. Qed.

Lemma keeps_bind {A B} (m : cmd A) (k : A → cmd B) :
  keeps m → (∀ a, keeps (k a)) → keeps (bind m k).
Proof.
  intros Hm Hk fs p Hp. unfold bind. specialize (Hm fs p Hp).
  destruct (m fs) as [[a|o e] fs']; [|done].
  rewrite Hk by done. done.
Qed.

Lemma keeps_for_each {A} (l : list A) (body : A → cmd unit) :
  (∀ x, x ∈ l → keeps (body x)) → keeps (for_each l body).
Proof.
  intros H. induction l as [|x l IH]; [done|].
  cbn [for_each]. apply keeps_bind; [apply H; left|].
  intros _. apply IH. intros y Hy. apply H. by right.
Qed.

Lemma lookup_insert_outside (fs : gmap text node) (k p : text) (n : node) :
  under X k = true → under X p = false → <[k := n]> fs !! p = fs !! p.
Proof. intros Hk Hp. apply lookup_insert_ne. congruence. Qed.

Lemma bind_get_xamarin_directory {B} create (k : text → cmd B) fs :
  bind (get_xamarin_directory root create) k fs
  = k X (if create && negb (path_exists X fs) then makedirs X fs else fs).
Proof.
  unfold bind, get_xamarin_directory.
  by destruct (create && negb (path_exists X fs)).
Qed.

Lemma keeps_bind_xamarin {B} create (k : text → cmd B) :
  keeps (k X) → keeps (bind (get_xamarin_directory root create) k).
Proof.
  intros Hk fs p Hp. rewrite bind_get_xamarin_directory, Hk by done.
  destruct (create && negb (path_exists X fs)); [|done].
  apply lookup_insert_outside; [apply under_refl|done].
Qed.

Lemma keeps_ensure_dir d : under X d = true → keeps (ensure_dir d).
Proof.
  intros Hd fs p Hp. unfold ensure_dir. cbn.
  destruct (path_exists d fs); [done|].
  by apply lookup_insert_outside.
Qed.

Lemma keeps_cleanup : keeps (cleanup root).
Proof.
  apply keeps_bind_xamarin.
  intros fs p Hp. cbn. destruct (path_exists X fs); [|done].
  by rewrite rm_rf_lookup, Hp.
Qed.

Lemma keeps_copy_svg_to_xamarin : keeps (copy_svg_to_xamarin root).
Proof.
  apply keeps_bind_xamarin.
  intros fs p Hp. cbv beta.
  destruct (cp_r (join root "svg") X fs) as [fs'|] eqn:E; [|done].
  - cbn [snd]. rewrite (cp_r_lookup _ _ _ _ _ E).
    replace (under (cp_target (join root "svg") X fs) p) with false; [done|].
    symmetry. apply not_true_iff_false. intros Hu.
    apply not_true_iff_false in Hp. apply Hp.
    eapply under_trans; [|exact Hu].
    unfold cp_target. destruct (path_exists X fs); [|apply under_refl].
    rewrite join_xamarin; [apply under_below|].
    destruct (basename (join root "svg")) as [|c b] eqn:Eb; [done|].
    pose proof (basename_no_slash (join root "svg")) as Hb. rewrite Eb in Hb.
    change (starts_with "/" (c :: b)) with (Ascii.eqb "/" c && true).
    destruct (Ascii.eqb_spec "/" c) as [<-|?]; [|done].
    destruct Hb. left.
Qed.

Lemma keeps_find_exec_sed o dir old rhs :
  under X dir = true → keeps (find_exec_sed o dir old rhs).
Proof.
  intros Hd fs p Hp. unfold find_exec_sed.
  destruct (sed_rhs old rhs) as [new|]; [|done].
  destruct (find_svg dir fs) as [ps|] eqn:E; [|done].
  assert ((sed_inplace old new ps fs).2 !! p = fs !! p) as H.
  { apply sed_inplace_frame. intros Hin.
    apply (find_svg_spec _ _ _ E) in Hin as (_ & Hu & _).
    rewrite (under_trans _ _ _ Hd Hu) in Hp. done. }
  by destruct (sed_inplace old new ps fs) as [[] fs'].
Qed.

Lemma keeps_replace_color_on_svgs fill stroke :
  keeps (replace_color_on_svgs root fill stroke).
Proof.
  apply keeps_bind_xamarin.
  assert (under X (join X "svg") = true) as Hu.
  { rewrite join_xamarin; [apply under_below|done]. }
  apply keeps_bind; [by apply keeps_find_exec_sed|]. intros _.
  by apply keeps_find_exec_sed.
Qed.

Lemma keeps_found_files o svg : keeps (found_files o svg).
Proof.
  intros fs p Hp. unfold found_files. by destruct (find_svg svg fs).
Qed.

Lemma keeps_inkscape o w h svg_file png :
  under X png = true → keeps (inkscape rasterize o w h svg_file png).
Proof.
  intros Hpng fs p Hp. unfold inkscape.
  destruct (fs !! svg_file) as [[|svg]|]; try done.
  destruct (rasterize w h svg); [|done].
  by apply lookup_insert_outside.
Qed.

Lemma under_xamarin_sub l n ext :
  l ≠ [] → ends_with "/" l = false →
  "/"%char ∉ n → starts_with "/" ext = false →
  under X (join (X ++ "/" ++ l) (n ++ ext)) = true.
Proof.
  intros Hl He Hn Hext.
  rewrite (join_app X ("/" ++ l)).
  - rewrite <- app_assoc. apply under_below.
  - done.
  - etrans; [apply (ends_with_app "/"%char "/" l Hl)|exact He].
  - by apply starts_with_slash_name.
Qed.

Lemma svg_dir_eq : join X "svg" = X ++ "/svg".
Proof. by rewrite join_xamarin. Qed.

Lemma ios_dir_eq : join X "ios" = X ++ "/ios".
Proof. by rewrite join_xamarin. Qed.

Lemma android_dir_eq : join X "android" = X ++ "/android".
Proof. by rewrite join_xamarin. Qed.

Lemma join_workspace l b :
  l ≠ [] → ends_with "/" l = false → starts_with "/" b = false →
  join (X ++ "/" ++ l) b = X ++ "/" ++ l ++ "/" ++ b.
Proof.
  intros Hl He Hb. rewrite (join_app X ("/" ++ l)); [|done| |done].
  - by rewrite <- app_assoc.
  - etrans; [apply (ends_with_app "/"%char "/" l Hl)|exact He].
Qed.

Lemma ios_name_no_slash f : "/"%char ∉ ios_name f.
Proof.
  unfold ios_name.
  pose proof (no_ext_filename_no_slash _ (basename_no_slash f)) as H.
  destruct (contains "svg/filled" f); [|done].
  rewrite elem_of_app. intros [Hin|Hin]; [|done].
  cbn in Hin. repeat (apply elem_of_cons in Hin as [Hin|Hin]; [discriminate|]).
  by apply elem_of_nil in Hin.
Qed.

Lemma android_name_no_slash f : "/"%char ∉ android_name f.
Proof. apply no_ext_filename_no_slash, basename_no_slash. Qed.

Lemma keeps_ios_body f : keeps (ios_body rasterize (X ++ "/ios") f).
Proof.
  unfold ios_body.
  repeat (apply keeps_bind; [|intros _]);
    apply keeps_inkscape;
    apply (under_xamarin_sub "ios"); try done; apply ios_name_no_slash.
Qed.

Lemma keeps_create_ios_images : keeps (create_ios_images root rasterize).
Proof.
  apply keeps_bind_xamarin. cbv beta zeta. rewrite ios_dir_eq.
  apply keeps_bind; [|intros _].
  { apply keeps_ensure_dir, (under_below X "ios"). }
  apply keeps_bind; [apply keeps_found_files|]. intros l.
  apply keeps_for_each. intros f _. apply keeps_ios_body.
Qed.

Lemma keeps_android_body f :
  keeps (android_body rasterize
           (X ++ "/android/drawable") (X ++ "/android/drawable-hdpi")
           (X ++ "/android/drawable-xhdpi") (X ++ "/android/drawable-xxhdpi")
           (X ++ "/android/drawable-xxxhdpi") f).
Proof.
  unfold android_body.
  repeat (apply keeps_bind; [|intros _]); apply keeps_inkscape.
  - apply (under_xamarin_sub "android/drawable"); try done.
    apply android_name_no_slash.
  - apply (under_xamarin_sub "android/drawable-hdpi"); try done.
    apply android_name_no_slash.
  - apply (under_xamarin_sub "android/drawable-xhdpi"); try done.
    apply android_name_no_slash.
  - apply (under_xamarin_sub "android/drawable-xxhdpi"); try done.
    apply android_name_no_slash.
  - apply (under_xamarin_sub "android/drawable-xxxhdpi"); try done.
    apply android_name_no_slash.
Qed.

Lemma android_bucket_eq b :
  starts_with "/" b = false →
  join (X ++ "/android") b = X ++ "/android/" ++ b.
Proof.
  intros Hb. etrans; [apply (join_workspace "android"); done|]. reflexivity.
Qed.

Lemma keeps_create_android_images :
  keeps (create_android_images root rasterize).
Proof.
  apply keeps_bind_xamarin. cbv beta zeta.
  rewrite android_dir_eq, !android_bucket_eq by done.
  apply keeps_bind; [|intros _].
  { apply keeps_ensure_dir, (under_below X "android"). }
  apply keeps_bind; [|intros _].
  { apply keeps_for_each. intros d Hd. apply keeps_ensure_dir.
    repeat (apply elem_of_cons in Hd as [->|Hd];
            [by apply under_app_rest; right|]).
    by apply elem_of_nil in Hd. }
  apply keeps_bind; [apply keeps_found_files|]. intros l.
  apply keeps_for_each. intros f _. apply keeps_android_body.
Qed.

Lemma keeps_generate_images fill stroke :
  keeps (generate_images root cnames rasterize fill stroke).
Proof.
  unfold generate_images.
  repeat (apply keeps_bind; [apply keeps_lift|intros ?]).
  apply keeps_bind; [apply keeps_cleanup|intros _].
  apply keeps_bind; [apply keeps_copy_svg_to_xamarin|intros _].
  apply keeps_bind; [apply keeps_replace_color_on_svgs|intros _].
  apply keeps_bind; [apply keeps_create_ios_images|intros _].
  apply keeps_create_android_images.
Qed.

Lemma cleanup_run fs : cleanup root fs = (Ok tt, rm_rf X fs).
Proof.
  unfold cleanup. rewrite bind_get_xamarin_directory. cbn [andb].
  destruct (path_exists X fs) eqn:E; [done|]. by rewrite rm_rf_absent.
Qed.

(** With accepted colours the run resets the workspace and carries on. *)
Lemma generate_images_run fill stroke fh sh b comp fs :
  parse_color cnames fill = Ok fh → parse_color cnames stroke = Ok sh →
  color_too_bright cnames fill = Ok b → get_complementary_color fh = Ok comp →
  generate_images root cnames rasterize fill stroke fs
  = (copy_svg_to_xamarin root ;;;
     replace_color_on_svgs root fh sh ;;;
     create_ios_images root rasterize ;;;
     create_android_images root rasterize) (rm_rf X fs).
Proof.
  intros Hf Hs Hb Hc.
  unfold generate_images, bind at 1 2 3 4 5, lift.
  by rewrite Hf, Hs, Hb, Hc, cleanup_run.
Qed.

Lemma generate_images_reset fill stroke fs :
  colours_accepted cnames fill stroke →
  generate_images root cnames rasterize fill stroke fs
  = generate_images root cnames rasterize fill stroke (rm_rf X fs).
Proof.
  intros (fh & sh & b & comp & Hf & Hs & Hb & Hc).
  rewrite !(generate_images_run _ _ _ _ _ _ _ Hf Hs Hb Hc).
  by rewrite (rm_rf_absent _ (rm_rf X fs)) by apply rm_rf_not_exists.
Qed.


(** *** Errors of the colour stage *)

Lemma parse_color_unknown color :
  unknown_name cnames color →
  parse_color cnames color
  = Raise In_parse_color (GenerationError (invalid_color_message cnames color)).
Proof. intros [H1 H2]. unfold parse_color. by rewrite H1, H2. Qed.

Lemma parse_color_known color :
  ¬ unknown_name cnames color → ∃ hex, parse_color cnames color = Ok hex.
Proof.
  intros H. unfold parse_color, unknown_name in *.
  destruct (starts_with "#" color); [eauto|].
  destruct (cnames_get cnames color); [eauto|]. by destruct H.
Qed.

Lemma invalid_color_message_lists color :
  contains color (invalid_color_message cnames color) = true
  ∧ ∀ name, name ∈ cnames.*1 →
            contains name (invalid_color_message cnames color) = true.
Proof.
  unfold invalid_color_message. split.
  - apply contains_middle.
  - intros name Hn. apply (contains_str_join ", ") in Hn.
    apply contains_spec in Hn as (a & b & Hn). apply contains_spec.
    rewrite Hn.
    exists ("Invalid color: " ++ color
            ++ ", not found on matplotlib.colors.cnames"
            ++ ", available colors: " ++ a), b.
    rewrite <- !app_assoc. reflexivity.
Qed.

(** C6: a fill or stroke colour that is a name outside the table makes the
    run raise the invalid-colour error for that name (the fill colour is
    looked at first); the message holds the name and every name of the
    table; and the file system is the one the run started from. *)
Theorem invalid_color_aborts fill stroke fs :
  unknown_name cnames fill ∨ unknown_name cnames stroke →
  ∃ color,
    (color = fill ∨ color = stroke)
    ∧ unknown_name cnames color
    ∧ generate_images root cnames rasterize fill stroke fs
      = (Raise In_parse_color
           (GenerationError (invalid_color_message cnames color)), fs)
    ∧ contains color (invalid_color_message cnames color) = true
    ∧ ∀ name, name ∈ cnames.*1 →
              contains name (invalid_color_message cnames color) = true.
Proof.
  intros H.
  assert (Decision (unknown_name cnames fill)) as [Hf|Hf]
    by (unfold unknown_name; apply _).
  - exists fill. split; [by left|]. split; [exact Hf|].
    split; [|apply invalid_color_message_lists].
    unfold generate_images, bind, lift.
    rewrite (parse_color_unknown _ Hf). reflexivity.
  - destruct H as [Hf'|Hs]; [by destruct Hf|].
    exists stroke. split; [by right|]. split; [exact Hs|].
    split; [|apply invalid_color_message_lists].
    destruct (parse_color_known _ Hf) as [hex Hhex].
    unfold generate_images, bind, lift.
    rewrite Hhex, (parse_color_unknown _ Hs). reflexivity.
Qed.


(** *** Recolouring the workspace *)

Lemma replace_color_on_svgs_lookup
    (fill_hex stroke_hex : text) (fs : gmap text node) :
  sed_literal fill_hex = true → sed_literal stroke_hex = true →
  path_exists (join X "svg") fs = true →
  (∀ p, is_Some (fs !! p) → under (join X "svg") p = true →
        svg_glob p = true → ∃ c, fs !! p = Some (File c)) →
  ∃ fs',
    replace_color_on_svgs root fill_hex stroke_hex fs = (Ok tt, fs')
    ∧ ∀ p, fs' !! p =
           if under (join X "svg") p && svg_glob p
           then edit_file (recolored fill_hex stroke_hex) <$> fs !! p
           else fs !! p.
Proof.
  intros Hf Hs Hdir Hfiles.
  unfold replace_color_on_svgs. rewrite bind_get_xamarin_directory.
  assert (path_exists X fs = true) as ->.
  { eapply path_exists_above; [|exact Hdir]. rewrite svg_dir_eq.
    apply (under_below X "svg"). }
  cbn [andb negb]. cbv zeta.
  set (dir := join X "svg") in *.
  destruct (find_exec_sed_spec In_replace_color_on_svgs dir fill_black
              ("fill=" ++ DQ :: fill_hex ++ [DQ]) fs)
    as (fs1 & Hrun1 & Hfs1); [by apply sed_literal_attribute|done|done|].
  assert (∀ p, is_Some (fs1 !! p) ↔ is_Some (fs !! p)) as Hsame.
  { intros p. rewrite Hfs1. destruct (under dir p && svg_glob p); [|done].
    by rewrite fmap_is_Some. }
  destruct (find_exec_sed_spec In_replace_color_on_svgs dir stroke_black
              ("stroke=" ++ DQ :: stroke_hex ++ [DQ]) fs1)
    as (fs2 & Hrun2 & Hfs2); [by apply sed_literal_attribute| | |].
  { apply path_exists_spec in Hdir as (k & Hk & Hu).
    apply path_exists_spec. exists k. by rewrite Hsame. }
  { intros p Hp Hu Hg. rewrite Hfs1, Hu, Hg. cbn [andb].
    destruct (Hfiles p) as [c ->]; [by apply Hsame|done|done|].
    cbn. eauto. }
  exists fs2. unfold bind. rewrite Hrun1, Hrun2. split; [done|].
  intros p. rewrite Hfs2, Hfs1.
  destruct (under dir p && svg_glob p); [|done].
  by destruct (fs !! p) as [[|c]|].
Qed.


(** *** Output names *)

Lemma basename_in_workspace d f :
  "/"%char ∉ f → basename (X ++ d ++ "/" ++ f) = f.
Proof. intros Hf. rewrite app_assoc. by apply basename_app. Qed.

Lemma filled_marker_from_root k :
  no_span "svg/filled" ("xamarin" ++ k) = true →
  contains "svg/filled" ("xamarin" ++ k) = false →
  no_span "svg/filled" ("/xamarin" ++ k) = true →
  contains "svg/filled" ("/xamarin" ++ k) = false →
  contains "svg/filled" (X ++ k) = contains "svg/filled" root.
Proof.
  intros. rewrite xamarin_path_eq, <- app_assoc.
  by apply contains_from_root.
Qed.



(** For an icon in [svg/filled/] the iOS exporter names its files
    [filled_star], and the Android exporter names them [star], the name it
    also gives to [svg/outline/star.svg]. *)
Lemma android_name_has_no_filled_prefix :
  ios_name (join (join X "svg") "filled/star.svg") = "filled_star"
  ∧ android_name (join (join X "svg") "filled/star.svg") = "star"
  ∧ android_name (join (join X "svg") "outline/star.svg") = "star".
Proof.
  rewrite svg_dir_eq, !(join_app X "/svg") by done.
  change (X ++ "/svg" ++ "/" ++ "filled/star.svg")
    with (X ++ "/svg/filled" ++ "/" ++ "star.svg").
  change (X ++ "/svg" ++ "/" ++ "outline/star.svg")
    with (X ++ "/svg/outline" ++ "/" ++ "star.svg").
  assert ("/"%char ∉ ("star.svg" : text)) as Hstar.
  { intros H. cbn in H.
    repeat (apply elem_of_cons in H as [H|H]; [discriminate H|]).
    by apply elem_of_nil in H. }
  unfold ios_name, android_name. rewrite !basename_in_workspace by done.
  split; [|split; reflexivity].
  change (X ++ "/svg/filled" ++ "/" ++ "star.svg")
    with (X ++ "/" ++ "svg/filled" ++ "/star.svg").
  rewrite (app_assoc X), contains_middle. reflexivity.
Qed.

(** *** One icon, end to end *)

Section OneIcon.
Hypothesis root_clean : clean_root root = true.

Lemma root_facts :
  starts_with "/" root = true ∧ (LF ∉ root)
  ∧ contains "svg/filled" root = false.
Proof using root_clean.
  unfold clean_root in root_clean.
  apply andb_true_iff in root_clean as [H12 H3].
  apply andb_true_iff in H12 as [H1 H2].
  split; [done|]. split; [|by apply negb_true_iff].
  rewrite forallb_forall in H2. intros Hin.
  apply list_elem_of_In, H2 in Hin. by rewrite Ascii.eqb_refl in Hin.
Qed.

Lemma svg_src_eq : join root "svg" = R ++ "svg".
Proof. by rewrite join_with_sep. Qed.

Lemma icon_src_eq :
  join (join root "svg") "icon-one.svg" = R ++ "svg/icon-one.svg".
Proof. rewrite svg_src_eq, join_app by done. reflexivity. Qed.

Lemma X_starts_with_slash : starts_with "/" X = true.
Proof using root_clean.
  destruct root_facts as (H & _). rewrite xamarin_path_eq.
  apply starts_with_app_l.
  destruct (with_sep_cases root) as [->| ->]; [done|].
  by apply starts_with_app_l.
Qed.

Lemma X_no_line_feed k : LF ∉ k → LF ∉ (X ++ k).
Proof using root_clean.
  destruct root_facts as (_ & H & _). intros Hk.
  rewrite xamarin_path_eq, !elem_of_app.
  intros [[[?|?]%elem_of_with_sep|Hx]|?]; try done.
  cbn in Hx. repeat (apply elem_of_cons in Hx as [Hx|Hx]; [discriminate Hx|]).
  by apply elem_of_nil in Hx.
Qed.

(** A path of the source tree is not in the workspace. *)
Lemma src_outside rest :
  under X (R ++ "svg" ++ rest) = false ∧ R ++ "svg" ++ rest ≠ X.
Proof.
  rewrite xamarin_path_eq. split.
  - rewrite under_pp. reflexivity.
  - intros H%app_inv_head. discriminate H.
Qed.

Lemma svg_glob_below d r : svg_glob (d ++ "/" ++ r) = svg_glob ("/" ++ r).
Proof. unfold svg_glob. by rewrite basename_below. Qed.

Lemma copy_one_icon (c : text) (fs : gmap text node) :
  only_svg (join root "svg") (join (join root "svg") "icon-one.svg") c fs →
  ∃ fs2, copy_svg_to_xamarin root (rm_rf X fs) = (Ok tt, fs2)
         ∧ only_svg (X ++ "/svg") (X ++ "/svg/icon-one.svg") c fs2
         ∧ bare_workspace root fs2.
Proof.
  rewrite icon_src_eq, svg_src_eq. intros [Hicon Honly].
  unfold copy_svg_to_xamarin. rewrite bind_get_xamarin_directory.
  rewrite rm_rf_not_exists. cbn [andb negb]. unfold makedirs.
  rewrite svg_src_eq.
  set (fs1 := <[X := Dir]> (rm_rf X fs)).
  assert (Hfs1 : ∀ rest, fs1 !! (R ++ "svg" ++ rest) = fs !! (R ++ "svg" ++ rest)).
  { intros rest. destruct (src_outside rest) as [Hu Hne]. unfold fs1.
    rewrite lookup_insert_ne by done. by rewrite rm_rf_lookup, Hu. }
  assert (Hin : ∀ p, under X p = true → p ≠ X → fs1 !! p = None).
  { intros p Hu Hne. unfold fs1. rewrite lookup_insert_ne by done.
    by rewrite rm_rf_lookup, Hu. }
  assert (Htarget : cp_target (R ++ "svg") X fs1 = X ++ "/svg").
  { unfold cp_target.
    rewrite (path_exists_lookup X fs1 Dir) by apply lookup_insert_eq.
    rewrite basename_with_sep; [apply svg_dir_eq|].
    intros H. cbn in H.
    repeat (apply elem_of_cons in H as [H|H]; [discriminate H|]).
    by apply elem_of_nil in H. }
  destruct (cp_r (R ++ "svg") X fs1) as [fs2|] eqn:E.
  2:{ exfalso. unfold cp_r in E.
      assert (path_exists (R ++ "svg") fs1 = true) as Hex.
      { apply path_exists_spec. exists (R ++ "svg/icon-one.svg"). split.
        - change (R ++ "svg/icon-one.svg")
            with (R ++ "svg" ++ "/icon-one.svg").
          rewrite Hfs1. change (R ++ "svg" ++ "/icon-one.svg")
            with (R ++ "svg/icon-one.svg"). rewrite Hicon. eauto.
        - by rewrite under_pp. }
      by rewrite Hex in E. }
  pose proof (λ q, cp_r_lookup _ _ _ _ q E) as Hcp. rewrite Htarget in Hcp.
  exists fs2. split; [done|]. split; [split|split].
  - rewrite Hcp. rewrite under_pp.
    change (under "/svg" "/svg/icon-one.svg") with true. cbv iota.
    change (X ++ "/svg/icon-one.svg") with (X ++ "/svg" ++ "/icon-one.svg").
    rewrite app_assoc, drop_app_length, <- (app_assoc R).
    rewrite (Hfs1 "/icon-one.svg"). change (R ++ "svg" ++ "/icon-one.svg")
      with (R ++ "svg/icon-one.svg"). by rewrite Hicon.
  - intros p Hp Hu Hg. rewrite Hcp, Hu in Hp.
    destruct (under_rest _ _ Hu) as [Hprest Hrest].
    set (rest := drop (length (X ++ "/svg")) p) in *.
    destruct (fs1 !! ((R ++ "svg") ++ rest)) as [n|] eqn:En.
    + rewrite <- app_assoc, Hfs1 in En.
      assert (rest = "/icon-one.svg") as Hr.
      { destruct Hrest as [Hr|[r Hr]%starts_with_spec].
        - rewrite Hr, app_nil_r in Hprest. rewrite Hprest in Hg.
          change (X ++ "/svg") with (X ++ "/" ++ "svg") in Hg.
          rewrite svg_glob_below in Hg. discriminate Hg.
        - apply (app_inv_head (R ++ "svg")). rewrite <- !app_assoc.
          apply Honly.
          + rewrite En. eauto.
          + rewrite app_assoc. apply under_app_rest. right. rewrite Hr.
            apply starts_with_app.
          + rewrite Hr, app_assoc, svg_glob_below.
            rewrite Hprest, Hr, svg_glob_below in Hg. done. }
      rewrite Hprest, Hr. by rewrite <- app_assoc.
    + rewrite Hin in Hp; [by destruct Hp| |].
      * eapply under_trans; [|exact Hu]. apply (under_below X "svg").
      * intros ->. rewrite under_px in Hu. discriminate Hu.
  - rewrite Hcp, under_px. change (under "/svg" []) with false. cbv iota.
    apply lookup_insert_eq.
  - intros p Hu Hnsvg Hne. rewrite Hcp, Hnsvg. by apply Hin.
Qed.

Lemma icon_in_svg :
  under (X ++ "/svg") (X ++ "/svg/icon-one.svg") = true
  ∧ svg_glob (X ++ "/svg/icon-one.svg") = true.
Proof.
  split; [by rewrite under_pp|].
  change (X ++ "/svg/icon-one.svg") with (X ++ "/svg" ++ "/" ++ "icon-one.svg").
  by rewrite app_assoc, svg_glob_below.
Qed.

Lemma only_svg_exists (c : text) (fs : gmap text node) :
  only_svg (X ++ "/svg") (X ++ "/svg/icon-one.svg") c fs →
  path_exists (X ++ "/svg") fs = true.
Proof.
  intros [Hicon _]. apply path_exists_spec.
  exists (X ++ "/svg/icon-one.svg"). rewrite Hicon.
  split; [eauto|apply icon_in_svg].
Qed.

Lemma recolor_one_icon (fh sh c : text) (fs2 : gmap text node) :
  sed_literal fh = true → sed_literal sh = true →
  only_svg (X ++ "/svg") (X ++ "/svg/icon-one.svg") c fs2 →
  bare_workspace root fs2 →
  ∃ fs3, replace_color_on_svgs root fh sh fs2 = (Ok tt, fs3)
         ∧ only_svg (X ++ "/svg") (X ++ "/svg/icon-one.svg")
             (recolored fh sh c) fs3
         ∧ bare_workspace root fs3.
Proof.
  intros Hfh Hsh Honly [HX Hbare].
  pose proof Honly as [Hicon Hone]. destruct icon_in_svg as [Hu Hg].
  destruct (replace_color_on_svgs_lookup fh sh fs2)
    as (fs3 & Hrun & Hfs3); [done|done| | |].
  { rewrite svg_dir_eq. by eapply only_svg_exists. }
  { rewrite svg_dir_eq. intros p Hp Hup Hgp.
    rewrite (Hone p Hp Hup Hgp). eauto. }
  rewrite svg_dir_eq in Hfs3.
  exists fs3. split; [done|]. split; [split|split].
  - by rewrite Hfs3, Hu, Hg, Hicon.
  - intros p Hp Hup Hgp. apply Hone; [|done|done].
    rewrite Hfs3, Hup, Hgp in Hp. cbn [andb] in Hp.
    by apply fmap_is_Some in Hp.
  - rewrite Hfs3, under_px. exact HX.
  - intros p Hup Hnsvg Hne. rewrite Hfs3, Hnsvg. by apply Hbare.
Qed.

Lemma found_one_icon (o : origin) (c : text) (fs : gmap text node) :
  only_svg (X ++ "/svg") (X ++ "/svg/icon-one.svg") c fs →
  found_files o (X ++ "/svg") fs = (Ok [X ++ "/svg/icon-one.svg"], fs).
Proof using root_clean.
  intros Honly. pose proof Honly as [Hicon Hone].
  destruct icon_in_svg as [Hu Hg]. unfold found_files.
  destruct (find_svg_exists _ _ (only_svg_exists _ _ Honly)) as [ps Hps].
  rewrite Hps. destruct (find_svg_spec _ _ _ Hps) as [Hnd Hin].
  assert (ps = [X ++ "/svg/icon-one.svg"]) as ->.
  { apply NoDup_only; [done|]. intros y. rewrite Hin. split.
    - intros (? & ? & ?). by apply Hone.
    - intros ->. rewrite Hicon. eauto. }
  cbn [List.map concat]. rewrite app_nil_r. unfold lines.
  rewrite lines_go_line.
  2:{ apply X_no_line_feed. intros H. cbn in H.
      repeat (apply elem_of_cons in H as [H|H]; [discriminate H|]).
      by apply elem_of_nil in H. }
  cbn [rev app List.filter].
  rewrite bool_decide_eq_false_2 by (by intros [_ ?]%app_eq_nil).
  cbn [negb List.map].
  change (X ++ "/svg/icon-one.svg") with (X ++ "/svg/icon-one.sv" ++ ["g"%char]).
  rewrite <- !app_assoc.
  rewrite (py_strip_path X "/svg/icon-one.sv" "g"); [done| |done].
  apply X_starts_with_slash.
Qed.

Lemma ensure_dir_new (d : text) (fs : gmap text node) :
  path_exists d fs = false → ensure_dir d fs = (Ok tt, <[d := Dir]> fs).
Proof. intros H. unfold ensure_dir. by rewrite H. Qed.

Lemma inkscape_run (o : origin) (w h : Z) (src out svg data : text)
    (fs : gmap text node) :
  fs !! src = Some (File svg) → rasterize w h svg = Some data →
  inkscape rasterize o w h src out fs = (Ok tt, <[out := File data]> fs).
Proof. intros H1 H2. unfold inkscape. by rewrite H1, H2. Qed.

Lemma ios_name_icon : ios_name (X ++ "/svg/icon-one.svg") = "icon_one".
Proof using root_clean.
  destruct root_facts as (_ & _ & Hf). unfold ios_name.
  rewrite filled_marker_from_root, Hf by reflexivity.
  change (X ++ "/svg/icon-one.svg") with (X ++ "/svg" ++ "/" ++ "icon-one.svg").
  rewrite basename_in_workspace; [reflexivity|].
  intros H. cbn in H.
  repeat (apply elem_of_cons in H as [H|H]; [discriminate H|]).
  by apply elem_of_nil in H.
Qed.

Lemma android_name_icon : android_name (X ++ "/svg/icon-one.svg") = "icon_one".
Proof.
  unfold android_name.
  change (X ++ "/svg/icon-one.svg") with (X ++ "/svg" ++ "/" ++ "icon-one.svg").
  rewrite basename_in_workspace; [reflexivity|].
  intros H. cbn in H.
  repeat (apply elem_of_cons in H as [H|H]; [discriminate H|]).
  by apply elem_of_nil in H.
Qed.

Lemma path_exists_insert_false (d k : text) (n : node) (fs : gmap text node) :
  path_exists d fs = false → under d k = false →
  path_exists d (<[k := n]> fs) = false.
Proof.
  rewrite !path_exists_false. intros H Hk q Hq.
  rewrite lookup_insert_ne; [by apply H|]. intros ->. congruence.
Qed.

Lemma bare_absent (a : text) (fs : gmap text node) :
  bare_workspace root fs →
  under [] a = true → under a [] = false →
  under "/svg" a = false → under a "/svg" = false →
  path_exists (X ++ a) fs = false.
Proof.
  intros [_ Hbare] H1 H2 H3 H4. apply path_exists_false. intros k Hk.
  apply Hbare.
  - eapply under_trans; [|exact Hk]. by rewrite under_xp.
  - eapply under_apart; [| |exact Hk]; by rewrite under_pp.
  - intros ->. rewrite under_px in Hk. congruence.
Qed.

Lemma ios_one_icon (c' d1 d2 d3 : text) (fs3 : gmap text node) :
  only_svg (X ++ "/svg") (X ++ "/svg/icon-one.svg") c' fs3 →
  bare_workspace root fs3 →
  rasterize 24 24 c' = Some d1 → rasterize 48 48 c' = Some d2 →
  rasterize 72 72 c' = Some d3 →
  create_ios_images root rasterize fs3
  = (Ok tt,
     <[X ++ "/ios/icon_one@3x.png" := File d3]>
       (<[X ++ "/ios/icon_one@2x.png" := File d2]>
          (<[X ++ "/ios/icon_one.png" := File d1]>
             (<[X ++ "/ios" := Dir]> fs3)))).
Proof using root_clean.
  intros Honly Hbare H1 H2 H3. pose proof Hbare as [HX _].
  unfold create_ios_images. rewrite bind_get_xamarin_directory.
  rewrite (path_exists_lookup _ _ _ HX). cbn [andb negb]. cbv zeta.
  rewrite ios_dir_eq, svg_dir_eq.
  unfold bind at 1. rewrite ensure_dir_new by (by apply bare_absent).
  unfold bind at 1. rewrite (found_one_icon _ c').
  2:{ apply only_svg_insert; [path_ne|by rewrite under_pp|done]. }
  cbn [for_each]. unfold ios_body. rewrite ios_name_icon.
  rewrite !(join_app X "/ios") by done.
  change (X ++ "/ios" ++ "/" ++ "icon_one" ++ ".png")
    with (X ++ "/ios/icon_one.png").
  change (X ++ "/ios" ++ "/" ++ "icon_one" ++ "@2x.png")
    with (X ++ "/ios/icon_one@2x.png").
  change (X ++ "/ios" ++ "/" ++ "icon_one" ++ "@3x.png")
    with (X ++ "/ios/icon_one@3x.png").
  destruct Honly as [Hicon _].
  unfold bind at 1. unfold bind at 1.
  rewrite (inkscape_run _ _ _ _ _ c' d1);
    [|by rewrite lookup_insert_ne by path_ne|done].
  unfold bind at 1.
  rewrite (inkscape_run _ _ _ _ _ c' d2);
    [|by rewrite !lookup_insert_ne by path_ne|done].
  rewrite (inkscape_run _ _ _ _ _ c' d3);
    [|by rewrite !lookup_insert_ne by path_ne|done].
  reflexivity.
Qed.

Lemma android_one_icon (c' d1 d2 d3 d4 d5 : text) (fs : gmap text node) :
  only_svg (X ++ "/svg") (X ++ "/svg/icon-one.svg") c' fs →
  fs !! X = Some Dir →
  path_exists (X ++ "/android") fs = false →
  rasterize 60 60 c' = Some d1 → rasterize 48 48 c' = Some d2 →
  rasterize 64 64 c' = Some d3 → rasterize 96 96 c' = Some d4 →
  rasterize 128 128 c' = Some d5 →
  create_android_images root rasterize fs
  = (Ok tt,
     <[X ++ "/android/drawable-xxxhdpi/icon_one.png" := File d5]>
       (<[X ++ "/android/drawable-xxhdpi/icon_one.png" := File d4]>
          (<[X ++ "/android/drawable-xhdpi/icon_one.png" := File d3]>
             (<[X ++ "/android/drawable-hdpi/icon_one.png" := File d2]>
                (<[X ++ "/android/drawable/icon_one.png" := File d1]>
                   (<[X ++ "/android/drawable-xxxhdpi" := Dir]>
                      (<[X ++ "/android/drawable-xxhdpi" := Dir]>
                         (<[X ++ "/android/drawable-xhdpi" := Dir]>
                            (<[X ++ "/android/drawable-hdpi" := Dir]>
                               (<[X ++ "/android/drawable" := Dir]>
                                  (<[X ++ "/android" := Dir]> fs))))))))))).
Proof using root_clean.
  intros Honly HX Habsent H1 H2 H3 H4 H5.
  assert (∀ a, under "/android" a = true →
               path_exists (X ++ a) fs = false) as Hsub.
  { intros a Ha. apply path_exists_false. intros k Hk.
    apply (proj1 (path_exists_false _ _) Habsent).
    eapply under_trans; [|exact Hk]. by rewrite under_pp. }
  unfold create_android_images. rewrite bind_get_xamarin_directory.
  rewrite (path_exists_lookup _ _ _ HX). cbn [andb negb]. cbv zeta.
  rewrite android_dir_eq, svg_dir_eq, !android_bucket_eq by done.
  change (X ++ "/android/" ++ "drawable") with (X ++ "/android/drawable").
  change (X ++ "/android/" ++ "drawable-hdpi")
    with (X ++ "/android/drawable-hdpi").
  change (X ++ "/android/" ++ "drawable-xhdpi")
    with (X ++ "/android/drawable-xhdpi").
  change (X ++ "/android/" ++ "drawable-xxhdpi")
    with (X ++ "/android/drawable-xxhdpi").
  change (X ++ "/android/" ++ "drawable-xxxhdpi")
    with (X ++ "/android/drawable-xxxhdpi").
  unfold bind at 1. rewrite ensure_dir_new by done.
  unfold bind at 1. cbn [for_each].
  unfold bind at 1. rewrite ensure_dir_new
    by (apply path_exists_insert_false; [by apply Hsub|by rewrite under_pp]).
  unfold bind at 1. rewrite ensure_dir_new
    by (repeat (apply path_exists_insert_false; [|by rewrite under_pp]);
        by apply Hsub).
  unfold bind at 1. rewrite ensure_dir_new
    by (repeat (apply path_exists_insert_false; [|by rewrite under_pp]);
        by apply Hsub).
  unfold bind at 1. rewrite ensure_dir_new
    by (repeat (apply path_exists_insert_false; [|by rewrite under_pp]);
        by apply Hsub).
  unfold bind at 1. rewrite ensure_dir_new
    by (repeat (apply path_exists_insert_false; [|by rewrite under_pp]);
        by apply Hsub).
  unfold ret. unfold bind at 1. rewrite (found_one_icon _ c').
  2:{ repeat (apply only_svg_insert; [path_ne|by rewrite under_pp|]). done. }
  cbn [for_each]. unfold android_body. rewrite android_name_icon.
  rewrite (join_app X "/android/drawable"),
    (join_app X "/android/drawable-hdpi"),
    (join_app X "/android/drawable-xhdpi"),
    (join_app X "/android/drawable-xxhdpi"),
    (join_app X "/android/drawable-xxxhdpi") by done.
  change (X ++ "/android/drawable" ++ "/" ++ "icon_one" ++ ".png")
    with (X ++ "/android/drawable/icon_one.png").
  change (X ++ "/android/drawable-hdpi" ++ "/" ++ "icon_one" ++ ".png")
    with (X ++ "/android/drawable-hdpi/icon_one.png").
  change (X ++ "/android/drawable-xhdpi" ++ "/" ++ "icon_one" ++ ".png")
    with (X ++ "/android/drawable-xhdpi/icon_one.png").
  change (X ++ "/android/drawable-xxhdpi" ++ "/" ++ "icon_one" ++ ".png")
    with (X ++ "/android/drawable-xxhdpi/icon_one.png").
  change (X ++ "/android/drawable-xxxhdpi" ++ "/" ++ "icon_one" ++ ".png")
    with (X ++ "/android/drawable-xxxhdpi/icon_one.png").
  destruct Honly as [Hicon _].
  unfold bind at 1. unfold bind at 1.
  rewrite (inkscape_run _ _ _ _ _ c' d1);
    [|by rewrite !lookup_insert_ne by path_ne|done].
  unfold bind at 1.
  rewrite (inkscape_run _ _ _ _ _ c' d2);
    [|by rewrite !lookup_insert_ne by path_ne|done].
  unfold bind at 1.
  rewrite (inkscape_run _ _ _ _ _ c' d3);
    [|by rewrite !lookup_insert_ne by path_ne|done].
  unfold bind at 1.
  rewrite (inkscape_run _ _ _ _ _ c' d4);
    [|by rewrite !lookup_insert_ne by path_ne|done].
  rewrite (inkscape_run _ _ _ _ _ c' d5);
    [|by rewrite !lookup_insert_ne by path_ne|done].
  reflexivity.
Qed.


End OneIcon.

End Properties.

(** ** Instances on the sample data *)

Lemma complement_twice_upper_witness :
  rbind (get_complementary_color "#1a2B3c") get_complementary_color
  = Ok ("#1A2B3C" : text).
Proof. apply (complement_twice_upper "1a2B3c"); reflexivity. Defined.

(** C4, as stated, fails on a lower-case colour. *)
Lemma complement_twice_lowercase :
  rbind (get_complementary_color "#abcdef") get_complementary_color
  = Ok ("#ABCDEF" : text)
  ∧ rbind (get_complementary_color "#abcdef") get_complementary_color
    ≠ Ok ("#abcdef" : text).
Proof. split; [reflexivity|]. vm_compute. discriminate. Qed.

Lemma invalid_color_aborts_witness :
  ∃ color,
    (color = ("magentaish" : text) ∨ color = ("black" : text))
    ∧ unknown_name Sample.cnames color
    ∧ generate_images Sample.root Sample.cnames Sample.rasterize
        "magentaish" "black" Sample.one_icon
      = (Raise In_parse_color
           (GenerationError (invalid_color_message Sample.cnames color)),
         Sample.one_icon)
    ∧ contains color (invalid_color_message Sample.cnames color) = true
    ∧ ∀ name, name ∈ Sample.cnames.*1 →
              contains name (invalid_color_message Sample.cnames color) = true.
Proof.
  apply (invalid_color_aborts Sample.root Sample.cnames Sample.rasterize
           "magentaish" "black" Sample.one_icon).
  left. split; reflexivity.
Defined.




Lemma lookup_list_to_map_inv (l : list (text * node)) (p : text) :
  is_Some ((list_to_map l : gmap text node) !! p) → p ∈ l.*1.
Proof.
  intros [n Hn]. apply elem_of_list_to_map_2 in Hn.
  apply list_elem_of_fmap. by exists (p, n).
Qed.

Lemma sample_one_icon :
  only_svg (join Sample.root "svg")
    (join (join Sample.root "svg") "icon-one.svg") Sample.icon Sample.one_icon.
Proof.
  split; [reflexivity|]. intros p Hp Hu Hg.
  apply lookup_list_to_map_inv in Hp. cbn [fmap list_fmap fst] in Hp.
  repeat (apply elem_of_cons in Hp as [->|Hp];
          [first [reflexivity|discriminate Hu|discriminate Hg]|]).
  by apply elem_of_nil in Hp.
Qed.


Lemma sample_workspace_files (p : text) :
  is_Some (Sample.workspace !! p) →
  under (join (xamarin_path Sample.root) "svg") p = true →
  svg_glob p = true → ∃ c, Sample.workspace !! p = Some (File c).
Proof.
  intros Hp Hu Hg.
  apply lookup_list_to_map_inv in Hp. cbn [fmap list_fmap fst] in Hp.
  repeat (apply elem_of_cons in Hp as [->|Hp];
          [first [discriminate Hu|discriminate Hg
                 |eexists; vm_compute; reflexivity]|]).
  by apply elem_of_nil in Hp.
Qed.



(** C2, end to end on the failing input: a tree with [svg/filled/star.svg]
    and [svg/outline/star.svg]. The run writes [filled_star.png] and
    [star.png] for iOS, and for Android one [star.png] per bucket and no
    [filled_star.png]. *)
Theorem android_filled_icon_unprefixed :
  (∀ root,
      ios_name (join (join (xamarin_path root) "svg") "filled/star.svg")
      = "filled_star"
      ∧ android_name (join (join (xamarin_path root) "svg") "filled/star.svg")
        = "star"
      ∧ android_name (join (join (xamarin_path root) "svg") "outline/star.svg")
        = "star")
  ∧ let fs' := (generate_images Sample.root Sample.cnames Sample.rasterize
                  "red" "black" Sample.two_stars).2 in
    is_Some (fs' !! (xamarin_path Sample.root ++ "/ios/filled_star.png"))
    ∧ is_Some (fs' !! (xamarin_path Sample.root ++ "/ios/star.png"))
    ∧ is_Some (fs' !! (xamarin_path Sample.root ++ "/android/drawable/star.png"))
    ∧ fs' !! (xamarin_path Sample.root ++ "/android/drawable/filled_star.png")
      = None.
Proof.
  split; [apply android_name_has_no_filled_prefix|].
  vm_compute. repeat split; by eexists.
Qed.

(** * Further properties *)

(** ** Colours *)

Section ColourNames.
Variable root : text.
Variable cnames : list (text * text).
Variable rasterize : Z → Z → text → option text.

(** *** Colour names and their codes *)

Lemma cnames_get_elem (color hex : text) :
  cnames_get cnames color = Some hex → (color, hex) ∈ cnames.
Proof.
  unfold cnames_get.
  destruct (List.find _ cnames) as [[k v]|] eqn:E; [|done].
  intros [= <-]. apply find_some in E as [Hin Hk].
  apply bool_decide_eq_true in Hk. simpl in Hk. subst k.
  by apply list_elem_of_In.
Qed.

Lemma parse_color_starts_with_hash (color hex : text) :
  (∀ name code, (name, code) ∈ cnames → starts_with "#" code = true) →
  parse_color cnames color = Ok hex → starts_with "#" hex = true.
Proof.
  intros Htable. unfold parse_color.
  destruct (starts_with "#" color) eqn:E; [by intros [= <-]|].
  destruct (cnames_get cnames color) as [code|] eqn:Eg; [|done].
  intros [= <-]. eapply Htable, cnames_get_elem, Eg.
Qed.

Lemma color_too_bright_parse (color hex : text) :
  parse_color cnames color = Ok hex → parse_color cnames hex = Ok hex →
  color_too_bright cnames color = color_too_bright cnames hex.
Proof. intros H1 H2. unfold color_too_bright. by rewrite H1, H2. Qed.

(** X1: when every code of the colour table starts with a hash sign, a
    colour name stands for its code: the code resolves to itself, the
    brightness test gives the same answer for the name and for the code, and
    a run with the two names is the run with the two codes. *)
Theorem named_color_as_hex (fill stroke fill_hex stroke_hex : text)
    (fs : gmap text node) :
  (∀ name code, (name, code) ∈ cnames → starts_with "#" code = true) →
  parse_color cnames fill = Ok fill_hex →
  parse_color cnames stroke = Ok stroke_hex →
  parse_color cnames fill_hex = Ok fill_hex
  ∧ color_too_bright cnames fill = color_too_bright cnames fill_hex
  ∧ generate_images root cnames rasterize fill stroke fs
    = generate_images root cnames rasterize fill_hex stroke_hex fs.
Proof.
  intros Htable Hf Hs.
  pose proof (parse_color_hash cnames _
                (parse_color_starts_with_hash _ _ Htable Hf)) as Hf'.
  pose proof (parse_color_hash cnames _
                (parse_color_starts_with_hash _ _ Htable Hs)) as Hs'.
  pose proof (color_too_bright_parse _ _ Hf Hf') as Hb.
  split; [exact Hf'|]. split; [exact Hb|].
  unfold generate_images, bind at 1 2 3 4 5 6 7 8, lift.
  rewrite Hf, Hs, Hf', Hs', Hb. reflexivity.
Qed.

End ColourNames.

(** ** Bytes of a colour *)

Lemma hexval_app (a b : text) :
  hexval (a ++ b) = (hexval a * 16 ^ Z.of_nat (length b) + hexval b)%Z.
Proof.
  induction b as [|c b IH] using rev_ind.
  - rewrite app_nil_r. cbn. lia.
  - rewrite app_assoc, !hexval_snoc, IH, length_app, Nat.add_1_r.
    rewrite Nat2Z.inj_succ, Z.pow_succ_r by lia. lia.
Qed.

Lemma ascii_upper_hex_digit_upper (d : Z) :
  (0 ≤ d < 16)%Z → ascii_upper (hex_digit_upper d) = hex_digit_upper d.
Proof.
  intros H.
  assert (d ∈ [0;1;2;3;4;5;6;7;8;9;10;11;12;13;14;15]%Z) as Hd.
  { rewrite !elem_of_cons. lia. }
  repeat (apply elem_of_cons in Hd as [->|Hd]; [reflexivity|]).
  by apply elem_of_nil in Hd.
Qed.

Lemma ascii_upper_hex_fixed (k : nat) (n : Z) :
  ascii_upper <$> hex_fixed k n = hex_fixed k n.
Proof.
  revert n. induction k as [|k IH]; intros n; [done|].
  cbn [hex_fixed]. rewrite fmap_app, IH. cbn.
  rewrite ascii_upper_hex_digit_upper; [done|]. apply Z.mod_pos_bound. lia.
Qed.

(** Three bytes, two digits each, are the six digits of the number they
    make up. *)
Lemma hex_fixed_bytes (r g b : Z) :
  (0 ≤ r < 256)%Z → (0 ≤ g < 256)%Z → (0 ≤ b < 256)%Z →
  hex_fixed 6 (65536 * r + 256 * g + b)
  = hex_fixed 2 r ++ hex_fixed 2 g ++ hex_fixed 2 b.
Proof.
  intros Hr Hg Hb.
  set (ds := hex_fixed 2 r ++ hex_fixed 2 g ++ hex_fixed 2 b).
  assert (length ds = 6) as Hlen.
  { unfold ds. by rewrite !length_app, !hex_fixed_length. }
  assert (forallb is_hex_digit ds = true) as Hds.
  { unfold ds. rewrite !forallb_app, !hex_fixed_is_hex by lia. done. }
  assert (hexval ds = (65536 * r + 256 * g + b)%Z) as Hv.
  { unfold ds. rewrite !hexval_app, !length_app, !hex_fixed_length.
    rewrite !hexval_hex_fixed by (change (16 ^ Z.of_nat 2)%Z with 256%Z; lia).
    change (16 ^ Z.of_nat (2 + 2))%Z with 65536%Z.
    change (16 ^ Z.of_nat 2)%Z with 256%Z. lia. }
  rewrite <- Hv, <- Hlen, hex_fixed_hexval by done.
  unfold ds. by rewrite !fmap_app, !ascii_upper_hex_fixed.
Qed.

Lemma lxor_ffffff_sub (v : Z) :
  (0 ≤ v < 16 ^ 6)%Z → Z.lxor 16777215 v = (16777215 - v)%Z.
Proof.
  intros Hv.
  assert (Z.land v (Z.lxor 16777215 v) = 0%Z) as Hland.
  { apply Z.bits_inj'. intros n Hn.
    rewrite Z.land_spec, Z.lxor_spec, Z.bits_0.
    change 16777215%Z with (Z.ones 24).
    destruct (Z.lt_ge_cases n 24) as [Hlt|Hge].
    - rewrite Z.ones_spec_low by lia. by destruct (Z.testbit v n).
    - destruct (decide (v = 0%Z)) as [->|Hne]; [by rewrite Z.bits_0|].
      rewrite (Z.bits_above_log2 v n); [done|lia|].
      eapply Z.lt_le_trans; [|exact Hge].
      apply Z.log2_lt_pow2; [lia|]. change (2 ^ 24)%Z with (16 ^ 6)%Z. lia. }
  pose proof (Z.add_nocarry_lxor _ _ Hland) as Hadd.
  rewrite <- Z.lxor_assoc, (Z.lxor_comm v), Z.lxor_assoc in Hadd.
  rewrite Z.lxor_nilpotent, Z.lxor_0_r in Hadd. lia.
Qed.

Lemma hexval_byte (ds : text) :
  length ds = 2 → forallb is_hex_digit ds = true → (0 ≤ hexval ds < 256)%Z.
Proof.
  intros Hlen Hds. pose proof (hexval_bound ds Hds) as H.
  rewrite Hlen in H. exact H.
Qed.

Lemma get_complementary_color_bytes (rr gg bb : text) :
  length rr = 2 → length gg = 2 → length bb = 2 →
  forallb is_hex_digit rr = true → forallb is_hex_digit gg = true →
  forallb is_hex_digit bb = true →
  get_complementary_color ("#"%char :: rr ++ gg ++ bb)
  = Ok ("#"%char :: hex_fixed 2 (255 - hexval rr)
                 ++ hex_fixed 2 (255 - hexval gg)
                 ++ hex_fixed 2 (255 - hexval bb)).
Proof.
  intros Lr Lg Lb Hr Hg Hb.
  pose proof (hexval_byte _ Lr Hr). pose proof (hexval_byte _ Lg Hg).
  pose proof (hexval_byte _ Lb Hb).
  rewrite get_complementary_color_hex.
  2:{ rewrite !length_app. lia. }
  2:{ by rewrite !forallb_app, Hr, Hg, Hb. }
  rewrite !hexval_app, !length_app, Lg, Lb.
  change (16 ^ Z.of_nat (2 + 2))%Z with 65536%Z.
  change (16 ^ Z.of_nat 2)%Z with 256%Z.
  rewrite lxor_ffffff_sub by (change (16 ^ 6)%Z with 16777216%Z; lia).
  rewrite <- hex_fixed_bytes by lia. do 3 f_equal. lia.
Qed.

Section Complement.
Variable cnames : list (text * text).

Lemma color_too_bright_bytes (rr gg bb : text) :
  length rr = 2 → length gg = 2 → length bb = 2 →
  forallb is_hex_digit rr = true → forallb is_hex_digit gg = true →
  forallb is_hex_digit bb = true →
  color_too_bright cnames ("#"%char :: rr ++ gg ++ bb)
  = Ok (luma_in_order (hexval rr) (hexval bb) (hexval gg)).
Proof.
  intros Lr Lg Lb Hr Hg Hb.
  destruct rr as [|r1 [|r2 [|]]]; try discriminate Lr.
  destruct gg as [|g1 [|g2 [|]]]; try discriminate Lg.
  destruct bb as [|b1 [|b2 [|]]]; try discriminate Lb.
  apply color_too_bright_hex. cbn [forallb] in *.
  repeat (apply andb_true_iff in Hr as [? Hr]).
  repeat (apply andb_true_iff in Hg as [? Hg]).
  repeat (apply andb_true_iff in Hb as [? Hb]).
  repeat (apply andb_true_iff; split); done.
Qed.

(** X2: for a hash sign and three bytes of two hexadecimal digits each, the
    complementary colour has the bytes 255 minus the red, the green and the
    blue byte, each written with two upper-case digits. *)
Theorem complement_inverts_each_byte (rr gg bb : text) :
  length rr = 2 → length gg = 2 → length bb = 2 →
  forallb is_hex_digit (rr ++ gg ++ bb) = true →
  get_complementary_color ("#"%char :: rr ++ gg ++ bb)
  = Ok ("#"%char :: hex_fixed 2 (255 - hexval rr)
                 ++ hex_fixed 2 (255 - hexval gg)
                 ++ hex_fixed 2 (255 - hexval bb))
  ∧ (0 ≤ 255 - hexval rr < 256)%Z
  ∧ (0 ≤ 255 - hexval gg < 256)%Z
  ∧ (0 ≤ 255 - hexval bb < 256)%Z.
Proof.
  intros Lr Lg Lb H. rewrite !forallb_app in H.
  apply andb_true_iff in H as [Hr H]. apply andb_true_iff in H as [Hg Hb].
  pose proof (hexval_byte _ Lr Hr). pose proof (hexval_byte _ Lg Hg).
  pose proof (hexval_byte _ Lb Hb).
  split; [by apply get_complementary_color_bytes|lia].
Qed.

(** X3: for a hash sign and six hexadecimal digits the complementary colour
    and the brightness of both are defined, and a colour that is too bright
    has a complement that is not. *)
Theorem bright_color_has_dark_complement (ds : text) :
  length ds = 6 → forallb is_hex_digit ds = true →
  ∃ comp b b',
    get_complementary_color ("#"%char :: ds) = Ok comp
    ∧ color_too_bright cnames ("#"%char :: ds) = Ok b
    ∧ color_too_bright cnames comp = Ok b'
    ∧ (b = true → b' = false).
Proof.
  intros Hlen Hds.
  destruct ds as [|r1 [|r2 [|g1 [|g2 [|b1 [|b2 [|]]]]]]]; try discriminate Hlen.
  change [r1; r2; g1; g2; b1; b2] with ([r1; r2] ++ [g1; g2] ++ [b1; b2]) in *.
  set (rr := [r1; r2]) in *. set (gg := [g1; g2]) in *.
  set (bb := [b1; b2]) in *.
  assert (length rr = 2) as Lr by done.
  assert (length gg = 2) as Lg by done.
  assert (length bb = 2) as Lb by done.
  clearbody rr gg bb.
  rewrite !forallb_app in Hds.
  apply andb_true_iff in Hds as [Hr Hds]. apply andb_true_iff in Hds as [Hg Hb].
  pose proof (hexval_byte _ Lr Hr). pose proof (hexval_byte _ Lg Hg).
  pose proof (hexval_byte _ Lb Hb).
  eexists _, _, _.
  split; [by apply get_complementary_color_bytes|].
  split; [by apply color_too_bright_bytes|].
  split.
  - apply color_too_bright_bytes;
      first [apply hex_fixed_length | apply hex_fixed_is_hex; lia].
  - rewrite !hexval_hex_fixed by (change (16 ^ Z.of_nat 2)%Z with 256%Z; lia).
    unfold luma_in_order. rewrite Z.ltb_lt, Z.ltb_ge. lia.
Qed.

End Complement.

(** ** Short colour codes *)

Lemma hexval_zeros (k : nat) : hexval (replicate k "0"%char) = 0%Z.
Proof.
  induction k as [|k IH]; [done|].
  unfold hexval in *. cbn [replicate fold_left].
  change (hex_step 0 "0") with 0%Z. exact IH.
Qed.

Lemma get_complementary_color_digits (ds : text) :
  ds ≠ [] → length ds ≤ 6 → forallb is_hex_digit ds = true →
  get_complementary_color ("#"%char :: ds)
  = Ok ("#"%char :: hex_fixed 6 (16777215 - hexval ds)).
Proof.
  intros Hne Hlen Hds. unfold get_complementary_color, int16.
  change (drop 1 ("#"%char :: ds)) with ds.
  rewrite py_int16_hex by done. cbn [rbind].
  pose proof (hexval_bound ds Hds) as Hb.
  assert (16 ^ Z.of_nat (length ds) ≤ 16 ^ 6)%Z as Hpow
    by (apply Z.pow_le_mono_r; lia).
  rewrite lxor_ffffff_sub by lia.
  rewrite format_06X_fixed; [done|].
  change (16 ^ 6)%Z with 16777216%Z in *. lia.
Qed.

(** X4: [get_complementary_color] on a hash sign alone raises [ValueError]
    for the empty literal; on one to six hexadecimal digits it reads them as
    one number and answers with six digits, so that a short code is taken as
    if zeros were put before it ([#FFF] as [#000FFF]). *)
Theorem complement_pads_short_codes :
  get_complementary_color "#"
  = Raise In_get_complementary_color (ValueError [])
  ∧ ∀ ds, ds ≠ [] → length ds ≤ 6 → forallb is_hex_digit ds = true →
          get_complementary_color ("#"%char :: ds)
          = Ok ("#"%char :: hex_fixed 6 (16777215 - hexval ds))
          ∧ get_complementary_color ("#"%char :: ds)
            = get_complementary_color
                ("#"%char :: replicate (6 - length ds) "0"%char ++ ds).
Proof.
  split; [reflexivity|]. intros ds Hne Hlen Hds.
  split; [by apply get_complementary_color_digits|].
  rewrite !get_complementary_color_digits; try done.
  - by rewrite hexval_app, hexval_zeros.
  - by destruct (replicate _ _).
  - rewrite length_app, length_replicate. lia.
  - rewrite forallb_app, Hds, andb_true_r.
    apply forallb_forall. intros c Hc%list_elem_of_In.
    apply elem_of_replicate in Hc as [-> _]. reflexivity.
Qed.

Section ColourStage.
Variable root : text.
Variable cnames : list (text * text).
Variable rasterize : Z → Z → text → option text.

(** X5: a fill colour made of a hash sign and at most four characters, of
    whatever kind, makes the brightness test raise [ValueError]: its third
    slice is empty. The run, with a stroke colour that resolves, raises that
    error and leaves the file system as it was. *)
Theorem short_hash_color_rejected (ds stroke stroke_hex : text)
    (fs : gmap text node) :
  length ds ≤ 4 → parse_color cnames stroke = Ok stroke_hex →
  ∃ literal,
    color_too_bright cnames ("#"%char :: ds)
    = Raise In_color_too_bright (ValueError literal)
    ∧ generate_images root cnames rasterize ("#"%char :: ds) stroke fs
      = (Raise In_color_too_bright (ValueError literal), fs).
Proof.
  intros Hlen Hs.
  assert (∃ literal, color_too_bright cnames ("#"%char :: ds)
                     = Raise In_color_too_bright (ValueError literal))
    as [literal Hb].
  { unfold color_too_bright, int16. rewrite parse_color_hash by done.
    cbn [rbind]. change (drop 1 ("#"%char :: ds)) with ds.
    rewrite (drop_ge ds 4) by done.
    destruct (py_int16 (take 2 ds)); [|by eauto].
    destruct (py_int16 (slice 2 4 ds)); [|by eauto].
    cbn [rbind]. change (py_int16 []) with (@None Z). by eauto. }
  exists literal. split; [exact Hb|].
  unfold generate_images, bind at 1 2 3, lift.
  rewrite parse_color_hash, Hs, Hb by done. reflexivity.
Qed.

Lemma forallb_take (f : ascii → bool) (n : nat) (s : text) :
  forallb f s = true → forallb f (take n s) = true.
Proof.
  rewrite !forallb_forall. intros H c Hc. apply H.
  apply list_elem_of_In. apply list_elem_of_In in Hc.
  by apply (subseteq_take n s).
Qed.

Lemma forallb_drop (f : ascii → bool) (n : nat) (s : text) :
  forallb f s = true → forallb f (drop n s) = true.
Proof.
  rewrite !forallb_forall. intros H c Hc. apply H.
  apply list_elem_of_In. apply list_elem_of_In in Hc.
  by apply (subseteq_drop n s).
Qed.

Lemma length_nonempty (s : text) : 0 < length s → s ≠ [].
Proof. by destruct s; [simpl; lia|]. Qed.

(** The brightness test on hexadecimal digits after the hash sign: the
    first two are one number, the next two another, all the rest a third. *)
Lemma color_too_bright_digits (ds : text) :
  5 ≤ length ds → forallb is_hex_digit ds = true →
  color_too_bright cnames ("#"%char :: ds)
  = Ok (luma_in_order (hexval (take 2 ds)) (hexval (drop 4 ds))
          (hexval (slice 2 4 ds))).
Proof.
  intros Hlen Hds. unfold color_too_bright, int16.
  rewrite parse_color_hash by done.
  cbn [rbind]. change (drop 1 ("#"%char :: ds)) with ds.
  rewrite !py_int16_hex; [done|..].
  - apply length_nonempty. rewrite length_drop. lia.
  - by apply forallb_drop.
  - apply length_nonempty. unfold slice. rewrite length_take, length_drop. lia.
  - unfold slice. by apply forallb_take, forallb_drop.
  - apply length_nonempty. rewrite length_take. lia.
  - by apply forallb_take.
Qed.


(** X7: a run either gets through its colour stage, or it raises in
    [parse_color], [color_too_bright] or [get_complementary_color] and the
    file system is the one it started from. *)
Theorem refused_colours_touch_nothing (fill stroke : text)
    (fs : gmap text node) :
  colours_accepted cnames fill stroke
  ∨ ∃ o e,
      generate_images root cnames rasterize fill stroke fs = (Raise o e, fs)
      ∧ (o = In_parse_color ∨ o = In_color_too_bright
         ∨ o = In_get_complementary_color).
Proof.
  unfold colours_accepted, generate_images, bind at 1 2 3 4, lift.
  destruct (parse_color cnames fill) as [fh|o e] eqn:Hf.
  2:{ right. exists o, e. split; [reflexivity|].
      unfold parse_color in Hf. destruct (starts_with "#" fill); [done|].
      destruct (cnames_get cnames fill); [done|]. injection Hf as <- _. auto. }
  destruct (parse_color cnames stroke) as [sh|o e] eqn:Hs.
  2:{ right. exists o, e. split; [reflexivity|].
      unfold parse_color in Hs. destruct (starts_with "#" stroke); [done|].
      destruct (cnames_get cnames stroke); [done|]. injection Hs as <- _. auto. }
  destruct (color_too_bright cnames fill) as [b|o e] eqn:Hb.
  2:{ right. exists o, e. split; [reflexivity|].
      unfold color_too_bright, int16 in Hb. rewrite Hf in Hb. cbn [rbind] in Hb.
      destruct (py_int16 (take 2 (drop 1 fh))); [|injection Hb as <- _; auto].
      destruct (py_int16 (slice 2 4 (drop 1 fh))); [|injection Hb as <- _; auto].
      destruct (py_int16 (drop 4 (drop 1 fh))); [done|injection Hb as <- _; auto]. }
  destruct (get_complementary_color fh) as [comp|o e] eqn:Hc.
  2:{ right. exists o, e. split; [reflexivity|].
      unfold get_complementary_color, int16 in Hc.
      destruct (py_int16 (drop 1 fh)); [done|injection Hc as <- _; auto]. }
  left. by exists fh, sh, b, comp.
Qed.

End ColourStage.

(** ** Paths that stay *)

Lemma never_deletes_bind {A B} (m : cmd A) (k : A → cmd B) :
  never_deletes m → (∀ a, never_deletes (k a)) → never_deletes (bind m k).
Proof.
  intros Hm Hk fs p Hp. unfold bind. specialize (Hm fs p Hp).
  destruct (m fs) as [[a|o e] fs']; [|done]. by apply Hk.
Qed.

Lemma never_deletes_for_each {A} (l : list A) (body : A → cmd unit) :
  (∀ x, never_deletes (body x)) → never_deletes (for_each l body).
Proof.
  intros H. induction l as [|x l IH]; [by intros fs p Hp|].
  cbn [for_each]. apply never_deletes_bind; [apply H|]. by intros _.
Qed.

Lemma is_Some_insert (fs : gmap text node) (k p : text) (n : node) :
  is_Some (fs !! p) → is_Some (<[k := n]> fs !! p).
Proof.
  intros Hp. destruct (decide (k = p)) as [->|?].
  - rewrite lookup_insert_eq. eauto.
  - by rewrite lookup_insert_ne.
Qed.

Lemma never_deletes_ensure_dir (d : text) : never_deletes (ensure_dir d).
Proof.
  intros fs p Hp. unfold ensure_dir. cbn [snd].
  destruct (path_exists d fs); [done|]. by apply is_Some_insert.
Qed.

Lemma sed_inplace_keeps_paths (old new : text) (ps : list text)
    (fs : gmap text node) (p : text) :
  is_Some (fs !! p) → is_Some ((sed_inplace old new ps fs).2 !! p).
Proof.
  revert fs. induction ps as [|q ps IH]; intros fs Hp; [done|].
  cbn [sed_inplace]. destruct (fs !! q) as [[|c]|] eqn:E; try done.
  by apply IH, is_Some_insert.
Qed.

Lemma never_deletes_find_exec_sed (o : origin) (dir old rhs : text) :
  never_deletes (find_exec_sed o dir old rhs).
Proof.
  intros fs p Hp. unfold find_exec_sed.
  destruct (sed_rhs old rhs) as [new|]; [|done].
  destruct (find_svg dir fs) as [ps|]; [|done].
  pose proof (sed_inplace_keeps_paths old new ps fs p Hp) as H.
  by destruct (sed_inplace old new ps fs) as [[] fs'].
Qed.

Lemma never_deletes_found_files (o : origin) (svg : text) :
  never_deletes (found_files o svg).
Proof. intros fs p Hp. unfold found_files. by destruct (find_svg svg fs). Qed.

Lemma path_exists_mono (d : text) (fs fs' : gmap text node) :
  (∀ p, is_Some (fs !! p) → is_Some (fs' !! p)) →
  path_exists d fs = true → path_exists d fs' = true.
Proof.
  intros H (k & Hk & Hu)%path_exists_spec. apply path_exists_spec.
  exists k. auto.
Qed.

Section Workspace.
Variable root : text.
Variable cnames : list (text * text).
Variable rasterize : Z → Z → text → option text.

Local Notation "'X'" := (xamarin_path root).

(** X8: [get_xamarin_directory] returns [root/xamarin] whatever the file
    system holds. When asked to create, the directory exists afterwards;
    when not asked, or when it was there, the file system is unchanged; no
    other path is touched; and a second call changes nothing. *)
Theorem workspace_directory_ensured (create : bool) (fs : gmap text node) :
  ∃ fs',
    get_xamarin_directory root create fs = (Ok (join root "xamarin"), fs')
    ∧ (create = true → path_exists X fs' = true)
    ∧ (create = false ∨ path_exists X fs = true → fs' = fs)
    ∧ (∀ p, p ≠ X → fs' !! p = fs !! p)
    ∧ get_xamarin_directory root create fs' = (Ok (join root "xamarin"), fs').
Proof.
  unfold get_xamarin_directory. fold X.
  destruct create; cbn [andb]; [|by exists fs; repeat split; auto].
  destruct (path_exists X fs) eqn:E; cbn [negb].
  - exists fs. rewrite E. repeat split; auto.
  - assert (path_exists X (makedirs X fs) = true) as Hex
      by apply (path_exists_lookup _ _ Dir), lookup_insert_eq.
    exists (makedirs X fs). rewrite Hex. cbn [negb].
    split; [done|]. split; [done|]. split; [|split; [|done]].
    + intros [?|?]; congruence.
    + intros p Hp. by apply lookup_insert_ne.
Qed.

Lemma never_deletes_inkscape (o : origin) (w h : Z) (svg_file png : text) :
  never_deletes (inkscape rasterize o w h svg_file png).
Proof.
  intros fs p Hp. unfold inkscape.
  destruct (fs !! svg_file) as [[|svg]|]; try done.
  destruct (rasterize w h svg); [|done]. by apply is_Some_insert.
Qed.

(** After [get_xamarin_directory()] the workspace exists, and it still does
    after a continuation that removes nothing. *)
Lemma workspace_exists_after {B} (k : text → cmd B) (fs : gmap text node) :
  never_deletes (k X) →
  (∀ p, is_Some (fs !! p) →
        is_Some ((bind (get_xamarin_directory root true) k fs).2 !! p))
  ∧ path_exists X (bind (get_xamarin_directory root true) k fs).2 = true.
Proof.
  intros Hk. rewrite bind_get_xamarin_directory. cbn [andb].
  destruct (path_exists X fs) eqn:E; cbn [negb].
  - split; [intros p; apply Hk|].
    eapply path_exists_mono; [apply Hk|exact E].
  - split.
    + intros p Hp. by apply Hk, is_Some_insert.
    + eapply path_exists_mono; [apply Hk|].
      apply (path_exists_lookup _ _ Dir), lookup_insert_eq.
Qed.

Lemma never_deletes_cp (src dst : text) :
  never_deletes (λ fs,
    match cp_r src dst fs with
    | Some fs' => (Ok tt, fs')
    | None => (Raise In_copy_svg_to_xamarin (ErrorReturnCode "cp"), fs)
    end).
Proof.
  intros fs p Hp. destruct (cp_r src dst fs) as [fs'|] eqn:E; [|done].
  cbn [snd]. rewrite (cp_r_lookup _ _ _ _ _ E).
  by destruct (if under (cp_target src dst fs) p then _ else _).
Qed.

Lemma never_deletes_ios_body (ios f : text) :
  never_deletes (ios_body rasterize ios f).
Proof.
  unfold ios_body.
  repeat (apply never_deletes_bind; [|intros _]); apply never_deletes_inkscape.
Qed.

Lemma never_deletes_android_body (d1 d2 d3 d4 d5 f : text) :
  never_deletes (android_body rasterize d1 d2 d3 d4 d5 f).
Proof.
  unfold android_body.
  repeat (apply never_deletes_bind; [|intros _]); apply never_deletes_inkscape.
Qed.


(** X10: [cleanup] never raises; afterwards nothing is left at or below
    [xamarin/], every other path is as it was, and a second [cleanup]
    changes nothing. *)
Theorem cleanup_removes_workspace (fs : gmap text node) :
  ∃ fs',
    cleanup root fs = (Ok tt, fs')
    ∧ path_exists X fs' = false
    ∧ (∀ p, under X p = true → fs' !! p = None)
    ∧ (∀ p, under X p = false → fs' !! p = fs !! p)
    ∧ cleanup root fs' = (Ok tt, fs').
Proof.
  exists (rm_rf X fs). split; [apply cleanup_run|].
  split; [apply rm_rf_not_exists|].
  split; [intros p Hp; by rewrite rm_rf_lookup, Hp|].
  split; [intros p Hp; by rewrite rm_rf_lookup, Hp|].
  rewrite cleanup_run. f_equal. apply rm_rf_absent, rm_rf_not_exists.
Qed.

Lemma svg_not_slash : "/"%char ∉ ("svg" : text).
Proof.
  intros H. cbn in H.
  repeat (apply elem_of_cons in H as [H|H]; [discriminate H|]).
  by apply elem_of_nil in H.
Qed.

Lemma source_outside_workspace (p : text) :
  under (join root "svg") p = true → under X p = false ∧ p ≠ X.
Proof.
  rewrite svg_src_eq. intros [Hp _]%under_rest.
  rewrite Hp, <- app_assoc. apply src_outside.
Qed.

Lemma workspace_outside_source (p : text) :
  under X p = true → under (join root "svg") p = false.
Proof.
  intros Hp. apply not_true_iff_false. intros Hs.
  apply source_outside_workspace in Hs as [Hs _]. congruence.
Qed.

(** The copy into a workspace that does not exist yet. *)
Lemma copy_fresh (fs : gmap text node) :
  path_exists X fs = false → path_exists (join root "svg") fs = true →
  ∃ fs',
    copy_svg_to_xamarin root fs = (Ok tt, fs')
    ∧ ∀ q, fs' !! q =
           if under (X ++ "/svg") q
           then fs !! (join root "svg" ++ drop (length (X ++ "/svg")) q)
           else <[X := Dir]> fs !! q.
Proof.
  intros HX Hsrc.
  unfold copy_svg_to_xamarin. rewrite bind_get_xamarin_directory.
  rewrite HX. cbn [andb negb]. unfold makedirs.
  set (fs1 := <[X := Dir]> fs).
  assert (Hfs1 : ∀ p, under (join root "svg") p = true → fs1 !! p = fs !! p).
  { intros p [_ Hne]%source_outside_workspace. unfold fs1.
    by rewrite lookup_insert_ne. }
  assert (Hin : ∀ p, under X p = true → p ≠ X → fs1 !! p = None).
  { intros p Hu Hne. unfold fs1. rewrite lookup_insert_ne by done.
    by apply (proj1 (path_exists_false _ _) HX). }
  assert (Htarget : cp_target (join root "svg") X fs1 = X ++ "/svg").
  { unfold cp_target.
    rewrite (path_exists_lookup X fs1 Dir) by apply lookup_insert_eq.
    rewrite svg_src_eq, basename_with_sep by apply svg_not_slash.
    apply svg_dir_eq. }
  assert (path_exists (join root "svg") fs1 = true) as Hex.
  { eapply path_exists_mono; [|exact Hsrc]. intros p. apply is_Some_insert. }
  destruct (cp_r (join root "svg") X fs1) as [fs2|] eqn:E.
  2:{ unfold cp_r in E. by rewrite Hex in E. }
  exists fs2. split; [done|]. intros q.
  rewrite (cp_r_lookup _ _ _ _ q E), Htarget.
  destruct (under (X ++ "/svg") q) eqn:Hu; [|by destruct (fs1 !! q)].
  assert (under (join root "svg")
            (join root "svg" ++ drop (length (X ++ "/svg")) q) = true) as Hs.
  { apply under_app_rest. by apply under_rest in Hu as [_ ?]. }
  rewrite (Hfs1 _ Hs).
  destruct (fs !! _) as [n|]; [done|]. apply Hin.
  - eapply under_trans; [|exact Hu]. apply (under_below X "svg").
  - intros ->. rewrite under_px in Hu. discriminate Hu.
Qed.

(** X11: in a file system with a source tree and no workspace,
    [copy_svg_to_xamarin] returns; every path of [xamarin/svg] holds what
    the same path of [svg/] holds, the workspace directory has been made,
    and every other path is as it was. *)
Theorem copy_is_exact (fs : gmap text node) :
  path_exists X fs = false → path_exists (join root "svg") fs = true →
  ∃ fs',
    copy_svg_to_xamarin root fs = (Ok tt, fs')
    ∧ (∀ rest, rest = [] ∨ starts_with "/" rest = true →
               fs' !! (X ++ "/svg" ++ rest) = fs !! (join root "svg" ++ rest))
    ∧ fs' !! X = Some Dir
    ∧ (∀ p, under (X ++ "/svg") p = false → p ≠ X → fs' !! p = fs !! p).
Proof.
  intros HX Hsrc. destruct (copy_fresh fs HX Hsrc) as (fs' & Hrun & Hfs').
  exists fs'. split; [exact Hrun|]. split; [|split].
  - intros rest Hrest. rewrite Hfs', app_assoc.
    rewrite under_app_rest by done. by rewrite drop_app_length.
  - rewrite Hfs', under_px. change (under "/svg" []) with false.
    apply lookup_insert_eq.
  - intros p Hu Hne. rewrite Hfs', Hu. by rewrite lookup_insert_ne.
Qed.



End Workspace.

(** ** Names under a change of characters *)

(** A map on characters that neither touches nor produces a character of
    the pattern does not move its occurrences. *)
Lemma starts_with_fmap (h : ascii → ascii) (p s : text) :
  (∀ x c, x ∈ p → Ascii.eqb x (h c) = Ascii.eqb x c) →
  starts_with p (h <$> s) = starts_with p s.
Proof.
  revert s. induction p as [|x p IH]; intros s Hh; [done|].
  destruct s as [|c s]; [done|]. rewrite fmap_cons. cbn [starts_with].
  rewrite Hh by left. rewrite IH; [done|].
  intros y d Hy. apply Hh. by right.
Qed.

Lemma starts_with_app_fmap (h : ascii → ascii) (p a s : text) :
  (∀ x c, x ∈ p → Ascii.eqb x (h c) = Ascii.eqb x c) →
  starts_with p (a ++ (h <$> s)) = starts_with p (a ++ s).
Proof.
  revert p. induction a as [|c a IH]; intros p Hh.
  - by apply starts_with_fmap.
  - destruct p as [|x p]; [done|]. cbn [app starts_with].
    rewrite IH; [done|]. intros y d Hy. apply Hh. by right.
Qed.

Lemma contains_app_fmap (h : ascii → ascii) (p a s : text) :
  (∀ x c, x ∈ p → Ascii.eqb x (h c) = Ascii.eqb x c) →
  contains p (a ++ (h <$> s)) = contains p (a ++ s).
Proof.
  intros Hh. induction a as [|c a IH].
  - cbn [app]. induction s as [|c s IH]; [done|].
    rewrite fmap_cons. cbn [contains]. rewrite IH, <- fmap_cons.
    by rewrite starts_with_fmap.
  - cbn [app contains]. rewrite IH.
    change (c :: a ++ (h <$> s)) with ((c :: a) ++ (h <$> s)).
    by rewrite starts_with_app_fmap.
Qed.

Lemma gsub_go_delete_fmap (h : ascii → ascii) (old : text) (skip : nat)
    (s : text) :
  (∀ x c, x ∈ old → Ascii.eqb x (h c) = Ascii.eqb x c) →
  gsub_go old [] skip (h <$> s) = h <$> gsub_go old [] skip s.
Proof.
  intros Hh. revert skip. induction s as [|c s IH]; intros skip; [done|].
  rewrite fmap_cons. cbn [gsub_go]. destruct skip as [|k]; [|apply IH].
  rewrite <- fmap_cons, starts_with_fmap by done.
  destruct (starts_with old (c :: s)).
  - cbn [app]. apply IH.
  - rewrite !fmap_cons. f_equal. apply IH.
Qed.

Lemma hyphen_to_underscore_fixes (p : text) :
  "-"%char ∉ p → "_"%char ∉ p →
  ∀ x c, x ∈ p → Ascii.eqb x (hyphen_to_underscore c) = Ascii.eqb x c.
Proof.
  intros H1 H2 x c Hx. unfold hyphen_to_underscore.
  destruct (Ascii.eqb_spec c "-") as [->|Hc]; [|done].
  destruct (Ascii.eqb_spec x "_") as [->|?]; [done|].
  destruct (Ascii.eqb_spec x "-") as [->|?]; done.
Qed.

Lemma not_elem_of_literal (c : ascii) (s : text) :
  forallb (λ x, negb (Ascii.eqb x c)) s = true → c ∉ s.
Proof.
  rewrite forallb_forall. intros H Hin. apply list_elem_of_In, H in Hin.
  by rewrite Ascii.eqb_refl in Hin.
Qed.

Lemma no_ext_filename_fmap (f : text) :
  no_ext_filename f = hyphen_to_underscore <$> gsub ".svg" [] f.
Proof. unfold no_ext_filename. apply (gsub_char "-" "_"). Qed.

Lemma no_ext_filename_hyphen (f : text) :
  no_ext_filename (hyphen_to_underscore <$> f) = no_ext_filename f.
Proof.
  rewrite !no_ext_filename_fmap. unfold gsub.
  rewrite gsub_go_delete_fmap
    by (by apply hyphen_to_underscore_fixes; apply not_elem_of_literal).
  rewrite <- list_fmap_compose. apply list_fmap_ext. intros _ c _.
  unfold compose, hyphen_to_underscore.
  destruct (Ascii.eqb c "-") eqn:E; [done|]. by rewrite E.
Qed.

Lemma no_ext_filename_no_hyphen (f : text) : "-"%char ∉ no_ext_filename f.
Proof.
  rewrite no_ext_filename_fmap. intros (c & Hc & _)%list_elem_of_fmap.
  unfold hyphen_to_underscore in Hc.
  destruct (Ascii.eqb_spec c "-") as [E|E]; [discriminate Hc|]. congruence.
Qed.

(** X14: the base names that the two exporters derive have no slash and no
    hyphen, so every output file lies directly in its directory. *)
Theorem output_names_are_plain (svg_file : text) :
  (("/"%char ∉ ios_name svg_file) ∧ ("-"%char ∉ ios_name svg_file))
  ∧ (("/"%char ∉ android_name svg_file) ∧ ("-"%char ∉ android_name svg_file))
  ∧ (∀ dir, basename (join dir (ios_name svg_file ++ ".png"))
            = ios_name svg_file ++ ".png")
  ∧ (∀ dir, basename (join dir (android_name svg_file ++ ".png"))
            = android_name svg_file ++ ".png").
Proof.
  assert ("-"%char ∉ ios_name svg_file) as Hi.
  { unfold ios_name. destruct (contains "svg/filled" svg_file);
      [|apply no_ext_filename_no_hyphen].
    rewrite elem_of_app. intros [H|H]; [|by apply no_ext_filename_no_hyphen in H].
    revert H. by apply not_elem_of_literal. }
  assert (∀ n dir, "/"%char ∉ n →
            basename (join dir (n ++ ".png")) = n ++ ".png") as Hbase.
  { intros n dir Hn.
    rewrite join_with_sep by (by apply starts_with_slash_name).
    apply basename_with_sep. rewrite elem_of_app. intros [?|H]; [done|].
    revert H. by apply not_elem_of_literal. }
  split; [split; [apply ios_name_no_slash|exact Hi]|].
  split; [split; [apply android_name_no_slash|apply no_ext_filename_no_hyphen]|].
  split; intros dir; apply Hbase;
    [apply ios_name_no_slash|apply android_name_no_slash].
Qed.

(** X15: two icons of one directory whose file names differ only in hyphens
    against underscores get the same base name, in both exporters. *)
Theorem hyphen_and_underscore_collide (dir filename : text) :
  "/"%char ∉ filename →
  android_name (dir ++ "/" ++ (hyphen_to_underscore <$> filename))
  = android_name (dir ++ "/" ++ filename)
  ∧ ios_name (dir ++ "/" ++ (hyphen_to_underscore <$> filename))
    = ios_name (dir ++ "/" ++ filename).
Proof.
  intros Hf.
  assert ("/"%char ∉ hyphen_to_underscore <$> filename) as Hf'.
  { intros (c & Hc & Hin)%list_elem_of_fmap. unfold hyphen_to_underscore in Hc.
    destruct (Ascii.eqb c "-"); [discriminate Hc|]. congruence. }
  unfold android_name, ios_name.
  rewrite !basename_app, no_ext_filename_hyphen by done.
  split; [done|].
  rewrite !(app_assoc dir "/").
  rewrite contains_app_fmap; [done|].
  by apply hyphen_to_underscore_fixes; apply not_elem_of_literal.
Qed.

(** ** The output of [find], line by line *)

Lemma lines_go_cons_line (cur s rest : text) :
  LF ∉ s →
  lines_go cur (s ++ LF :: rest) = (rev cur ++ s ++ [LF]) :: lines_go [] rest.
Proof.
  revert cur. induction s as [|c s IH]; intros cur Hs.
  - cbn [app lines_go]. rewrite Ascii.eqb_refl. done.
  - cbn [app lines_go].
    destruct (Ascii.eqb c LF) eqn:E.
    { apply Ascii.eqb_eq in E. set_solver. }
    rewrite IH by set_solver. simpl. by rewrite <- app_assoc.
Qed.

Lemma lines_of_paths (ps : list text) :
  (∀ p, p ∈ ps → LF ∉ p) →
  lines (concat (List.map (λ p, p ++ [LF]) ps)) = (λ p, p ++ [LF]) <$> ps.
Proof.
  unfold lines. induction ps as [|p ps IH]; intros H; [done|].
  cbn [List.map concat]. rewrite <- app_assoc. cbn [app].
  rewrite lines_go_cons_line by (apply H; left).
  rewrite IH by (intros q Hq; apply H; by right). done.
Qed.

Lemma basename_suffix (p : text) : ∃ d, p = d ++ basename p.
Proof.
  induction p as [|c p [d IH]]; [exists []; reflexivity|].
  unfold basename. fold basename. destruct (contains "/" p).
  - exists (c :: d). cbn [app]. by f_equal.
  - destruct (Ascii.eqb c "/"); [by exists [c]|by exists []].
Qed.

Lemma svg_glob_ends (p : text) : svg_glob p = true → ∃ k, p = k ++ ".svg".
Proof.
  intros [k Hk]%ends_with_spec. destruct (basename_suffix p) as [d Hd].
  exists (d ++ k). by rewrite Hd at 1; rewrite Hk, app_assoc.
Qed.

Lemma py_strip_found (p : text) :
  starts_with "/" p = true → svg_glob p = true → py_strip (p ++ [LF]) = p.
Proof.
  intros Hs [k ->]%svg_glob_ends.
  destruct k as [|c k].
  - discriminate Hs.
  - change (starts_with "/" ((c :: k) ++ ".svg"))
      with (Ascii.eqb "/" c && true) in Hs.
    apply andb_true_iff in Hs as [Hc _].
    apply Ascii.eqb_eq in Hc. subst c. cbn [app].
    replace ((k ++ ".svg") ++ [LF]) with ((k ++ ".sv") ++ ["g"%char; LF])
      by (by rewrite <- !app_assoc).
    rewrite py_strip_line by done. by rewrite <- app_assoc.
Qed.

(** Where [find] answers, the list that the exporters go through is its
    list. *)
Lemma found_files_paths (o : origin) (dir : text) (fs : gmap text node)
    (ps : list text) :
  find_svg dir fs = Some ps →
  starts_with "/" dir = true →
  (∀ p, is_Some (fs !! p) → under dir p = true → svg_glob p = true → LF ∉ p) →
  found_files o dir fs = (Ok ps, fs).
Proof.
  intros E Hdir Hlf. unfold found_files. rewrite E.
  destruct (find_svg_spec _ _ _ E) as [_ Hps].
  rewrite lines_of_paths.
  2:{ intros p (Hp & Hu & Hg)%Hps. by apply Hlf. }
  f_equal. f_equal.
  assert (∀ p, p ∈ ps → starts_with "/" p = true ∧ svg_glob p = true) as Hok.
  { intros p (_ & Hu & Hg)%Hps. split; [|done].
    apply under_rest in Hu as [-> _]. by apply starts_with_app_l. }
  clear E Hps Hlf. induction ps as [|p ps IH]; [done|].
  cbn [fmap list_fmap List.filter List.map].
  rewrite bool_decide_eq_false_2 by (by intros [_ ?]%app_eq_nil).
  cbn [negb List.map].
  destruct (Hok p) as [H1 H2]; [left|].
  rewrite py_strip_found by done. f_equal.
  apply IH. intros q Hq. apply Hok. by right.
Qed.


(** ** Hexadecimal colours in an attribute *)

Lemma hex_digit_plain (c : ascii) :
  is_hex_digit c = true →
  sed_special c = false ∧ Ascii.eqb c "&" = false ∧ Ascii.eqb c DQ = false
  ∧ Ascii.eqb "i" c = false ∧ Ascii.eqb "t" c = false
  ∧ Ascii.eqb "s" c = false.
Proof.
  destruct c as [[] [] [] [] [] [] [] []]; intros H; vm_compute in H;
    try discriminate H; vm_compute; repeat split; reflexivity.
Qed.

Lemma sed_literal_hex (ds : text) :
  forallb is_hex_digit ds = true → sed_literal ("#"%char :: ds) = true.
Proof.
  intros H. unfold sed_literal. cbn [existsb]. apply negb_true_iff.
  change (sed_special "#" || Ascii.eqb "#" "&") with false. cbn [orb].
  induction ds as [|c ds IH]; [done|].
  cbn [forallb] in H. apply andb_true_iff in H as [Hc H].
  destruct (hex_digit_plain c Hc) as (H1 & H2 & _).
  cbn [existsb]. rewrite H1, H2. cbn [orb]. by apply IH.
Qed.

(** A pattern clashes with every text cut out of the end of a run of
    hexadecimal digits closed by a quotation mark, when its second
    character is neither a digit nor the mark. *)
Lemma clash_hex_tail (a b : ascii) (p ds : text) (i : nat) :
  Ascii.eqb a DQ = false →
  (∀ c, is_hex_digit c = true ∨ c = DQ → Ascii.eqb b c = false) →
  forallb is_hex_digit ds = true → i ≤ length ds →
  clash (a :: b :: p) (drop i ds ++ [DQ]) = true.
Proof.
  intros Ha Hb Hds Hi.
  assert (forallb is_hex_digit (drop i ds) = true) as Ht
    by (by apply forallb_drop).
  destruct (drop i ds) as [|c t].
  - unfold clash. cbn [app starts_with].
    by rewrite Ha, (Ascii.eqb_sym DQ a), Ha.
  - cbn [forallb] in Ht. apply andb_true_iff in Ht as [Hc Ht].
    change ((c :: t) ++ [DQ]) with (c :: (t ++ [DQ])).
    assert (∃ c' t', t ++ [DQ] = c' :: t'
                     ∧ (is_hex_digit c' = true ∨ c' = DQ)) as (c' & t' & -> & Hc').
    { destruct t as [|c' t']; [by exists DQ, []; auto|].
      cbn [forallb] in Ht. apply andb_true_iff in Ht as [Hc' _].
      exists c', (t' ++ [DQ]). auto. }
    unfold clash. cbn [starts_with].
    rewrite (Hb c' Hc'), (Ascii.eqb_sym c' b), (Hb c' Hc').
    by rewrite !andb_false_r.
Qed.


Lemma inert_hex_attribute (a b : ascii) (p pre ds : text) :
  Ascii.eqb a DQ = false →
  (∀ c, is_hex_digit c = true ∨ c = DQ → Ascii.eqb b c = false) →
  (∀ tail, forallb (λ k, clash (drop k (a :: b :: p))
                           (pre ++ "#"%char :: tail))
             (seq 0 (length (a :: b :: p))) = true) →
  (∀ tail, forallb (λ j, clash (a :: b :: p)
                           (drop j (pre ++ "#"%char :: tail)))
             (seq 0 (S (length pre))) = true) →
  forallb is_hex_digit ds = true →
  inert (a :: b :: p) (pre ++ "#"%char :: ds ++ [DQ]) = true.
Proof.
  intros Ha Hb H1 H2 Hds. unfold inert. apply andb_true_iff. split; [apply H1|].
  apply forallb_forall. intros j Hj%in_seq.
  destruct (decide (j ≤ length pre)) as [Hle|Hgt].
  - specialize (H2 (ds ++ [DQ])). rewrite forallb_forall in H2.
    apply H2, in_seq. lia.
  - rewrite length_app in Hj. cbn [length] in Hj. rewrite length_app in Hj.
    cbn [length] in Hj.
    replace j with (length pre + S (j - length pre - 1)) by lia.
    rewrite <- drop_drop, drop_app_length. cbn [drop].
    rewrite drop_app_le by lia.
    apply clash_hex_tail; [done|done|done|lia].
Qed.

Lemma second_char_clashes (b : ascii) :
  b = "i"%char ∨ b = "t"%char →
  ∀ c, is_hex_digit c = true ∨ c = DQ → Ascii.eqb b c = false.
Proof.
  intros Hb c [Hc| ->].
  - destruct (hex_digit_plain c Hc) as (_ & _ & _ & Hi & Ht & _).
    by destruct Hb as [-> | ->].
  - by destruct Hb as [-> | ->].
Qed.

Lemma inert_fill_fill (ds : text) :
  forallb is_hex_digit ds = true →
  inert fill_black ("fill=" ++ DQ :: ("#"%char :: ds) ++ [DQ]) = true.
Proof.
  intros Hds.
  apply (inert_hex_attribute "f" "i" ("ll=" ++ DQ :: "black" ++ [DQ])
           ("fill=" ++ [DQ]) ds);
    [done|apply second_char_clashes; by left
    |intros tail; vm_compute; reflexivity
    |intros tail; vm_compute; reflexivity|done].
Qed.

Lemma inert_fill_stroke (ds : text) :
  forallb is_hex_digit ds = true →
  inert fill_black ("stroke=" ++ DQ :: ("#"%char :: ds) ++ [DQ]) = true.
Proof.
  intros Hds.
  apply (inert_hex_attribute "f" "i" ("ll=" ++ DQ :: "black" ++ [DQ])
           ("stroke=" ++ [DQ]) ds);
    [done|apply second_char_clashes; by left
    |intros tail; vm_compute; reflexivity
    |intros tail; vm_compute; reflexivity|done].
Qed.

Lemma inert_stroke_stroke (ds : text) :
  forallb is_hex_digit ds = true →
  inert stroke_black ("stroke=" ++ DQ :: ("#"%char :: ds) ++ [DQ]) = true.
Proof.
  intros Hds.
  apply (inert_hex_attribute "s" "t" ("roke=" ++ DQ :: "black" ++ [DQ])
           ("stroke=" ++ [DQ]) ds);
    [done|apply second_char_clashes; by right
    |intros tail; vm_compute; reflexivity
    |intros tail; vm_compute; reflexivity|done].
Qed.

(** With hexadecimal colours no black attribute is left in a recoloured
    text, and recolouring it again changes nothing. *)
Lemma recolored_hex (fd sd c : text) :
  forallb is_hex_digit fd = true → forallb is_hex_digit sd = true →
  contains fill_black (recolored ("#"%char :: fd) ("#"%char :: sd) c) = false
  ∧ contains stroke_black (recolored ("#"%char :: fd) ("#"%char :: sd) c)
    = false
  ∧ recolored ("#"%char :: fd) ("#"%char :: sd)
      (recolored ("#"%char :: fd) ("#"%char :: sd) c)
    = recolored ("#"%char :: fd) ("#"%char :: sd) c.
Proof.
  intros Hfd Hsd.
  assert (contains fill_black
            (recolored ("#"%char :: fd) ("#"%char :: sd) c) = false) as Hf.
  { unfold recolored, gsub.
    apply gsub_go_preserves_no_occurrence;
      [by apply inert_fill_stroke|done|].
    apply gsub_go_no_occurrence; [by apply inert_fill_fill|done]. }
  assert (contains stroke_black
            (recolored ("#"%char :: fd) ("#"%char :: sd) c) = false) as Hs.
  { unfold recolored, gsub.
    apply gsub_go_no_occurrence; [by apply inert_stroke_stroke|done]. }
  split; [done|]. split; [done|].
  unfold recolored at 1.
  by rewrite (gsub_no_occurrence fill_black), gsub_no_occurrence.
Qed.

Section Recolour.
Variable root : text.

Local Notation "'X'" := (xamarin_path root).


End Recolour.

(** ** The loop of an exporter *)

Lemma for_each_ext {A} (l : list A) (body1 body2 : A → cmd unit)
    (fs : gmap text node) :
  (∀ x fs', body1 x fs' = body2 x fs') →
  for_each l body1 fs = for_each l body2 fs.
Proof.
  intros H. revert fs. induction l as [|x l IH]; intros fs; [done|].
  cbn [for_each]. unfold bind. rewrite H.
  destruct (body2 x fs) as [[[]|o e] fs']; [apply IH|done].
Qed.

Lemma bind_ret_tt (m : cmd unit) (fs : gmap text node) :
  (m ;;; ret tt) fs = m fs.
Proof. unfold bind, ret. by destruct (m fs) as [[[]|o e] fs']. Qed.

Section Loop.
Variable rasterize : Z → Z → text → option text.

Lemma ios_body_outputs (ios f : text) (fs : gmap text node) :
  ios_body rasterize ios f fs
  = for_each (ios_outputs ios f)
      (λ wp, inkscape rasterize In_create_ios_images wp.1 wp.1 f wp.2) fs.
Proof.
  unfold ios_body, ios_outputs. cbn [for_each fst snd].
  unfold bind at 1 3. destruct (inkscape _ _ 24%Z _ _ _ fs) as [[[]|o e] fs1]; [|done].
  unfold bind at 1 2. destruct (inkscape _ _ 48%Z _ _ _ fs1) as [[[]|o e] fs2]; [|done].
  by rewrite bind_ret_tt.
Qed.

Lemma android_body_outputs (android f : text) (fs : gmap text node) :
  android_body rasterize (join android "drawable")
    (join android "drawable-hdpi") (join android "drawable-xhdpi")
    (join android "drawable-xxhdpi") (join android "drawable-xxxhdpi") f fs
  = for_each (android_outputs android f)
      (λ wp, inkscape rasterize In_create_android_images wp.1 wp.1 f wp.2) fs.
Proof.
  unfold android_body, android_outputs. cbn [for_each fst snd].
  unfold bind at 1 5. destruct (inkscape _ _ 60%Z _ _ _ fs) as [[[]|o e] fs1]; [|done].
  unfold bind at 1 4. destruct (inkscape _ _ 48%Z _ _ _ fs1) as [[[]|o e] fs2]; [|done].
  unfold bind at 1 3. destruct (inkscape _ _ 64%Z _ _ _ fs2) as [[[]|o e] fs3]; [|done].
  unfold bind at 1 2. destruct (inkscape _ _ 96%Z _ _ _ fs3) as [[[]|o e] fs4]; [|done].
  by rewrite bind_ret_tt.
Qed.

(** The outputs of one icon, whose text is [c]. *)
Lemma rasterize_one (o : origin) (f c : text) (outs : list (Z * text))
    (fs : gmap text node) :
  fs !! f = Some (File c) →
  (∀ w p, (w, p) ∈ outs → is_Some (rasterize w w c)) →
  (∀ w p, (w, p) ∈ outs → p ≠ f) →
  ∃ fs',
    for_each outs (λ wp, inkscape rasterize o wp.1 wp.1 f wp.2) fs = (Ok tt, fs')
    ∧ (∀ p, p ∉ outs.*2 → fs' !! p = fs !! p)
    ∧ (∀ p, p ∈ outs.*2 →
            ∃ w, (w, p) ∈ outs ∧ fs' !! p = File <$> rasterize w w c).
Proof.
  revert fs. induction outs as [|[w q] outs IH]; intros fs Hf Hr Hne.
  - exists fs. split; [done|]. split; [done|].
    intros p Hp. by apply elem_of_nil in Hp.
  - destruct (Hr w q) as [d Hd]; [left|].
    cbn [for_each fst snd]. unfold bind.
    rewrite (inkscape_run rasterize _ _ _ _ _ c d) by done.
    destruct (IH (<[q := File d]> fs)) as (fs' & Hrun & Hout & Hin).
    { rewrite lookup_insert_ne; [done|]. apply (Hne w). left. }
    { intros w' p Hp. apply (Hr w' p). by right. }
    { intros w' p Hp. apply (Hne w' p). by right. }
    exists fs'. split; [exact Hrun|]. split.
    + intros p Hp. rewrite fmap_cons, not_elem_of_cons in Hp.
      destruct Hp as [Hpq Hp]. rewrite Hout by done.
      by rewrite lookup_insert_ne.
    + intros p Hp. destruct (decide (p ∈ outs.*2)) as [Hlater|Hlater].
      * destruct (Hin p Hlater) as (w' & Hw' & Hfs'). exists w'.
        split; [by right|done].
      * rewrite fmap_cons in Hp. apply elem_of_cons in Hp as [->|?]; [|done].
        exists w. split; [left|]. rewrite Hout by done.
        by rewrite lookup_insert_eq, Hd.
Qed.

(** The loop over the icons: a path that no icon is written to is left as it
    was, and a path that some icon is written to holds one of the files that
    are written to it. *)
Lemma rasterize_all_spec (o : origin) (outputs : text → list (Z * text))
    (found : list text) (fs : gmap text node) :
  (∀ f, f ∈ found →
        ∃ c, fs !! f = Some (File c)
             ∧ ∀ w p, (w, p) ∈ outputs f → is_Some (rasterize w w c)) →
  (∀ f g w p, f ∈ found → g ∈ found → (w, p) ∈ outputs g → p ≠ f) →
  ∃ fs',
    rasterize_all rasterize o outputs found fs = (Ok tt, fs')
    ∧ (∀ p, (∀ f, f ∈ found → p ∉ (outputs f).*2) → fs' !! p = fs !! p)
    ∧ (∀ p f, f ∈ found → p ∈ (outputs f).*2 →
              ∃ g w c, g ∈ found ∧ (w, p) ∈ outputs g
                       ∧ fs !! g = Some (File c)
                       ∧ fs' !! p = File <$> rasterize w w c).
Proof.
  unfold rasterize_all.
  revert fs. induction found as [|f found IH]; intros fs Hsrc Hne.
  - exists fs. split; [done|]. split; [done|].
    intros p f Hf. by apply elem_of_nil in Hf.
  - destruct (Hsrc f) as (c & Hc & Hr); [left|].
    destruct (rasterize_one o f c (outputs f) fs Hc Hr)
      as (fs1 & Hrun1 & Hout1 & Hin1).
    { intros w p Hp. apply (Hne f f w p); [left|left|done]. }
    assert (∀ g, g ∈ found → fs1 !! g = fs !! g) as Hkeep.
    { intros g Hg. apply Hout1. intros ([w p] & Heq & Hp)%list_elem_of_fmap.
      simpl in Heq. subst p. apply (Hne g f w g); [by right|left|done|done]. }
    destruct (IH fs1) as (fs' & Hrun & Hout & Hin).
    { intros g Hg. rewrite Hkeep by done. apply Hsrc. by right. }
    { intros g1 g2 w p Hg1 Hg2. apply Hne; by right. }
    exists fs'. cbn [for_each]. unfold bind at 1. rewrite Hrun1.
    split; [exact Hrun|]. split.
    + intros p Hp. rewrite Hout.
      * apply Hout1, Hp. left.
      * intros g Hg. apply Hp. by right.
    + intros p g Hg Hp.
      destruct (decide (Exists (λ g', p ∈ (outputs g').*2) found))
        as [Hlater|Hlater].
      * apply Exists_exists in Hlater as (g' & Hg' & Hp').
        destruct (Hin p g' Hg' Hp') as (g2 & w & c2 & Hg2 & Hw & Hc2 & Hfs').
        exists g2, w, c2. rewrite Hkeep in Hc2 by done.
        split; [by right|done].
      * rewrite Exists_exists in Hlater.
        apply elem_of_cons in Hg as [->|Hg]; [|destruct Hlater; eauto].
        destruct (Hin1 p Hp) as (w & Hw & Hfs1).
        exists f, w, c. split; [left|]. split; [done|]. split; [done|].
        rewrite Hout; [done|]. intros g' Hg' Hp'. destruct Hlater; eauto.
Qed.

End Loop.

(** ** The iOS export *)

Section Ios.
Variable root : text.
Variable rasterize : Z → Z → text → option text.

Local Notation "'X'" := (xamarin_path root).

Lemma workspace_absolute (k : text) :
  starts_with "/" root = true → starts_with "/" (X ++ k) = true.
Proof.
  intros H. rewrite xamarin_path_eq. do 2 apply starts_with_app_l.
  destruct (with_sep_cases root) as [->| ->]; [done|].
  by apply starts_with_app_l.
Qed.

Lemma ios_outputs_eq (f : text) :
  ios_outputs (X ++ "/ios") f
  = [(24%Z, X ++ "/ios" ++ "/" ++ ios_name f ++ ".png");
     (48%Z, X ++ "/ios" ++ "/" ++ ios_name f ++ "@2x.png");
     (72%Z, X ++ "/ios" ++ "/" ++ ios_name f ++ "@3x.png")].
Proof.
  unfold ios_outputs. cbv zeta.
  rewrite !(join_app X "/ios");
    first [done | apply starts_with_slash_name; [apply ios_name_no_slash|done]].
Qed.

Lemma ios_outputs_under (f png : text) :
  png ∈ (ios_outputs (X ++ "/ios") f).*2 → under (X ++ "/ios") png = true.
Proof.
  rewrite ios_outputs_eq. cbn [fmap list_fmap snd].
  intros H. repeat (apply elem_of_cons in H as [->|H];
                    [rewrite app_assoc; apply under_below|]).
  by apply elem_of_nil in H.
Qed.

Lemma ios_outputs_functional (f png : text) (w w' : Z) :
  (w, png) ∈ ios_outputs (X ++ "/ios") f →
  (w', png) ∈ ios_outputs (X ++ "/ios") f → w = w'.
Proof.
  rewrite ios_outputs_eq, !elem_of_cons, !elem_of_nil.
  intros [H|[H|[H|[]]]] [H'|[H'|[H'|[]]]];
    injection H as -> ->;
    pose proof (f_equal fst H') as Hw; pose proof (f_equal snd H') as Hp;
    cbn [fst snd] in Hw, Hp; subst w'; try reflexivity;
    exfalso; apply app_inv_head, (app_inv_head "/ios/"), app_inv_head in Hp;
    discriminate Hp.
Qed.

(** A new directory beside the icons does not change what [find] sees. *)
Lemma icon_at_insert (dir k : text) (n : node) (fs : gmap text node) (p : text) :
  under dir k = false →
  icon_at dir (<[k := n]> fs) p ↔ icon_at dir fs p.
Proof.
  intros Hk. unfold icon_at. split; intros (Hp & Hu & Hg); split; try done.
  - rewrite lookup_insert_ne in Hp; [done|]. intros ->. congruence.
  - by apply is_Some_insert.
Qed.

Lemma find_svg_icons (dir : text) (fs : gmap text node) :
  path_exists dir fs = true →
  ∃ ps, find_svg dir fs = Some ps ∧ ∀ p, p ∈ ps ↔ icon_at dir fs p.
Proof.
  intros [ps Hps]%find_svg_exists. exists ps. split; [done|].
  apply (find_svg_spec _ _ _ Hps).
Qed.

(** The iOS export of a workspace without [ios/]: what the output paths
    hold, and what is left alone. *)
Lemma create_ios_images_spec (fs : gmap text node) :
  starts_with "/" root = true →
  path_exists (X ++ "/svg") fs = true →
  path_exists (X ++ "/ios") fs = false →
  (∀ p, icon_at (X ++ "/svg") fs p →
        (LF ∉ p)
        ∧ ∃ c, fs !! p = Some (File c) ∧ ∀ w, is_Some (rasterize w w c)) →
  ∃ fs',
    create_ios_images root rasterize fs = (Ok tt, fs')
    ∧ fs' !! (X ++ "/ios") = Some Dir
    ∧ (∀ p w png,
          icon_at (X ++ "/svg") fs p →
          (w, png) ∈ ios_outputs (X ++ "/ios") p →
          ∃ q w' c,
            icon_at (X ++ "/svg") fs q
            ∧ (w', png) ∈ ios_outputs (X ++ "/ios") q
            ∧ fs !! q = Some (File c)
            ∧ fs' !! png = File <$> rasterize w' w' c)
    ∧ (∀ q, under (X ++ "/ios") q = true → is_Some (fs' !! q) →
            q = X ++ "/ios"
            ∨ ∃ p, icon_at (X ++ "/svg") fs p
                   ∧ q ∈ (ios_outputs (X ++ "/ios") p).*2)
    ∧ (∀ q, under (X ++ "/ios") q = false → fs' !! q = fs !! q).
Proof.
  intros Habs Hsvg Hios Hicons.
  assert (path_exists X fs = true) as HX.
  { eapply path_exists_above; [|exact Hsvg]. apply (under_below X "svg"). }
  unfold create_ios_images. rewrite bind_get_xamarin_directory, HX.
  cbn [andb negb]. cbv zeta. rewrite ios_dir_eq, svg_dir_eq.
  unfold bind at 1. rewrite ensure_dir_new by done.
  set (fs2 := <[X ++ "/ios" := Dir]> fs).
  assert (∀ p, icon_at (X ++ "/svg") fs2 p ↔ icon_at (X ++ "/svg") fs p)
    as Hsame.
  { intros p. apply icon_at_insert. by rewrite under_pp. }
  assert (∀ p, under (X ++ "/svg") p = true → fs2 !! p = fs !! p) as Hfs2.
  { intros p Hp. apply lookup_insert_ne. intros <-.
    rewrite under_pp in Hp. discriminate Hp. }
  destruct (find_svg_icons (X ++ "/svg") fs2) as (ps & Hfind & Hps).
  { eapply path_exists_mono; [|exact Hsvg]. intros p. apply is_Some_insert. }
  unfold bind at 1.
  rewrite (found_files_paths In_create_ios_images _ _ _ Hfind).
  2:{ by apply workspace_absolute. }
  2:{ intros p Hp Hu Hg. apply Hicons, Hsame. by split. }
  rewrite (for_each_ext _ _ _ _ (ios_body_outputs rasterize (X ++ "/ios"))).
  destruct (rasterize_all_spec rasterize In_create_ios_images
              (ios_outputs (X ++ "/ios")) ps fs2)
    as (fs' & Hrun & Hout & Hin).
  { intros f Hf. pose proof (proj1 (Hps f) Hf) as Hicon.
    destruct (Hicons f (proj1 (Hsame f) Hicon)) as [_ (c & Hc & Hr)].
    exists c. split; [|by intros w p _].
    rewrite Hfs2; [done|]. apply Hicon. }
  { intros f g w p (_ & Hf & _)%Hps _ Hp ->.
    assert (p_under : under (X ++ "/ios") f = true).
    { apply (ios_outputs_under g). apply list_elem_of_fmap. by exists (w, f). }
    rewrite (under_apart (X ++ "/svg") (X ++ "/ios") f) in p_under;
      [done|by rewrite under_pp|by rewrite under_pp|done]. }
  assert (∀ p w png,
            icon_at (X ++ "/svg") fs p →
            (w, png) ∈ ios_outputs (X ++ "/ios") p →
            ∃ q w' c,
              icon_at (X ++ "/svg") fs q
              ∧ (w', png) ∈ ios_outputs (X ++ "/ios") q
              ∧ fs !! q = Some (File c)
              ∧ fs' !! png = File <$> rasterize w' w' c) as Hsome.
  { intros p w png Hp Hpng.
    destruct (Hin png p) as (g & w' & c' & Hg & Hw' & Hc' & Hfs');
      [by apply Hps, Hsame| |].
    { apply list_elem_of_fmap. by exists (w, png). }
    pose proof (proj1 (Hsame g) (proj1 (Hps g) Hg)) as Hig.
    rewrite Hfs2 in Hc' by apply Hig. by exists g, w', c'. }
  exists fs'. split; [exact Hrun|]. split; [|split; [exact Hsome|split]].
  - rewrite Hout; [apply lookup_insert_eq|].
    intros f _ ([w p] & Heq & Hp)%list_elem_of_fmap. cbn [snd] in Heq. subst p.
    rewrite ios_outputs_eq, !elem_of_cons, elem_of_nil in Hp.
    destruct Hp as [Hp|[Hp|[Hp|[]]]]; apply (f_equal snd) in Hp;
      cbn [snd] in Hp; apply (f_equal length) in Hp;
      rewrite !length_app in Hp; simpl in Hp; lia.
  - intros q Hu Hq.
    destruct (decide (Exists (λ f, q ∈ (ios_outputs (X ++ "/ios") f).*2) ps))
      as [Hw|Hw]; rewrite Exists_exists in Hw.
    + destruct Hw as (f & Hf & Hqf). right. exists f.
      split; [by apply Hsame, Hps|done].
    + left. rewrite Hout in Hq by (intros f Hf Hqf; destruct Hw; eauto).
      destruct (decide (q = X ++ "/ios")) as [->|Hne]; [done|].
      unfold fs2 in Hq. rewrite lookup_insert_ne in Hq by done.
      rewrite (proj1 (path_exists_false _ _) Hios q Hu) in Hq.
      by destruct Hq.
  - intros q Hu. rewrite Hout.
    + apply lookup_insert_ne. intros <-. by rewrite under_refl in Hu.
    + intros f _ Hq%ios_outputs_under. congruence.
Qed.


End Ios.

(** ** The Android export *)

Section Android.
Variable root : text.
Variable rasterize : Z → Z → text → option text.

Local Notation "'X'" := (xamarin_path root).

Lemma android_outputs_eq (f : text) :
  android_outputs (X ++ "/android") f
  = [(60%Z, X ++ "/android/drawable" ++ "/" ++ android_name f ++ ".png");
     (48%Z, X ++ "/android/drawable-hdpi" ++ "/" ++ android_name f ++ ".png");
     (64%Z, X ++ "/android/drawable-xhdpi" ++ "/" ++ android_name f ++ ".png");
     (96%Z, X ++ "/android/drawable-xxhdpi" ++ "/" ++ android_name f ++ ".png");
     (128%Z, X ++ "/android/drawable-xxxhdpi" ++ "/" ++ android_name f ++ ".png")].
Proof.
  unfold android_outputs. cbv zeta. rewrite !android_bucket_eq by done.
  change (X ++ "/android/" ++ "drawable") with (X ++ "/android/drawable").
  change (X ++ "/android/" ++ "drawable-hdpi")
    with (X ++ "/android/drawable-hdpi").
  change (X ++ "/android/" ++ "drawable-xhdpi")
    with (X ++ "/android/drawable-xhdpi").
  change (X ++ "/android/" ++ "drawable-xxhdpi")
    with (X ++ "/android/drawable-xxhdpi").
  change (X ++ "/android/" ++ "drawable-xxxhdpi")
    with (X ++ "/android/drawable-xxxhdpi").
  assert (starts_with "/" (android_name f ++ ".png") = false) as Hn
    by (apply starts_with_slash_name; [apply android_name_no_slash|done]).
  rewrite (join_app X "/android/drawable"),
    (join_app X "/android/drawable-hdpi"),
    (join_app X "/android/drawable-xhdpi"),
    (join_app X "/android/drawable-xxhdpi"),
    (join_app X "/android/drawable-xxxhdpi") by done.
  reflexivity.
Qed.

Lemma android_output_facts (bucket name : text) :
  "/"%char ∉ bucket → "/"%char ∉ name →
  let png := X ++ ("/android/" ++ bucket) ++ "/" ++ name ++ ".png" in
  under (X ++ "/android") png = true
  ∧ basename png = name ++ ".png"
  ∧ png ≠ X ++ "/android"
  ∧ ∀ b, "/"%char ∉ b → ends_with ".png" b = false →
         png ≠ X ++ "/android/" ++ b.
Proof.
  intros Hb Hn png.
  assert ("/"%char ∉ name ++ ".png") as Hn'.
  { rewrite elem_of_app. intros [H|H]; [done|].
    revert H. by apply not_elem_of_literal. }
  assert (basename png = name ++ ".png") as Hbase.
  { unfold png. rewrite app_assoc. by apply basename_app. }
  split; [|split; [done|split]].
  - unfold png. rewrite under_pp.
    change ("/android/" ++ bucket) with ("/android" ++ "/" ++ bucket).
    rewrite <- !app_assoc. apply under_below.
  - intros H. apply (f_equal basename) in H. rewrite Hbase in H.
    change (X ++ "/android") with (X ++ "/" ++ "android") in H.
    rewrite basename_app in H by (by apply not_elem_of_literal).
    apply (f_equal (@rev _)) in H. rewrite rev_app_distr in H.
    discriminate H.
  - intros b Hb' Hend H. apply (f_equal basename) in H. rewrite Hbase in H.
    change (X ++ "/android/" ++ b) with (X ++ "/android" ++ "/" ++ b) in H.
    rewrite app_assoc, basename_app in H by done.
    rewrite <- H in Hend. unfold ends_with in Hend.
    rewrite rev_app_distr in Hend. discriminate Hend.
Qed.

Lemma android_outputs_facts (f png : text) :
  png ∈ (android_outputs (X ++ "/android") f).*2 →
  under (X ++ "/android") png = true
  ∧ basename png = android_name f ++ ".png"
  ∧ png ∉ android_dirs root.
Proof.
  rewrite android_outputs_eq. cbn [fmap list_fmap snd].
  assert (∀ bucket,
            "/"%char ∉ bucket → ends_with ".png" bucket = false →
            let q := X ++ ("/android/" ++ bucket) ++ "/"
                     ++ android_name f ++ ".png" in
            under (X ++ "/android") q = true
            ∧ basename q = android_name f ++ ".png"
            ∧ q ∉ android_dirs root) as Hone.
  { intros bucket Hb _ q.
    destruct (android_output_facts bucket (android_name f) Hb
                (android_name_no_slash f)) as (H1 & H2 & H3 & H4).
    fold q in H1, H2, H3, H4.
    split; [done|]. split; [done|].
    unfold android_dirs. rewrite !elem_of_cons, elem_of_nil.
    intros [Hd|[Hd|[Hd|[Hd|[Hd|[Hd|[]]]]]]]; [done|..];
      revert Hd; apply H4; first [by apply not_elem_of_literal|done]. }
  intros H.
  repeat (apply elem_of_cons in H as [->|H];
          [apply Hone; first [by apply not_elem_of_literal|done]|]).
  by apply elem_of_nil in H.
Qed.

Lemma android_outputs_functional (f png : text) (w w' : Z) :
  (w, png) ∈ android_outputs (X ++ "/android") f →
  (w', png) ∈ android_outputs (X ++ "/android") f → w = w'.
Proof.
  rewrite android_outputs_eq, !elem_of_cons, !elem_of_nil.
  intros [H|[H|[H|[H|[H|[]]]]]] [H'|[H'|[H'|[H'|[H'|[]]]]]];
    injection H as -> ->;
    pose proof (f_equal fst H') as Hw; pose proof (f_equal snd H') as Hp;
    cbn [fst snd] in Hw, Hp; subst w'; try reflexivity;
    exfalso; apply app_inv_head in Hp; discriminate Hp.
Qed.

(** The directories that [create_android_images] makes in a workspace
    without [android/]. *)
Lemma android_dirs_made (fs : gmap text node) :
  path_exists X fs = true →
  path_exists (X ++ "/android") fs = false →
    create_android_images root rasterize fs
    = (found_files <- found_files In_create_android_images (X ++ "/svg") ;;
       for_each found_files
         (android_body rasterize
            (join (X ++ "/android") "drawable")
            (join (X ++ "/android") "drawable-hdpi")
            (join (X ++ "/android") "drawable-xhdpi")
            (join (X ++ "/android") "drawable-xxhdpi")
            (join (X ++ "/android") "drawable-xxxhdpi")))
        (<[X ++ "/android/drawable-xxxhdpi" := Dir]>
           (<[X ++ "/android/drawable-xxhdpi" := Dir]>
              (<[X ++ "/android/drawable-xhdpi" := Dir]>
                 (<[X ++ "/android/drawable-hdpi" := Dir]>
                    (<[X ++ "/android/drawable" := Dir]>
                       (<[X ++ "/android" := Dir]> fs)))))).
Proof.
  intros HX Habsent.
  assert (∀ a, under "/android" a = true →
               path_exists (X ++ a) fs = false) as Hsub.
  { intros a Ha. apply path_exists_false. intros k Hk.
    apply (proj1 (path_exists_false _ _) Habsent).
    eapply under_trans; [|exact Hk]. by rewrite under_pp. }
  unfold create_android_images. rewrite bind_get_xamarin_directory, HX.
  cbn [andb negb]. cbv zeta.
  rewrite android_dir_eq, svg_dir_eq.
  unfold bind at 1. rewrite ensure_dir_new by done.
  unfold bind at 1. cbn [for_each].
  rewrite !android_bucket_eq by done.
  change (X ++ "/android/" ++ "drawable") with (X ++ "/android/drawable").
  change (X ++ "/android/" ++ "drawable-hdpi")
    with (X ++ "/android/drawable-hdpi").
  change (X ++ "/android/" ++ "drawable-xhdpi")
    with (X ++ "/android/drawable-xhdpi").
  change (X ++ "/android/" ++ "drawable-xxhdpi")
    with (X ++ "/android/drawable-xxhdpi").
  change (X ++ "/android/" ++ "drawable-xxxhdpi")
    with (X ++ "/android/drawable-xxxhdpi").
  unfold bind at 1. rewrite ensure_dir_new
    by (apply path_exists_insert_false; [by apply Hsub|by rewrite under_pp]).
  unfold bind at 1. rewrite ensure_dir_new
    by (repeat (apply path_exists_insert_false; [|by rewrite under_pp]);
        by apply Hsub).
  unfold bind at 1. rewrite ensure_dir_new
    by (repeat (apply path_exists_insert_false; [|by rewrite under_pp]);
        by apply Hsub).
  unfold bind at 1. rewrite ensure_dir_new
    by (repeat (apply path_exists_insert_false; [|by rewrite under_pp]);
        by apply Hsub).
  unfold bind at 1. rewrite ensure_dir_new
    by (repeat (apply path_exists_insert_false; [|by rewrite under_pp]);
        by apply Hsub).
  reflexivity.
Qed.

(** The Android export of a workspace without [android/]: what the output
    paths hold, and what is left alone. *)
Lemma create_android_images_spec (fs : gmap text node) :
  starts_with "/" root = true →
  path_exists (X ++ "/svg") fs = true →
  path_exists (X ++ "/android") fs = false →
  (∀ p, icon_at (X ++ "/svg") fs p →
        (LF ∉ p)
        ∧ ∃ c, fs !! p = Some (File c) ∧ ∀ w, is_Some (rasterize w w c)) →
  ∃ fs',
    create_android_images root rasterize fs = (Ok tt, fs')
    ∧ (∀ p w png,
          icon_at (X ++ "/svg") fs p →
          (w, png) ∈ android_outputs (X ++ "/android") p →
          ∃ q c,
            icon_at (X ++ "/svg") fs q
            ∧ android_name q = android_name p
            ∧ fs !! q = Some (File c)
            ∧ fs' !! png = File <$> rasterize w w c)
    ∧ (∀ d, d ∈ android_dirs root → fs' !! d = Some Dir)
    ∧ (∀ q, under (X ++ "/android") q = true → is_Some (fs' !! q) →
            q ∈ android_dirs root
            ∨ ∃ p, icon_at (X ++ "/svg") fs p
                   ∧ q ∈ (android_outputs (X ++ "/android") p).*2)
    ∧ (∀ q, under (X ++ "/android") q = false → fs' !! q = fs !! q).
Proof.
  intros Habs Hsvg Handroid Hicons.
  assert (path_exists X fs = true) as HX.
  { eapply path_exists_above; [|exact Hsvg]. apply (under_below X "svg"). }
  rewrite (android_dirs_made fs HX Handroid).
  set (fs2 := <[X ++ "/android/drawable-xxxhdpi" := Dir]> _).
  assert (∀ q, fs2 !! q = if bool_decide (q ∈ android_dirs root) then Some Dir
                          else fs !! q) as Hfs2.
  { intros q. unfold fs2, android_dirs.
    destruct (bool_decide _) eqn:E.
    - apply bool_decide_eq_true in E.
      rewrite !elem_of_cons, elem_of_nil in E.
      destruct E as [->|[->|[->|[->|[->|[->|[]]]]]]];
        rewrite ?lookup_insert_ne by path_ne; apply lookup_insert_eq.
    - apply bool_decide_eq_false in E.
      rewrite !not_elem_of_cons in E.
      destruct E as (? & ? & ? & ? & ? & ? & _).
      by rewrite !lookup_insert_ne by done. }
  assert (∀ d, d ∈ android_dirs root → under (X ++ "/android") d = true) as Hdirs.
  { intros d Hd. unfold android_dirs in Hd.
    repeat (apply elem_of_cons in Hd as [->|Hd]; [by rewrite under_pp|]).
    by apply elem_of_nil in Hd. }
  assert (∀ p, under (X ++ "/svg") p = true → fs2 !! p = fs !! p) as Hsrc.
  { intros p Hp. rewrite Hfs2. rewrite bool_decide_eq_false_2; [done|].
    intros Hd%Hdirs.
    rewrite (under_apart (X ++ "/svg") (X ++ "/android") p) in Hd;
      [done|by rewrite under_pp|by rewrite under_pp|done]. }
  assert (∀ p, icon_at (X ++ "/svg") fs2 p ↔ icon_at (X ++ "/svg") fs p)
    as Hsame.
  { intros p. unfold icon_at. split; intros (Hp & Hu & Hg); split; try done.
    - by rewrite <- Hsrc.
    - by rewrite Hsrc. }
  destruct (find_svg_icons (X ++ "/svg") fs2) as (ps & Hfind & Hps).
  { apply path_exists_spec in Hsvg as (k & Hk & Hu). apply path_exists_spec.
    exists k. by rewrite Hsrc. }
  unfold bind at 1.
  rewrite (found_files_paths In_create_android_images _ _ _ Hfind).
  2:{ by apply workspace_absolute. }
  2:{ intros p Hp Hu Hg. apply Hicons, Hsame. by split. }
  rewrite (for_each_ext _ _ _ _
             (android_body_outputs rasterize (X ++ "/android"))).
  destruct (rasterize_all_spec rasterize In_create_android_images
              (android_outputs (X ++ "/android")) ps fs2)
    as (fs' & Hrun & Hout & Hin).
  { intros f Hf. pose proof (proj1 (Hps f) Hf) as Hicon.
    destruct (Hicons f (proj1 (Hsame f) Hicon)) as [_ (c & Hc & Hr)].
    exists c. split; [|by intros w p _].
    rewrite Hsrc; [done|]. apply Hicon. }
  { intros f g w p (_ & Hf & _)%Hps _ Hp ->.
    assert (p_under : under (X ++ "/android") f = true).
    { apply (android_outputs_facts g). apply list_elem_of_fmap.
      by exists (w, f). }
    rewrite (under_apart (X ++ "/svg") (X ++ "/android") f) in p_under;
      [done|by rewrite under_pp|by rewrite under_pp|done]. }
  assert (∀ p w png,
            icon_at (X ++ "/svg") fs p →
            (w, png) ∈ android_outputs (X ++ "/android") p →
            ∃ q c,
              icon_at (X ++ "/svg") fs q
              ∧ android_name q = android_name p
              ∧ fs !! q = Some (File c)
              ∧ fs' !! png = File <$> rasterize w w c) as Hsome.
  { intros p w png Hp Hpng.
    assert (png ∈ (android_outputs (X ++ "/android") p).*2) as Hpng'.
    { apply list_elem_of_fmap. by exists (w, png). }
    destruct (Hin png p) as (g & w' & c' & Hg & Hw' & Hc' & Hfs');
      [by apply Hps, Hsame|done|].
    pose proof (proj1 (Hsame g) (proj1 (Hps g) Hg)) as Hig.
    rewrite Hsrc in Hc' by apply Hig.
    assert (android_name g = android_name p) as Hname.
    { assert (png ∈ (android_outputs (X ++ "/android") g).*2) as Hpng''.
      { apply list_elem_of_fmap. by exists (w', png). }
      apply android_outputs_facts in Hpng' as (_ & Hb & _).
      apply android_outputs_facts in Hpng'' as (_ & Hb' & _).
      rewrite Hb in Hb'. by apply app_inv_tail in Hb'. }
    assert (w' = w) as ->.
    { apply (android_outputs_functional p png); [|done].
      unfold android_outputs in Hw' |- *. by rewrite <- Hname. }
    by exists g, c'. }
  exists fs'. split; [exact Hrun|]. split; [exact Hsome|].
  split; [|split].
  - intros d Hd. rewrite Hout.
    + rewrite Hfs2. by rewrite bool_decide_eq_true_2.
    + intros f _ (_ & _ & Hnd)%android_outputs_facts. done.
  - intros q Hu Hq.
    destruct (decide (Exists (λ f, q ∈ (android_outputs (X ++ "/android") f).*2)
                        ps)) as [Hw|Hw]; rewrite Exists_exists in Hw.
    + destruct Hw as (f & Hf & Hqf). right. exists f.
      split; [by apply Hsame, Hps|done].
    + left. rewrite Hout in Hq by (intros f Hf Hqf; destruct Hw; eauto).
      rewrite Hfs2 in Hq.
      destruct (bool_decide (q ∈ android_dirs root)) eqn:E;
        [by apply bool_decide_eq_true in E|].
      rewrite (proj1 (path_exists_false _ _) Handroid q Hu) in Hq.
      by destruct Hq.
  - intros q Hu. rewrite Hout.
    + rewrite Hfs2. rewrite bool_decide_eq_false_2; [done|].
      intros Hd%Hdirs. congruence.
    + intros f _ (Hq & _)%android_outputs_facts. congruence.
Qed.


End Android.

(** ** Writing in one directory *)

Lemma writes_only_bind {A B} (d : text) (m : cmd A) (k : A → cmd B) :
  writes_only d m → (∀ a, writes_only d (k a)) → writes_only d (bind m k).
Proof.
  intros Hm Hk fs p Hp. unfold bind. specialize (Hm fs p Hp).
  destruct (m fs) as [[a|o e] fs']; [|done].
  rewrite Hk by done. done.
Qed.

Lemma writes_only_for_each {A} (d : text) (l : list A) (body : A → cmd unit) :
  (∀ x, writes_only d (body x)) → writes_only d (for_each l body).
Proof.
  intros H. induction l as [|x l IH]; [by intros fs p Hp|].
  cbn [for_each]. apply writes_only_bind; [apply H|]. by intros _.
Qed.

Lemma writes_only_ensure_dir (d k : text) :
  under d k = true → writes_only d (ensure_dir k).
Proof.
  intros Hk fs p Hp. unfold ensure_dir. cbn [snd].
  destruct (path_exists k fs); [done|].
  apply lookup_insert_ne. intros ->. congruence.
Qed.

Lemma writes_only_found_files (d : text) (o : origin) (svg : text) :
  writes_only d (found_files o svg).
Proof. intros fs p Hp. unfold found_files. by destruct (find_svg svg fs). Qed.

Lemma ensure_dir_exists (d : text) (fs : gmap text node) :
  path_exists d (ensure_dir d fs).2 = true.
Proof.
  unfold ensure_dir. cbn [snd]. destruct (path_exists d fs) eqn:E; [done|].
  apply (path_exists_lookup _ _ Dir), lookup_insert_eq.
Qed.

Lemma ensure_dir_absent (d k : text) (fs : gmap text node) :
  path_exists d fs = false → under d k = false →
  path_exists d (ensure_dir k fs).2 = false.
Proof.
  intros Hd Hk. unfold ensure_dir. cbn [snd].
  destruct (path_exists k fs); [done|]. by apply path_exists_insert_false.
Qed.

Section Writes.
Variable root : text.
Variable rasterize : Z → Z → text → option text.

Local Notation "'X'" := (xamarin_path root).

Lemma writes_only_inkscape (d : text) (o : origin) (w h : Z)
    (svg_file png : text) :
  under d png = true → writes_only d (inkscape rasterize o w h svg_file png).
Proof.
  intros Hpng fs p Hp. unfold inkscape.
  destruct (fs !! svg_file) as [[|svg]|]; try done.
  destruct (rasterize w h svg); [|done].
  apply lookup_insert_ne. intros ->. congruence.
Qed.

Lemma writes_only_outputs (d : text) (o : origin) (f : text)
    (outs : list (Z * text)) :
  (∀ png, png ∈ outs.*2 → under d png = true) →
  writes_only d (for_each outs (λ wp,
                   inkscape rasterize o wp.1 wp.1 f wp.2)).
Proof.
  intros H. induction outs as [|[w q] outs IH]; [by intros fs p Hp|].
  cbn [for_each]. apply writes_only_bind.
  - apply writes_only_inkscape. apply H. cbn. left.
  - intros _. apply IH. intros png Hpng. apply H. cbn. by right.
Qed.

Lemma writes_only_ios_loop (l : list text) :
  writes_only (X ++ "/ios")
    (for_each l (ios_body rasterize (X ++ "/ios"))).
Proof.
  intros fs p Hp.
  rewrite (for_each_ext _ _ _ _ (ios_body_outputs rasterize (X ++ "/ios"))).
  revert fs p Hp. apply writes_only_for_each. intros f.
  apply writes_only_outputs. apply ios_outputs_under.
Qed.

Lemma writes_only_android_loop (l : list text) :
  writes_only (X ++ "/android")
    (for_each l
       (android_body rasterize
          (join (X ++ "/android") "drawable")
          (join (X ++ "/android") "drawable-hdpi")
          (join (X ++ "/android") "drawable-xhdpi")
          (join (X ++ "/android") "drawable-xxhdpi")
          (join (X ++ "/android") "drawable-xxxhdpi"))).
Proof.
  intros fs p Hp.
  rewrite (for_each_ext _ _ _ _
             (android_body_outputs rasterize (X ++ "/android"))).
  revert fs p Hp. apply writes_only_for_each. intros f.
  apply writes_only_outputs. intros png Hpng.
  by apply (android_outputs_facts root f).
Qed.

Lemma android_buckets_under (d : text) :
  d ∈ [join (X ++ "/android") "drawable";
       join (X ++ "/android") "drawable-hdpi";
       join (X ++ "/android") "drawable-xhdpi";
       join (X ++ "/android") "drawable-xxhdpi";
       join (X ++ "/android") "drawable-xxxhdpi"] →
  under (X ++ "/android") d = true.
Proof.
  rewrite !android_bucket_eq by done. intros Hd.
  repeat (apply elem_of_cons in Hd as [->|Hd]; [by rewrite under_pp|]).
  by apply elem_of_nil in Hd.
Qed.

Lemma writes_only_for_each_in {A} (d : text) (l : list A)
    (body : A → cmd unit) :
  (∀ x, x ∈ l → writes_only d (body x)) → writes_only d (for_each l body).
Proof.
  intros H. induction l as [|x l IH]; [by intros fs p Hp|].
  cbn [for_each]. apply writes_only_bind; [apply H; left|].
  intros _. apply IH. intros y Hy. apply H. by right.
Qed.

Lemma bind_xamarin_writes {B} (k : text → cmd B) (d : text)
    (fs : gmap text node) (q : text) :
  writes_only d (k X) → q ≠ X → under d q = false →
  (bind (get_xamarin_directory root true) k fs).2 !! q = fs !! q.
Proof.
  intros Hk Hq Hd. rewrite bind_get_xamarin_directory, Hk by done.
  destruct (true && negb (path_exists X fs)); [|done].
  by apply lookup_insert_ne.
Qed.

Lemma create_ios_images_writes (fs : gmap text node) (q : text) :
  q ≠ X → under (X ++ "/ios") q = false →
  (create_ios_images root rasterize fs).2 !! q = fs !! q.
Proof.
  intros Hq Hu. apply (bind_xamarin_writes _ (X ++ "/ios")); [|done|done].
  cbv beta zeta. rewrite ios_dir_eq.
  apply writes_only_bind;
    [apply writes_only_ensure_dir, under_refl|intros _].
  apply writes_only_bind; [apply writes_only_found_files|intros l].
  apply writes_only_ios_loop.
Qed.

Lemma create_android_images_writes (fs : gmap text node) (q : text) :
  q ≠ X → under (X ++ "/android") q = false →
  (create_android_images root rasterize fs).2 !! q = fs !! q.
Proof.
  intros Hq Hu. apply (bind_xamarin_writes _ (X ++ "/android")); [|done|done].
  cbv beta zeta. rewrite android_dir_eq.
  apply writes_only_bind;
    [apply writes_only_ensure_dir, under_refl|intros _].
  apply writes_only_bind; [|intros _].
  { apply writes_only_for_each_in. intros d Hd.
    apply writes_only_ensure_dir. by apply android_buckets_under. }
  apply writes_only_bind; [apply writes_only_found_files|intros l].
  apply writes_only_android_loop.
Qed.

(** X18: whether it returns or raises, [create_ios_images] changes no path
    outside [xamarin/ios] and [create_android_images] none outside
    [xamarin/android], the workspace directory itself apart: the icons that
    they read are never written to. *)
Theorem exporters_write_only_their_directory (fs : gmap text node) (q : text) :
  q ≠ X →
  (under (X ++ "/ios") q = false →
   (create_ios_images root rasterize fs).2 !! q = fs !! q)
  ∧ (under (X ++ "/android") q = false →
     (create_android_images root rasterize fs).2 !! q = fs !! q).
Proof.
  intros Hq. split; intros Hu.
  - by apply create_ios_images_writes.
  - by apply create_android_images_writes.
Qed.

End Writes.

(** ** The whole run *)

Section Run.
Variable root : text.
Variable cnames : list (text * text).
Variable rasterize : Z → Z → text → option text.

Local Notation "'X'" := (xamarin_path root).
Local Notation "'SRC'" := (join root "svg").

Lemma svg_glob_dir (d : text) : svg_glob (with_sep d ++ "svg") = false.
Proof.
  unfold svg_glob. by rewrite basename_with_sep by apply svg_not_slash.
Qed.

(** A path of the source tree and its copy match [*.svg] together. *)
Lemma svg_glob_copy (rest : text) :
  rest = [] ∨ starts_with "/" rest = true →
  svg_glob (X ++ "/svg" ++ rest) = svg_glob (SRC ++ rest).
Proof.
  rewrite svg_src_eq. intros [->|[r ->]%starts_with_spec].
  - rewrite !app_nil_r, svg_glob_dir.
    change (X ++ "/svg") with (X ++ "/" ++ "svg").
    unfold svg_glob. by rewrite basename_app by apply svg_not_slash.
  - rewrite (app_assoc X). by rewrite !svg_glob_below.
Qed.

Lemma under_source_rest (p : text) :
  under SRC p = true →
  ∃ rest, p = SRC ++ rest ∧ (rest = [] ∨ starts_with "/" rest = true).
Proof. intros [Hp Hr]%under_rest. eauto. Qed.

Lemma under_copy_rest (p : text) :
  under (X ++ "/svg") p = true →
  ∃ rest, p = X ++ "/svg" ++ rest ∧ (rest = [] ∨ starts_with "/" rest = true).
Proof.
  intros [Hp Hr]%under_rest. exists (drop (length (X ++ "/svg")) p).
  split; [|done]. by rewrite app_assoc.
Qed.

Lemma icon_at_source_rest (fs : gmap text node) (rest : text) :
  icon_at SRC fs (SRC ++ rest) → rest = [] ∨ starts_with "/" rest = true.
Proof.
  intros (_ & [_ Hr]%under_rest & _). by rewrite drop_app_length in Hr.
Qed.

(** After the reset, the copy and the recolouring the workspace is its own
    directory and, below [svg/], the source tree with its icons recoloured;
    outside the workspace nothing has changed. *)
Lemma workspace_prepared (fh sh : text) (fs : gmap text node) :
  sed_literal fh = true → sed_literal sh = true →
  path_exists SRC fs = true →
  (∀ p, icon_at SRC fs p → ∃ c, fs !! p = Some (File c)) →
  ∃ fs1 fs2,
    copy_svg_to_xamarin root (rm_rf X fs) = (Ok tt, fs1)
    ∧ replace_color_on_svgs root fh sh fs1 = (Ok tt, fs2)
    ∧ (∀ rest, rest = [] ∨ starts_with "/" rest = true →
               fs2 !! (X ++ "/svg" ++ rest)
               = if svg_glob (SRC ++ rest)
                 then edit_file (recolored fh sh) <$> fs !! (SRC ++ rest)
                 else fs !! (SRC ++ rest))
    ∧ fs2 !! X = Some Dir
    ∧ (∀ q, under X q = true → under (X ++ "/svg") q = false → q ≠ X →
            fs2 !! q = None)
    ∧ (∀ q, under X q = false → fs2 !! q = fs !! q).
Proof.
  intros Hfh Hsh Hsrc Hfiles.
  set (fs0 := rm_rf X fs).
  assert (∀ p, under SRC p = true → fs0 !! p = fs !! p) as Hfs0.
  { intros p [Hp _]%source_outside_workspace. unfold fs0.
    by rewrite rm_rf_lookup, Hp. }
  destruct (copy_fresh root fs0) as (fs1 & Hcopy & Hfs1).
  { apply rm_rf_not_exists. }
  { apply path_exists_spec in Hsrc as (k & Hk & Hu). apply path_exists_spec.
    exists k. by rewrite Hfs0. }
  assert (∀ rest, rest = [] ∨ starts_with "/" rest = true →
                  fs1 !! (X ++ "/svg" ++ rest) = fs !! (SRC ++ rest)) as Hin1.
  { intros rest Hrest. rewrite Hfs1, app_assoc.
    rewrite under_app_rest, drop_app_length by done.
    apply Hfs0. by apply under_app_rest. }
  assert (∀ q, under (X ++ "/svg") q = false →
               fs1 !! q = <[X := Dir]> fs0 !! q) as Hout1.
  { intros q Hq. by rewrite Hfs1, Hq. }
  destruct (replace_color_on_svgs_lookup root fh sh fs1)
    as (fs2 & Hsed & Hfs2); [done|done|..].
  { rewrite svg_dir_eq.
    apply path_exists_spec in Hsrc as (k & Hk & Hu).
    apply under_source_rest in Hu as (rest & -> & Hrest).
    apply path_exists_spec. exists (X ++ "/svg" ++ rest).
    rewrite Hin1 by done. split; [done|].
    rewrite app_assoc. by apply under_app_rest. }
  { rewrite svg_dir_eq. intros p Hp Hu Hg.
    apply under_copy_rest in Hu as (rest & -> & Hrest).
    rewrite Hin1 in Hp |- * by done. apply Hfiles.
    split; [done|]. split; [by apply under_app_rest|].
    by rewrite <- svg_glob_copy. }
  rewrite svg_dir_eq in Hfs2.
  exists fs1, fs2. split; [exact Hcopy|]. split; [exact Hsed|].
  split; [|split; [|split]].
  - intros rest Hrest. rewrite Hfs2, Hin1 by done.
    rewrite (app_assoc X), under_app_rest, <- app_assoc by done.
    by rewrite svg_glob_copy.
  - rewrite Hfs2, under_px. change (under "/svg" []) with false.
    cbn [andb]. rewrite Hout1 by (by rewrite under_px).
    apply lookup_insert_eq.
  - intros q Hu Hnsvg Hne. rewrite Hfs2, Hnsvg. cbn [andb].
    rewrite Hout1 by done. rewrite lookup_insert_ne by done.
    unfold fs0. by rewrite rm_rf_lookup, Hu.
  - intros q Hu.
    assert (under (X ++ "/svg") q = false) as Hnsvg.
    { apply not_true_iff_false. intros H.
      rewrite (under_trans X (X ++ "/svg") q) in Hu;
        [done|apply (under_below X "svg")|done]. }
    rewrite Hfs2, Hnsvg. cbn [andb]. rewrite Hout1 by done.
    rewrite lookup_insert_ne by (intros <-; by rewrite under_refl in Hu).
    unfold fs0. by rewrite rm_rf_lookup, Hu.
Qed.

Lemma no_line_feed_copy (rest : text) :
  LF ∉ SRC ++ rest → LF ∉ X ++ "/svg" ++ rest.
Proof.
  rewrite svg_src_eq, xamarin_path_eq. intros H Hin. apply H.
  rewrite !elem_of_app in Hin |- *.
  destruct Hin as [[?|Hx]|Hs]; [by left; left| |].
  2: apply elem_of_app in Hs as [Hs|?]; [|by right].
  - exfalso. revert Hx. by apply not_elem_of_literal.
  - exfalso. revert Hs. by apply not_elem_of_literal.
Qed.


End Run.

(** ** Runs that fail *)

Section Failures.
Variable root : text.
Variable cnames : list (text * text).
Variable rasterize : Z → Z → text → option text.

Local Notation "'X'" := (xamarin_path root).
Local Notation "'SRC'" := (join root "svg").

Lemma found_files_missing (o : origin) (dir : text) (fs : gmap text node) :
  path_exists dir fs = false →
  found_files o dir fs = (Raise o (ErrorReturnCode "find"), fs).
Proof. intros H. unfold found_files, find_svg. by rewrite H. Qed.

Lemma for_each_ensure_dir (l : list text) (fs : gmap text node) :
  ∃ fs',
    for_each l ensure_dir fs = (Ok tt, fs')
    ∧ (∀ d, d ∈ l → path_exists d fs' = true)
    ∧ (∀ p, is_Some (fs !! p) → is_Some (fs' !! p))
    ∧ (∀ d, path_exists d fs = false → (∀ k, k ∈ l → under d k = false) →
            path_exists d fs' = false).
Proof.
  revert fs. induction l as [|k l IH]; intros fs.
  - exists fs. split; [done|]. split; [|done].
    intros d Hd. by apply elem_of_nil in Hd.
  - destruct (IH (ensure_dir k fs).2) as (fs' & Hrun & Hex & Hmono & Habs).
    exists fs'. cbn [for_each]. unfold bind.
    assert (ensure_dir k fs = (Ok tt, (ensure_dir k fs).2)) as -> by done.
    split; [exact Hrun|]. split; [|split].
    + intros d [->|Hd]%elem_of_cons; [|by apply Hex].
      eapply path_exists_mono; [exact Hmono|apply ensure_dir_exists].
    + intros p Hp. by apply Hmono, never_deletes_ensure_dir.
    + intros d Hd Hl. apply Habs.
      * apply ensure_dir_absent; [done|]. apply Hl. left.
      * intros k' Hk'. apply Hl. by right.
Qed.


(** One output that the rasterizer refuses stops the loop of an icon. *)
Lemma rasterize_one_rejected (o : origin) (f c : text)
    (outs : list (Z * text)) (w0 : Z) (p0 : text) (fs : gmap text node) :
  fs !! f = Some (File c) → (w0, p0) ∈ outs → rasterize w0 w0 c = None →
  (∀ w p, (w, p) ∈ outs → p ≠ f) →
  ∃ fs',
    for_each outs (λ wp, inkscape rasterize o wp.1 wp.1 f wp.2) fs
    = (Raise o (ErrorReturnCode "inkscape"), fs').
Proof.
  revert fs. induction outs as [|[w q] outs IH]; intros fs Hf Hin Hrej Hne.
  - by apply elem_of_nil in Hin.
  - cbn [for_each fst snd]. unfold bind, inkscape at 1. rewrite Hf.
    destruct (rasterize w w c) as [d|] eqn:Hd; [|by eauto].
    apply IH; [|by apply elem_of_cons in Hin as [[= -> ->]|?]; [congruence|]
               |done|].
    + rewrite lookup_insert_ne; [done|]. apply (Hne w). left.
    + intros w' p Hp. apply (Hne w' p). by right.
Qed.

(** The loop of an icon raises nothing but the rasterizer's error. *)
Lemma rasterize_one_raises (o : origin) (f : text) (outs : list (Z * text))
    (fs fs' : gmap text node) (o' : origin) (e : error) :
  for_each outs (λ wp, inkscape rasterize o wp.1 wp.1 f wp.2) fs
  = (Raise o' e, fs') →
  o' = o ∧ e = ErrorReturnCode "inkscape".
Proof.
  revert fs. induction outs as [|[w q] outs IH]; intros fs; [done|].
  cbn [for_each fst snd]. unfold bind, inkscape at 1.
  destruct (fs !! f) as [[|c]|]; [by intros [= <- <- _]| |by intros [= <- <- _]].
  destruct (rasterize w w c); [apply IH|by intros [= <- <- _]].
Qed.

(** The loop of an icon writes to its outputs only, whatever happens. *)
Lemma rasterize_one_frame (o : origin) (f : text) (outs : list (Z * text))
    (fs : gmap text node) (p : text) :
  p ∉ outs.*2 →
  (for_each outs (λ wp, inkscape rasterize o wp.1 wp.1 f wp.2) fs).2 !! p
  = fs !! p.
Proof.
  revert fs. induction outs as [|[w q] outs IH]; intros fs Hp; [done|].
  rewrite fmap_cons, not_elem_of_cons in Hp. destruct Hp as [Hq Hp].
  cbn [for_each fst snd]. unfold bind, inkscape at 1.
  destruct (fs !! f) as [[|c]|]; try done.
  destruct (rasterize w w c); [|done].
  rewrite IH by done. by apply lookup_insert_ne.
Qed.

Lemma rasterize_all_rejected (o : origin) (outputs : text → list (Z * text))
    (found : list text) (f0 c0 : text) (w0 : Z) (p0 : text)
    (fs : gmap text node) :
  f0 ∈ found → fs !! f0 = Some (File c0) →
  (w0, p0) ∈ outputs f0 → rasterize w0 w0 c0 = None →
  (∀ f g w p, f ∈ found → g ∈ found → (w, p) ∈ outputs g → p ≠ f) →
  ∃ fs',
    rasterize_all rasterize o outputs found fs
    = (Raise o (ErrorReturnCode "inkscape"), fs').
Proof.
  unfold rasterize_all.
  revert fs. induction found as [|f found IH]; intros fs Hin Hf0 Hout Hrej Hne.
  - by apply elem_of_nil in Hin.
  - cbn [for_each]. unfold bind at 1.
    destruct (for_each (outputs f) _ fs) as [[[]|o' e] fs1] eqn:E.
    + assert (fs1 !! f0 = fs !! f0) as Hkeep.
      { change fs1 with (Ok tt, fs1).2. rewrite <- E.
        apply rasterize_one_frame.
        intros ([w p] & Heq & Hp)%list_elem_of_fmap. cbn [snd] in Heq.
        subst p. by apply (Hne f0 f w f0); [|left| |]. }
      apply elem_of_cons in Hin as [->|Hin].
      * destruct (rasterize_one_rejected o f c0 (outputs f) w0 p0 fs)
          as [fs' Hfs']; [done|done|done| |congruence].
        intros w p Hp. by apply (Hne f f w p); [left|left|].
      * apply (IH fs1); [done|by rewrite Hkeep|done|done|].
        intros g1 g2 w p Hg1 Hg2. apply Hne; by right.
    + apply rasterize_one_raises in E as [-> ->]. eauto.
Qed.

(** The icons that [create_ios_images] goes through in a workspace without
    [ios/]. *)
Lemma create_ios_images_loop (fs : gmap text node) :
  starts_with "/" root = true →
  path_exists (X ++ "/svg") fs = true →
  path_exists (X ++ "/ios") fs = false →
  (∀ p, icon_at (X ++ "/svg") fs p → LF ∉ p) →
  ∃ ps,
    create_ios_images root rasterize fs
    = rasterize_all rasterize In_create_ios_images
        (ios_outputs (X ++ "/ios")) ps (<[X ++ "/ios" := Dir]> fs)
    ∧ ∀ p, p ∈ ps ↔ icon_at (X ++ "/svg") fs p.
Proof.
  intros Habs Hsvg Hios Hicons.
  assert (path_exists X fs = true) as HX.
  { eapply path_exists_above; [|exact Hsvg]. apply (under_below X "svg"). }
  unfold create_ios_images. rewrite bind_get_xamarin_directory, HX.
  cbn [andb negb]. cbv zeta. rewrite ios_dir_eq, svg_dir_eq.
  unfold bind at 1. rewrite ensure_dir_new by done.
  set (fs2 := <[X ++ "/ios" := Dir]> fs).
  assert (∀ p, icon_at (X ++ "/svg") fs2 p ↔ icon_at (X ++ "/svg") fs p)
    as Hsame.
  { intros p. apply icon_at_insert. by rewrite under_pp. }
  destruct (find_svg_icons (X ++ "/svg") fs2) as (ps & Hfind & Hps).
  { eapply path_exists_mono; [|exact Hsvg]. intros p. apply is_Some_insert. }
  unfold bind at 1.
  rewrite (found_files_paths In_create_ios_images _ _ _ Hfind).
  2:{ by apply workspace_absolute. }
  2:{ intros p Hp Hu Hg. apply Hicons, Hsame. by split. }
  exists ps. split.
  - apply for_each_ext, ios_body_outputs.
  - intros p. by rewrite Hps, Hsame.
Qed.


End Failures.

(** ** Instances of the further properties *)

Lemma sample_cnames_hex (name code : text) :
  (name, code) ∈ Sample.cnames → starts_with "#" code = true.
Proof.
  unfold Sample.cnames. intros H.
  repeat (apply elem_of_cons in H as [[= -> ->]|H]; [reflexivity|]).
  by apply elem_of_nil in H.
Qed.

Lemma sample_colours_accepted :
  colours_accepted Sample.cnames "red" "black".
Proof.
  exists ("#FF0000" : text), ("#000000" : text), false, ("#00FFFF" : text).
  repeat split; reflexivity.
Qed.

(** The one icon of the sample workspace, and of the sample source tree. *)
Lemma sample_workspace_icon (p : text) :
  icon_at (xamarin_path Sample.root ++ "/svg") Sample.workspace p →
  p = xamarin_path Sample.root ++ "/svg/icon-one.svg".
Proof.
  intros (Hp & Hu & Hg).
  apply lookup_list_to_map_inv in Hp. cbn [fmap list_fmap fst] in Hp.
  repeat (apply elem_of_cons in Hp as [->|Hp];
          [first [reflexivity|discriminate Hu|discriminate Hg]|]).
  by apply elem_of_nil in Hp.
Qed.

Lemma sample_source_icon (p : text) :
  icon_at (join Sample.root "svg") Sample.one_icon p →
  p = join (join Sample.root "svg") "icon-one.svg".
Proof. intros (Hp & Hu & Hg). by apply sample_one_icon. Qed.

Lemma named_color_as_hex_witness :
  generate_images Sample.root Sample.cnames Sample.rasterize
    "red" "black" Sample.one_icon
  = generate_images Sample.root Sample.cnames Sample.rasterize
      "#FF0000" "#000000" Sample.one_icon.
Proof.
  apply (named_color_as_hex Sample.root Sample.cnames Sample.rasterize
           "red" "black" "#FF0000" "#000000" Sample.one_icon).
  - exact sample_cnames_hex.
  - reflexivity.
  - reflexivity.
Defined.

Lemma complement_inverts_each_byte_witness :
  get_complementary_color "#12abEF" = Ok ("#ED5410" : text).
Proof.
  exact (proj1 (complement_inverts_each_byte "12" "ab" "EF"
                  eq_refl eq_refl eq_refl eq_refl)).
Defined.

Lemma bright_color_has_dark_complement_witness :
  ∃ comp b b',
    get_complementary_color "#FFFFFF" = Ok comp
    ∧ color_too_bright Sample.cnames "#FFFFFF" = Ok b
    ∧ color_too_bright Sample.cnames comp = Ok b'
    ∧ (b = true → b' = false).
Proof.
  exact (bright_color_has_dark_complement Sample.cnames "FFFFFF"
           eq_refl eq_refl).
Defined.

Lemma short_hash_color_rejected_witness :
  ∃ literal,
    color_too_bright Sample.cnames "#FFF"
    = Raise In_color_too_bright (ValueError literal)
    ∧ generate_images Sample.root Sample.cnames Sample.rasterize
        "#FFF" "black" Sample.one_icon
      = (Raise In_color_too_bright (ValueError literal), Sample.one_icon).
Proof.
  apply (short_hash_color_rejected Sample.root Sample.cnames Sample.rasterize
           "FFF" "black" "#000000" Sample.one_icon).
  - vm_compute. lia.
  - reflexivity.
Defined.



Lemma copy_is_exact_witness :
  ∃ fs',
    copy_svg_to_xamarin Sample.root Sample.two_stars = (Ok tt, fs')
    ∧ fs' !! (xamarin_path Sample.root ++ "/svg" ++ "/filled/star.svg")
      = Some (File Sample.icon).
Proof.
  destruct (copy_is_exact Sample.root Sample.two_stars)
    as (fs' & Hrun & Hin & _).
  - reflexivity.
  - reflexivity.
  - exists fs'. split; [exact Hrun|].
    rewrite Hin by (by right). reflexivity.
Defined.


Lemma hyphen_and_underscore_collide_witness :
  android_name ("/x/svg" ++ "/"
                ++ (hyphen_to_underscore <$> ("arrow-up.svg" : text)))
  = android_name ("/x/svg" ++ "/" ++ "arrow-up.svg")
  ∧ ios_name ("/x/svg" ++ "/"
              ++ (hyphen_to_underscore <$> ("arrow-up.svg" : text)))
    = ios_name ("/x/svg" ++ "/" ++ "arrow-up.svg").
Proof.
  apply (hyphen_and_underscore_collide "/x/svg" "arrow-up.svg").
  by apply not_elem_of_literal.
Defined.



Lemma exporters_write_only_their_directory_witness :
  (create_ios_images Sample.root Sample.rasterize Sample.workspace).2
    !! (xamarin_path Sample.root ++ "/svg/icon-one.svg")
  = Sample.workspace !! (xamarin_path Sample.root ++ "/svg/icon-one.svg").
Proof.
  apply (exporters_write_only_their_directory Sample.root Sample.rasterize
           Sample.workspace (xamarin_path Sample.root ++ "/svg/icon-one.svg")).
  - intros H. vm_compute in H. discriminate H.
  - reflexivity.
Defined.

Lemma sample_workspace_icons_fine (p : text) :
  icon_at (xamarin_path Sample.root ++ "/svg") Sample.workspace p →
  (LF ∉ p)
  ∧ ∃ c, Sample.workspace !! p = Some (File c)
         ∧ ∀ w, is_Some (Sample.rasterize w w c).
Proof.
  intros ->%sample_workspace_icon. split; [by apply not_elem_of_literal|].
  exists Sample.icon. split; [reflexivity|]. intros w.
  unfold Sample.rasterize. eauto.
Qed.

Lemma sample_workspace_icon_at :
  icon_at (xamarin_path Sample.root ++ "/svg") Sample.workspace
    (xamarin_path Sample.root ++ "/svg/icon-one.svg").
Proof. split; [by eexists|]. split; reflexivity. Qed.



Lemma sample_source_icon_at :
  icon_at (join Sample.root "svg") Sample.one_icon
    (join Sample.root "svg" ++ "/icon-one.svg").
Proof. split; [by eexists|]. split; reflexivity. Qed.



